(* ===== verification/_CoqProject ===== *)
-Q . S2P
Prelude.v
Float.v
FloatBounds.v
ModArith.v
Factor.v
Oracle.v
Rsa.v
Pipeline.v
Machine.v
Outcomes.v
Render.v
