(* ===== verification/Prelude.v ===== *)
(** * Breaking a didactic RSA key by factoring: a verification development
    of [src/shor.py]

    ** The program

    [src/shor.py] is a single Python script that runs top to bottom:

    - lines 11-21 build a toy RSA key ([p], [q], [N = p*q],
      [phi = (p-1)*(q-1)], public exponent [e]) and encrypt a message,
      [c = pow(m, e, N)];
    - lines 28-58 define [try_qiskit_shor_factor], an adapter around an
      external factoring library reached through two import paths (a modern
      one and a legacy one); every exception on the first path triggers the
      second, every exception on the second yields [None];
    - lines 60-67 walk the candidate pairs the adapter returned and keep the
      first pair [(a, b)] with [a > 1], [b > 1] and [a*b == N];
    - lines 69-88 announce the result or fall back to [trivial_factor]
      (trial division up to [int(math.sqrt(N))]) and raise [RuntimeError]
      when that fails too;
    - lines 93-107 rebuild [phi] from the recovered factors and compute the
      private exponent with [egcd] / [modinv];
    - lines 109-113 decrypt, [m_rec = pow(c, d_rec, N)], and report whether
      [m_rec == m].

    ** Files of the development, in dependency order

    - [Prelude] (this file): the Python-level vocabulary shared by all
      components.  Exceptions are values: [res A] is [Ok a] or [Raise e], with
      a bind notation in [py_scope].  Python integers are [Z]; [//] and [%]
      are [Z.div] and [Z.modulo] (both floor, sign of the divisor), written
      directly where the source guards the divisor (lines 80, 82, 98-100)
      and through [py_mod], which raises [ZeroDivisionError], where it does
      not (line 107); [range] is the list of integers it iterates over; a
      [for] loop that returns at the first hit is [List.find].  The file
      also holds the tactics ([inv_res], [case_if], [zbool]), the hint
      database [shor] and the list and integer lemmas the components
      share.
    - [Float]: [int(math.sqrt(N))] on IEEE-754 binary64, computed exactly in
      [Z]: conversion of an integer to a double (round to nearest, ties to
      even, [OverflowError] when the rounded value reaches 2^1024), the
      correctly rounded square root, truncation.  Theorems: the result is
      [Z.sqrt N] for [0 <= N < 2^52]; as examples, inputs above the bound
      where the result is one too large and one too small.
    - [FloatBounds]: the same computation for every argument.  Each
      rounding moves a number by at most half a unit in the last of 53
      places and is monotone.  Theorems: the first argument on which the
      result is not [Z.sqrt N] is [2^52 + 2^27]; the result is [Z.sqrt N]
      or its successor below 2^102, it is at least every [p <= 2^52] with
      [p * p <= N] (the root of the double nearest to a square is rounded
      back to its root), it is below [N] for [N >= 2], and the expression
      raises [OverflowError] exactly when [|N| >= 2^1024 - 2^970] and
      [ValueError] exactly on the other negative arguments.
    - [ModArith]: [egcd] and [modinv] (lines 97-107) and the builtin
      three-argument [pow].  [egcd] recurses on [(b, a % b)], which is not
      structural: the model takes fuel, [egcd] supplies [S (Z.abs_nat b)],
      and [egcd_unfold] shows that this is always enough, so the defining
      equation of the source holds without any side condition.  Theorems:
      Bezout identity, the returned [g] against [Z.gcd], [modinv] succeeds
      exactly when [g = 1], its result is the inverse in [[0, n)], the
      behaviour on the corner cases [n = 0] and [n < 0], and the depth of
      the recursion: [2 * log2 b + 2] frames are enough.
    - [Factor]: [trivial_factor] (lines 78-82) and the selection loop over
      candidate pairs (lines 61-67).  Theorems: a pair [trivial_factor]
      returns is a non-trivial factorisation with the smallest divisor
      first, for every [N]; it finds a pair on every composite below
      2^104 ([within_reach]), the squares of primes included; [None]
      exactly on primes and on 0, 1 below 2^104; its exceptions are those
      of [math.sqrt]; the candidate loop
      returns the first valid pair and raises where the unpacking
      [a, b = pair] raises.
    - [Oracle]: the external library as data ([ApiPath], one per import
      path, with one field per statement that can raise) and
      [try_qiskit_shor_factor] over it; the class [FactorOracle] states what
      the pipeline needs from any factoring strategy (a returned pair
      multiplies to [N] and is non-trivial; on the inputs the strategy
      supports a pair is returned); the library path, trial division and
      the chain of two strategies are instances.
    - [Rsa]: the number theory: for distinct primes [p], [q] and
      [e*d = 1 (mod (p-1)*(q-1))], [(m^e)^d = m (mod p*q)] for every [m];
      a non-trivial factorisation of [p*q] is [{p, q}].
    - [Pipeline]: the script as a function [run] from a configuration
      ([Config], the constants of lines 11-15) and an external environment
      to the list of lines printed and the final outcome ([Ok] with a
      [Report] of every value computed, or the uncaught exception), in the
      writer-and-exception monad [script].  Theorems: every run on a valid
      key with [N < 2^104] ends verified with [m_rec = m] whatever the
      external library answers (as long as its candidates unpack), the
      same against any instance of [FactorOracle], and what a run prints
      and raises on each failing branch.
    - [Machine]: the state machine of the specification ([Initialized],
      [Encrypted], [Factoring], [Reconstructed], [Decrypted], [Verified],
      [Aborted]) with the live variables of the script in each state; an
      executable [step], the relation [transition] with one rule per arrow
      and per raising statement, and [execution], its runs with their
      output.  The machine is built from the stage functions of [run]:
      what it adds is the order of the stages, the points where the script
      aborts and the lines printed between two states.  Theorems: [run]
      follows the machine (same lines, same final state), and on a valid
      key soundness of states ([state_ok]) is an invariant: an [Aborted]
      state is reached only with the [ValueError] of line 64, when the
      candidate loop raises it on the answer of the library.  Lemmas:
      [transition] is the graph of [step], it is deterministic, and every
      state reaches a terminal state within [rank] (at most 5)
      transitions.
    - [Outcomes]: every way the script can end, for arbitrary constants.
      [failure] lists the statements that raise outside a [try] block
      (lines 18, 64, 79, 88, 106) with the condition of each.  Theorems:
      the script dies with [e] exactly when [failure] holds of [e];
      lines 60-88 ([find_factors]) implement the chain of oracles of
      [Oracle]; with a modulus below 2^104 the script gives up with
      [RuntimeError] exactly on a modulus that is 1 or prime when the
      library has no valid pair; [ZeroDivisionError] never escapes;
      nothing after line 109 can raise; when the script ends normally its
      report is consistent and determines what was printed.
    - [Render]: the text of the [print] statements ([render], [stdout]):
      the f-strings as byte strings with integers in decimal.  Theorems:
      [render] is injective and no line is the beginning of another, so
      [stdout] is injective: the console determines the statements
      executed and the values shown.  The console of the script as
      written is an example.

    ** Bounds and fuel

    Integers are unbounded, as in Python.  The only bounded quantity is the
    argument of [math.sqrt]: the float model computes the double for all
    inputs.  The theorems that need [int(math.sqrt(N))] to be the integer
    square root assume [N < 2^52], which [Float] proves sufficient
    ([FloatBounds] shows that the first inexact argument is
    [2^52 + 2^27]); the theorems that need the loop to reach a divisor up to the
    square root assume [N < 2^104], so that the divisor is at most 2^52
    and survives both roundings ([FloatBounds]); soundness of a returned
    pair needs no bound.  [egcd]'s fuel is internal and proved sufficient
    for all inputs; a budget of [2 * log2 b + 2] frames is proved
    sufficient too, which keeps the call [egcd(e, phi_rec)] within 208
    frames for moduli under 2^104, far from Python's recursion limit of
    about 1000 frames; beyond that the limit itself is not modelled.  The
    machine of [Machine] is run with 5 transitions of fuel, the rank of
    its initial state, proved enough to reach a terminal state.

    ** Not modelled

    The quantum algorithm itself (the external library is a parameter:
    each import path may be missing, raise, or answer with any list of
    lists of integers), [BaseException]s that
    [except Exception] does not catch ([KeyboardInterrupt], [SystemExit]),
    the traceback and the messages the interpreter prints for an uncaught
    exception, [RecursionError] (the depth of [egcd] is bounded instead)
    and memory exhaustion.  A candidate of the library is a list of
    integers: answers of other types (a candidate that is not iterable,
    factors that are not integers), which would raise [TypeError] on
    lines 64-65, are outside the model. *)

From Stdlib Require Import ZArith Znumtheory List Bool Lia.
Import ListNotations.
#[local] Open Scope Z_scope.

Declare Scope py_scope.
Delimit Scope py_scope with py.

(** ** Exceptions as values *)

(** The exception classes the script can let escape. *)
Inductive exn : Type :=
| ValueError
| ZeroDivisionError
| OverflowError
| RuntimeError.

(** The result of evaluating a Python expression or statement. *)
Inductive res (A : Type) : Type :=
| Ok (a : A)
| Raise (e : exn).

Arguments Ok {A} a.
Arguments Raise {A} e.

Definition bind {A B : Type} (r : res A) (k : A -> res B) : res B :=
  match r with
  | Ok a => k a
  | Raise e => Raise e
  end.

Notation "x <- r ;; k" := (bind r (fun x => k))
  (at level 61, r at next level, right associativity) : py_scope.
Notation "' p <- r ;; k" := (bind r (fun p => k))
  (at level 61, p pattern, r at next level, right associativity) : py_scope.

(** ** Python integer operators *)

(** [a % b]: floor remainder with the sign of [b]; raises on [b == 0]. *)
Definition py_mod (a b : Z) : res Z :=
  if b =? 0 then Raise ZeroDivisionError else Ok (a mod b).

(** [range(lo, hi)] as the list of values a [for] loop visits. *)
Fixpoint range_from (lo : Z) (n : nat) : list Z :=
  match n with
  | O => []
  | S n' => lo :: range_from (lo + 1) n'
  end.

Definition range (lo hi : Z) : list Z := range_from lo (Z.to_nat (hi - lo)).

(** Truth value of a list in a condition: non-empty. *)
Definition truthy {A : Type} (l : list A) : bool :=
  match l with
  | [] => false
  | _ :: _ => true
  end.

(** ** Tactics *)

(** Invert equations between results. *)
Ltac inv_res :=
  repeat match goal with
  | H : Ok _ = Ok _ |- _ => injection H as H; try subst
  | H : Some _ = Some _ |- _ => injection H as H; try subst
  | H : (_, _) = (_, _) |- _ => injection H as ? ?; try subst
  | H : Ok _ = Raise _ |- _ => discriminate H
  | H : Raise _ = Ok _ |- _ => discriminate H
  | H : Some _ = None |- _ => discriminate H
  | H : None = Some _ |- _ => discriminate H
  | H : Raise _ = Raise _ |- _ => injection H as H; try subst
  end.

(** Turn boolean integer tests in the context and the goal into
    propositions. *)
Ltac zbool :=
  repeat match goal with
  | H : (_ =? _) = true |- _ => apply Z.eqb_eq in H
  | H : (_ =? _) = false |- _ => apply Z.eqb_neq in H
  | H : (_ <? _) = true |- _ => apply Z.ltb_lt in H
  | H : (_ <? _) = false |- _ => apply Z.ltb_ge in H
  | H : (_ <=? _) = true |- _ => apply Z.leb_le in H
  | H : (_ <=? _) = false |- _ => apply Z.leb_gt in H
  | H : (_ >? _) = true |- _ => rewrite Z.gtb_ltb in H; apply Z.ltb_lt in H
  | H : (_ >? _) = false |- _ => rewrite Z.gtb_ltb in H; apply Z.ltb_ge in H
  | H : (_ && _) = true |- _ => apply andb_true_iff in H; destruct H
  | H : negb _ = true |- _ => apply negb_true_iff in H
  | H : negb _ = false |- _ => apply negb_false_iff in H
  | |- (_ =? _) = true => apply Z.eqb_eq
  | |- (_ =? _) = false => apply Z.eqb_neq
  | |- (_ <? _) = true => apply Z.ltb_lt
  | |- (_ <? _) = false => apply Z.ltb_ge
  | |- (_ <=? _) = true => apply Z.leb_le
  | |- (_ <=? _) = false => apply Z.leb_gt
  | |- (_ >? _) = true => rewrite Z.gtb_ltb; apply Z.ltb_lt
  | |- (_ >? _) = false => rewrite Z.gtb_ltb; apply Z.ltb_ge
  end.

(** Case analysis on the test of the first [if] of the goal. *)
Ltac case_if :=
  match goal with
  | |- context [if ?b then _ else _] =>
      let E := fresh "E" in destruct b eqn:E
  end.

Create HintDb shor discriminated.
Create Rewrite HintDb shor.

(** ** The result monad *)

Section ResLaws.
Context {A B C : Type}.

Lemma bind_ok (a : A) (k : A -> res B) : bind (Ok a) k = k a.
Proof. reflexivity. Qed.

Lemma bind_raise (e : exn) (k : A -> res B) : bind (Raise e) k = Raise e.
Proof. reflexivity. Qed.

Lemma bind_ret (r : res A) : bind r Ok = r.
Proof. destruct r; reflexivity. Qed.

Lemma bind_assoc (r : res A) (k : A -> res B) (h : B -> res C) :
  bind (bind r k) h = bind r (fun a => bind (k a) h).
Proof. destruct r; reflexivity. Qed.

End ResLaws.

#[export] Hint Rewrite @bind_ok @bind_raise @bind_ret : shor.

(** ** Integer operators *)

Lemma py_mod_ok (a b : Z) : b <> 0 -> py_mod a b = Ok (a mod b).
Proof. intros H; unfold py_mod; apply Z.eqb_neq in H; rewrite H; reflexivity. Qed.

(** The remainder has the sign of the divisor and is smaller in absolute
    value: the measure of Euclid's algorithm. *)
Lemma mod_abs_lt (a b : Z) : b <> 0 -> Z.abs (a mod b) < Z.abs b.
Proof.
  intros Hb. destruct (Z.lt_trichotomy b 0) as [H | [H | H]]; [| lia |].
  - pose proof (Z.mod_neg_bound a b H). lia.
  - pose proof (Z.mod_pos_bound a b H). lia.
Qed.

#[export] Hint Resolve mod_abs_lt : shor.

(** ** Ranges and first-hit loops *)

Lemma range_from_In (n : nat) (lo x : Z) :
  In x (range_from lo n) <-> lo <= x < lo + Z.of_nat n.
Proof.
  revert lo; induction n as [|n IH]; intros lo; simpl.
  - lia.
  - rewrite IH. lia.
Qed.

Lemma range_In (lo hi x : Z) : In x (range lo hi) <-> lo <= x < hi.
Proof. unfold range. rewrite range_from_In. lia. Qed.

(** A first-hit loop over an increasing range returns the least hit. *)
Lemma find_range_from_least (f : Z -> bool) (n : nat) (lo x : Z) :
  find f (range_from lo n) = Some x ->
  lo <= x < lo + Z.of_nat n /\ f x = true /\
  forall y, lo <= y < x -> f y = false.
Proof.
  revert lo; induction n as [|n IH]; intros lo; simpl; [discriminate|].
  destruct (f lo) eqn:E.
  - intros H; inv_res. repeat split; try lia; auto.
  - intros H. destruct (IH _ H) as [Hr [Hf Hmin]].
    repeat split; try lia; auto.
    intros y Hy. destruct (Z.eq_dec y lo) as [->|Hne]; [assumption|].
    apply Hmin; lia.
Qed.

Lemma find_range_least (f : Z -> bool) (lo hi x : Z) :
  find f (range lo hi) = Some x ->
  lo <= x < hi /\ f x = true /\ forall y, lo <= y < x -> f y = false.
Proof.
  unfold range. intros H. apply find_range_from_least in H.
  destruct H as [Hr H]. split; [lia | exact H].
Qed.

(** The loop finds nothing exactly when no value of the range hits. *)
Lemma find_range_None (f : Z -> bool) (lo hi : Z) :
  find f (range lo hi) = None <-> forall y, lo <= y < hi -> f y = false.
Proof.
  split.
  - intros H y Hy. apply (find_none f _ H). apply range_In; assumption.
  - intros H. destruct (find f (range lo hi)) as [x|] eqn:E; [|reflexivity].
    apply find_range_least in E. destruct E as [Hr [Hf _]].
    rewrite (H x Hr) in Hf. discriminate.
Qed.

