(* ===== verification/Float.v ===== *)
(** * [int(math.sqrt(N))] on IEEE-754 binary64

    [trivial_factor] bounds its loop with [int(math.sqrt(N))]: the integer
    [N] is converted to a double, the square root is taken in double
    precision and the result is truncated.  This file computes that value
    exactly with integers: [double_of_int] is the conversion (53 significant
    bits, round to nearest, ties to even, [OverflowError] when the rounded
    value reaches 2^1024), [sqrt_double] the correctly rounded square root
    of an integer-valued double followed by truncation, [math_sqrt_int] the
    composition with the domain error on negative arguments.

    The square root is rounded from [T = Z.sqrt (F * 2^128)], that is
    [sqrt F] with 64 fractional bits, and the flag [T*T <> F * 2^128] that
    says whether bits were lost: together they decide on which side of a
    rounding boundary the real square root lies. *)

From Stdlib Require Import ZArith List Bool Lia.
From S2P Require Import Prelude.
#[local] Open Scope Z_scope.
#[local] Open Scope py_scope.

(** ** Definitions *)

(** [n / 2^d] rounded to the nearest integer, ties to even; [sticky] says
    that [n] stands for a real number strictly between [n] and [n + 1]. *)
Definition round_nearest_even (n d : Z) (sticky : bool) : Z :=
  let q := n / 2 ^ d in
  let r := n mod 2 ^ d in
  let h := 2 ^ (d - 1) in
  if (h <? r) || ((r =? h) && (sticky || Z.odd q)) then q + 1 else q.

(** The value of [float(N)] for [N >= 0]. *)
Definition double_of_nat (N : Z) : Z :=
  let d := Z.log2 N - 52 in
  if d <=? 0 then N else round_nearest_even N d false * 2 ^ d.

(** The value of [float(N)]; integers whose rounded magnitude reaches
    2^1024 do not convert. *)
Definition double_of_int (N : Z) : res Z :=
  let F := Z.sgn N * double_of_nat (Z.abs N) in
  if 2 ^ 1024 <=? Z.abs F then Raise OverflowError else Ok F.

(** [int(sqrt(F))] for a double [F >= 0] with an integer value. *)
Definition sqrt_double (F : Z) : Z :=
  if F =? 0 then 0
  else
    let T := Z.sqrt (F * 2 ^ 128) in
    let sticky := negb (T * T =? F * 2 ^ 128) in
    let d := Z.log2 T - 52 in
    (round_nearest_even T d sticky * 2 ^ d) / 2 ^ 64.

(** [int(math.sqrt(N))]. *)
Definition math_sqrt_int (N : Z) : res Z :=
  F <- double_of_int N ;;
  if F <? 0 then Raise ValueError else Ok (sqrt_double F).

(** ** Concrete values *)

Example math_sqrt_int_15 : math_sqrt_int 15 = Ok 3.
Proof. vm_compute. reflexivity. Qed.

Example math_sqrt_int_16 : math_sqrt_int 16 = Ok 4.
Proof. vm_compute. reflexivity. Qed.

Example math_sqrt_int_0 : math_sqrt_int 0 = Ok 0.
Proof. vm_compute. reflexivity. Qed.

Example math_sqrt_int_huge : math_sqrt_int (2 ^ 1024) = Raise OverflowError.
Proof. vm_compute. reflexivity. Qed.

Example math_sqrt_int_largest :
  math_sqrt_int (2 ^ 1024 - 2 ^ 970 - 1) = Ok (2 ^ 512 - 2 ^ 459).
Proof. vm_compute. reflexivity. Qed.

(** ** Rounding *)

(** Rounding to nearest returns the quotient, or its successor, and the
    latter only from the upper half of the interval. *)
Lemma round_nearest_even_cases (n d : Z) (sticky : bool) :
  let q := n / 2 ^ d in
  let r := n mod 2 ^ d in
  round_nearest_even n d sticky = q \/
  (round_nearest_even n d sticky = q + 1 /\ 2 ^ (d - 1) <= r).
Proof.
  unfold round_nearest_even; cbv zeta.
  destruct (2 ^ (d - 1) <? n mod 2 ^ d) eqn:E1; simpl.
  - right; zbool; lia.
  - destruct (n mod 2 ^ d =? 2 ^ (d - 1)) eqn:E2; simpl; [|left; reflexivity].
    destruct (sticky || Z.odd (n / 2 ^ d));
      [right; zbool; lia | left; reflexivity].
Qed.

(** The root of a number scaled by a square is the scaled root, up to the
    fractional part. *)
Lemma sqrt_scaled_bounds (F B : Z) :
  0 <= F -> 0 < B ->
  Z.sqrt F * B <= Z.sqrt (F * (B * B)) < (Z.sqrt F + 1) * B.
Proof.
  intros HF HB. pose proof (Z.sqrt_spec F HF) as Hs; cbv zeta in Hs.
  pose proof (Z.sqrt_nonneg F). split.
  - apply Z.sqrt_le_square; nia.
  - apply Z.sqrt_lt_square; nia.
Qed.

(** A number below [(s+1)^2] leaves a gap of [B^2] under [((s+1)*B)^2]
    once scaled. *)
Lemma square_gap (F s B T : Z) :
  F < (s + 1) * (s + 1) -> T * T <= F * (B * B) ->
  T * T <= (s + 1) * B * ((s + 1) * B) - B * B.
Proof.
  intros Hs HT.
  assert (H : F * (B * B) <= ((s + 1) * (s + 1) - 1) * (B * B)).
  { apply Z.mul_le_mono_nonneg_r; [apply Z.square_nonneg | lia]. }
  replace ((s + 1) * B * ((s + 1) * B) - B * B)
    with (((s + 1) * (s + 1) - 1) * (B * B)) by ring.
  lia.
Qed.

Section RoundingWindow.

(** [T] is a scaled root between [s*B] and [(s+1)*B], at least [B*B] below
    the square of the upper end; [D = 2*h] is the rounding step, so small
    that [(s+1)*D <= B]; [R] is [T / D] rounded. *)
Variables s B D h K T R : Z.
Hypothesis Hh : 0 < h.
Hypothesis HD : D = 2 * h.
Hypothesis HK : 0 < K.
Hypothesis HB : B = K * D.
Hypothesis Hs : 0 <= s.
Hypothesis HsD : (s + 1) * D <= B.
Hypothesis HT : s * B <= T < (s + 1) * B.
Hypothesis HTT : T * T <= (s + 1) * B * ((s + 1) * B) - B * B.
Hypothesis HR : R = T / D \/ (R = T / D + 1 /\ h <= T mod D).

(** Rounding up cannot reach the next integer. *)
Lemma round_stays_below : R * D < (s + 1) * B.
Proof.
  pose proof (Z.div_mod T D ltac:(lia)) as Hqr.
  pose proof (Z.mod_pos_bound T D ltac:(lia)) as Hr.
  assert (HB0 : 0 < B) by (rewrite HB; apply Z.mul_pos_pos; lia).
  assert (H2 : (s + 1) * B * D <= B * B).
  { replace ((s + 1) * B * D) with (B * ((s + 1) * D)) by ring.
    apply Z.mul_le_mono_nonneg_l; lia. }
  set (U := (s + 1) * B) in *.
  destruct HR as [-> | [-> Hup]]; [lia|].
  destruct (Z_lt_le_dec ((T / D + 1) * D) U) as [|Hge]; [assumption|exfalso].
  assert (HT' : U - h <= T) by lia.
  assert (HUh : 0 <= U - h) by lia.
  assert (H1 : (U - h) * (U - h) <= T * T)
    by (apply Z.mul_le_mono_nonneg; lia).
  clear - H1 H2 HTT HD Hh. nia.
Qed.

(** Rounding down cannot fall below the integer part. *)
Lemma round_stays_above : s * B <= R * D.
Proof.
  assert (Hq : s * K <= T / D).
  { apply Z.div_le_lower_bound; [lia|].
    replace (D * (s * K)) with (s * B) by (rewrite HB; ring). lia. }
  assert (Hq' : s * K * D <= T / D * D) by (apply Z.mul_le_mono_nonneg_r; lia).
  replace (s * K * D) with (s * B) in Hq' by (rewrite HB; ring).
  destruct HR as [-> | [-> _]]; lia.
Qed.

(** Truncating the rounded root gives the integer root. *)
Lemma round_window : R * D / B = s.
Proof.
  pose proof round_stays_below. pose proof round_stays_above.
  symmetry. apply Z.div_unique with (r := R * D - s * B); lia.
Qed.

End RoundingWindow.

(** ** Exactness below 2^52 *)

(** Size of the scaled root of a number below 2^52. *)
Lemma log2_scaled_root (F : Z) :
  1 <= F < 2 ^ 52 ->
  64 <= Z.log2 (Z.sqrt (F * (2 ^ 64 * 2 ^ 64))) < 90.
Proof.
  intros HF. set (B := 2 ^ 64).
  assert (HB : 0 < B) by (unfold B; lia).
  pose proof (sqrt_scaled_bounds F B ltac:(lia) HB) as HT.
  assert (Hs1 : 1 <= Z.sqrt F < 2 ^ 26).
  { split; [apply Z.sqrt_le_square; lia | apply Z.sqrt_lt_square; lia]. }
  split.
  - apply Z.log2_le_pow2; [nia|]. fold B. nia.
  - apply Z.log2_lt_pow2; [nia|]. change (2 ^ 90) with (2 ^ 26 * B). nia.
Qed.

(** The rounding step of such a root is small against the scale. *)
Lemma rounding_step_small (s T d : Z) :
  0 <= s < 2 ^ 26 -> 0 < T < (s + 1) * 2 ^ 64 -> d = Z.log2 T - 52 ->
  0 <= d -> (s + 1) * 2 ^ d <= 2 ^ 64.
Proof.
  intros Hs HT -> Hd. pose proof (Z.log2_spec T ltac:(lia)) as [HL _].
  replace (Z.log2 T) with (Z.log2 T - 52 + 52) in HL at 1 by lia.
  rewrite Z.pow_add_r in HL by lia.
  change (2 ^ 52) with (2 ^ 26 * 2 ^ 26) in HL.
  set (D := 2 ^ (Z.log2 T - 52)) in *. assert (0 < D) by (apply Z.pow_pos_nonneg; lia).
  set (C := 2 ^ 26) in *. assert (0 < C) by (unfold C; lia).
  set (B := 2 ^ 64) in *. nia.
Qed.

(** The double-precision square root of an integer below 2^52, truncated,
    is its integer square root. *)
Lemma sqrt_double_exact (F : Z) : 0 <= F < 2 ^ 52 -> sqrt_double F = Z.sqrt F.
Proof.
  intros HF. unfold sqrt_double.
  destruct (Z.eqb_spec F 0) as [->|HF0]; [reflexivity|]. cbv zeta.
  change (2 ^ 128) with (2 ^ 64 * 2 ^ 64).
  pose proof (log2_scaled_root F ltac:(lia)) as HL.
  pose proof (sqrt_scaled_bounds F (2 ^ 64) ltac:(lia) ltac:(lia)) as HT.
  pose proof (Z.sqrt_spec F ltac:(lia)) as Hs; cbv zeta in Hs.
  pose proof (Z.sqrt_spec (F * (2 ^ 64 * 2 ^ 64)) ltac:(lia)) as [HT2 _].
  set (T := Z.sqrt (F * (2 ^ 64 * 2 ^ 64))) in *. set (s := Z.sqrt F) in *.
  assert (Hs1 : 1 <= s < 2 ^ 26).
  { split; [apply Z.sqrt_le_square; lia | apply Z.sqrt_lt_square; lia]. }
  set (d := Z.log2 T - 52). assert (Hd : 12 <= d <= 37) by (unfold d; lia).
  apply (round_window s (2 ^ 64) (2 ^ d) (2 ^ (d - 1)) (2 ^ (64 - d)) T).
  - apply Z.pow_pos_nonneg; lia.
  - rewrite <- Z.pow_succ_r by lia. f_equal; lia.
  - apply Z.pow_pos_nonneg; lia.
  - rewrite <- Z.pow_add_r by lia. f_equal; lia.
  - lia.
  - apply (rounding_step_small s T d); unfold d; lia.
  - exact HT.
  - apply (square_gap F); [lia | exact HT2].
  - apply round_nearest_even_cases.
Qed.

(** Integers below 2^53 convert to a double without rounding. *)
Lemma double_of_nat_small (N : Z) : 0 <= N < 2 ^ 53 -> double_of_nat N = N.
Proof.
  intros HN. unfold double_of_nat.
  destruct (Z.leb_spec (Z.log2 N - 52) 0) as [|Hd]; [reflexivity|exfalso].
  assert (0 < N) by (destruct N; simpl in Hd; lia).
  assert (Z.log2 N < 53) by (apply Z.log2_lt_pow2; lia). lia.
Qed.

Lemma double_of_int_small (N : Z) : 0 <= N < 2 ^ 53 -> double_of_int N = Ok N.
Proof.
  intros HN. unfold double_of_int.
  rewrite (Z.abs_eq N), double_of_nat_small by lia.
  replace (Z.sgn N * N) with N by (destruct N; simpl; lia).
  rewrite (Z.abs_eq N) by lia.
  destruct (Z.leb_spec (2 ^ 1024) N); [|reflexivity].
  assert (2 ^ 53 < 2 ^ 1024) by (apply Z.pow_lt_mono_r; lia). lia.
Qed.

Lemma math_sqrt_int_exact (N : Z) :
  0 <= N < 2 ^ 52 -> math_sqrt_int N = Ok (Z.sqrt N).
Proof.
  intros HN. unfold math_sqrt_int.
  rewrite double_of_int_small by lia. simpl.
  destruct (Z.ltb_spec N 0); [lia|]. now rewrite sqrt_double_exact.
Qed.

(** The conversion keeps the sign, so a negative argument reaches
    [math.sqrt] as a negative double, or overflows before. *)
Lemma double_of_nat_pos (N : Z) : 0 < N -> 0 < double_of_nat N.
Proof.
  intros HN. unfold double_of_nat.
  destruct (Z.leb_spec (Z.log2 N - 52) 0) as [|Hd]; [assumption|].
  set (d := Z.log2 N - 52) in *.
  assert (HD : 0 < 2 ^ d) by (apply Z.pow_pos_nonneg; lia).
  assert (1 <= N / 2 ^ d).
  { apply Z.div_le_lower_bound; [lia|]. rewrite Z.mul_1_r.
    transitivity (2 ^ Z.log2 N); [apply Z.pow_le_mono_r; lia|].
    apply Z.log2_spec; assumption. }
  pose proof (round_nearest_even_cases N d false) as HR; cbv zeta in HR.
  nia.
Qed.

(** ** Properties *)

(** Claim C21. For [0 <= N < 2^52], [int(math.sqrt(N))] does not raise and
    is the integer square root of [N]: the [k] with
    [k*k <= N < (k+1)*(k+1)]. *)
Theorem math_sqrt_int_is_isqrt (N : Z) :
  0 <= N < 2 ^ 52 ->
  exists k, math_sqrt_int N = Ok k /\ 0 <= k /\ k * k <= N < (k + 1) * (k + 1).
Proof.
  intros HN. exists (Z.sqrt N). split; [now apply math_sqrt_int_exact|].
  pose proof (Z.sqrt_spec N ltac:(lia)) as Hs; cbv zeta in Hs.
  pose proof (Z.sqrt_nonneg N). lia.
Qed.

Lemma math_sqrt_int_is_isqrt_witness :
  exists k, math_sqrt_int 15 = Ok k /\ 0 <= k /\ k * k <= 15 < (k + 1) * (k + 1).
Proof. apply (math_sqrt_int_is_isqrt 15). lia. Defined.

(** Beyond 2^52 the result can differ from the integer square root in
    both directions: at [N = 2^52 + 2^27] the double square root rounds up
    to the next integer and [int(math.sqrt(N))] is one more; at
    [N = (2^53 + 1)^2] the conversion of [N] to a double rounds down and
    the result is one less. *)
Example math_sqrt_int_inexact_above_2_52 :
  math_sqrt_int (2 ^ 52 + 2 ^ 27) = Ok (2 ^ 26 + 1) /\
  Z.sqrt (2 ^ 52 + 2 ^ 27) = 2 ^ 26 /\
  math_sqrt_int ((2 ^ 53 + 1) * (2 ^ 53 + 1)) = Ok (2 ^ 53) /\
  Z.sqrt ((2 ^ 53 + 1) * (2 ^ 53 + 1)) = 2 ^ 53 + 1.
Proof. vm_compute. repeat split; reflexivity. Qed.
