(* ===== verification/FloatBounds.v ===== *)
(** * [int(math.sqrt(N))] beyond 2^52: error bounds for every argument

    Above 2^52 the loop bound of [trivial_factor] is no longer the integer
    square root, but it is never far from it.  The conversion of [N] to a
    double and the rounding of the root each move a number by at most half
    a unit in the last of 53 places; rounding is monotone and every integer
    up to 2^53 is a double.  From these: the first argument on which the
    result is not [Z.sqrt N] is [2^52 + 2^27]; the result is [Z.sqrt N] or
    its successor below 2^102, it is never below an integer [p <= 2^52] with
    [p * p <= N] (the root of a number half a unit below a square
    [p * p] is rounded back up to [p]), it is below [N], and the conversion
    overflows exactly from [2^1024 - 2^970] on. *)

From Stdlib Require Import ZArith List Bool Lia.
From S2P Require Import Prelude Float.
#[local] Open Scope Z_scope.
#[local] Open Scope py_scope.

(** ** Rounding *)

(** The rounding step of a number of more than 52 bits: divided by it, the
    number has exactly 53 bits. *)
Lemma log2_step (n : Z) :
  0 < n -> 52 <= Z.log2 n ->
  0 < 2 ^ (Z.log2 n - 52) /\
  2 ^ 52 * 2 ^ (Z.log2 n - 52) <= n < 2 ^ 53 * 2 ^ (Z.log2 n - 52).
Proof.
  intros Hn HL. pose proof (Z.log2_spec n Hn) as HS.
  split; [apply Z.pow_pos_nonneg; lia|].
  rewrite <- !Z.pow_add_r by lia.
  replace (52 + (Z.log2 n - 52)) with (Z.log2 n) by lia.
  replace (53 + (Z.log2 n - 52)) with (Z.succ (Z.log2 n)) by lia.
  exact HS.
Qed.

(** Rounding moves a number by at most one step, and never below the
    quotient. *)
Lemma round_scaled (n d : Z) (sticky : bool) :
  0 <= d ->
  n / 2 ^ d <= round_nearest_even n d sticky /\
  n - 2 ^ d < round_nearest_even n d sticky * 2 ^ d <= n + 2 ^ d.
Proof.
  intros Hd. assert (HD : 0 < 2 ^ d) by (apply Z.pow_pos_nonneg; lia).
  pose proof (Z.div_mod n (2 ^ d) ltac:(lia)) as Hqr.
  pose proof (Z.mod_pos_bound n (2 ^ d) HD) as Hr.
  destruct (round_nearest_even_cases n d sticky) as [-> | [-> _]]; nia.
Qed.

(** Below the middle of the interval rounding goes down. *)
Lemma round_down (n d : Z) (sticky : bool) :
  n mod 2 ^ d < 2 ^ (d - 1) -> round_nearest_even n d sticky = n / 2 ^ d.
Proof.
  intros H. unfold round_nearest_even; cbv zeta.
  destruct (Z.ltb_spec (2 ^ (d - 1)) (n mod 2 ^ d)); [lia|].
  destruct (Z.eqb_spec (n mod 2 ^ d) (2 ^ (d - 1))); [lia | reflexivity].
Qed.

(** From the middle of the interval on, an odd quotient is rounded up. *)
Lemma round_up_odd (n d : Z) (sticky : bool) :
  2 ^ (d - 1) <= n mod 2 ^ d -> Z.odd (n / 2 ^ d) = true ->
  round_nearest_even n d sticky = n / 2 ^ d + 1.
Proof.
  intros H Ho. unfold round_nearest_even; cbv zeta. rewrite Ho, orb_true_r.
  destruct (Z.ltb_spec (2 ^ (d - 1)) (n mod 2 ^ d)); [reflexivity|].
  destruct (Z.eqb_spec (n mod 2 ^ d) (2 ^ (d - 1))); [reflexivity | lia].
Qed.

(** Rounding goes up, or the remainder is at most half a step. *)
Lemma round_nearest (n d : Z) (sticky : bool) :
  round_nearest_even n d sticky = n / 2 ^ d + 1 \/
  (round_nearest_even n d sticky = n / 2 ^ d /\ n mod 2 ^ d <= 2 ^ (d - 1)).
Proof.
  unfold round_nearest_even; cbv zeta.
  destruct (Z.ltb_spec (2 ^ (d - 1)) (n mod 2 ^ d)); simpl; [auto|].
  destruct (_ && _); auto.
Qed.

(** From half a step on, a number that is not exact is rounded up. *)
Lemma round_up_sticky (n d : Z) :
  2 ^ (d - 1) <= n mod 2 ^ d ->
  round_nearest_even n d true = n / 2 ^ d + 1.
Proof.
  intros H. unfold round_nearest_even; cbv zeta.
  destruct (Z.ltb_spec (2 ^ (d - 1)) (n mod 2 ^ d)); [reflexivity|].
  destruct (Z.eqb_spec (n mod 2 ^ d) (2 ^ (d - 1))); [reflexivity | lia].
Qed.

(** Above half a step every number is rounded up. *)
Lemma round_up_above (n d : Z) (sticky : bool) :
  2 ^ (d - 1) < n mod 2 ^ d ->
  round_nearest_even n d sticky = n / 2 ^ d + 1.
Proof.
  intros H. unfold round_nearest_even; cbv zeta.
  destruct (Z.ltb_spec (2 ^ (d - 1)) (n mod 2 ^ d)); [reflexivity | lia].
Qed.

(** A rounding step is two half steps. *)
Lemma half_step (d : Z) : 0 < d -> 0 < 2 ^ (d - 1) /\ 2 ^ d = 2 * 2 ^ (d - 1).
Proof.
  intros Hd. split; [apply Z.pow_pos_nonneg; lia|].
  rewrite <- Z.pow_succ_r by lia. f_equal. lia.
Qed.

(** A number in the upper half of the step below [P] is rounded to [P],
    provided that it is not an exact tie. *)
Lemma rounds_to_multiple (T d P : Z) (sticky : bool) :
  0 < d -> (P - 1) * 2 ^ d + 2 ^ (d - 1) <= T < P * 2 ^ d ->
  (T mod 2 ^ d = 2 ^ (d - 1) -> sticky = true) ->
  round_nearest_even T d sticky = P.
Proof.
  intros Hd HT Hs.
  destruct (half_step d Hd) as [Hh HD].
  assert (Hq : T / 2 ^ d = P - 1).
  { symmetry. apply Z.div_unique with (r := T - (P - 1) * 2 ^ d); lia. }
  pose proof (Z.div_mod T (2 ^ d) ltac:(lia)) as Hqr. rewrite Hq in Hqr.
  destruct (Z.eq_dec (T mod 2 ^ d) (2 ^ (d - 1))) as [E|E].
  - rewrite (Hs E), round_up_sticky by lia. lia.
  - rewrite round_up_above by lia. lia.
Qed.

(** Strictly below the middle of the step under [P], rounding stays
    below [P]. *)
Lemma round_below (T d P : Z) (sticky : bool) :
  0 < d -> T < (P - 1) * 2 ^ d + 2 ^ (d - 1) ->
  round_nearest_even T d sticky <= P - 1.
Proof.
  intros Hd HT. destruct (half_step d Hd) as [Hh HD].
  pose proof (Z.div_mod T (2 ^ d) ltac:(lia)) as Hqr.
  pose proof (Z.mod_pos_bound T (2 ^ d) ltac:(lia)) as Hr.
  destruct (round_nearest_even_cases T d sticky) as [-> | [-> Hup]]; nia.
Qed.

(** A number more than half a step below [c] steps. *)
Lemma below_half_step (h q r c n : Z) :
  0 < h -> n = 2 * h * q + r -> 0 <= r < 2 * h ->
  q + 2 <= c \/ (q + 1 <= c /\ r < h) -> n < c * (2 * h) - h.
Proof.
  intros Hh -> Hr [H | [H Hlow]].
  - assert (2 * h * (q + 2) <= 2 * h * c)
      by (apply Z.mul_le_mono_nonneg_l; lia). lia.
  - assert (2 * h * (q + 1) <= 2 * h * c)
      by (apply Z.mul_le_mono_nonneg_l; lia). lia.
Qed.

(** Rounding reaches an even integer [c] exactly from half a step below
    it: ties go to the even neighbour. *)
Lemma round_reaches_even (n d c : Z) :
  0 < d -> n / 2 ^ d < c -> Z.even c = true ->
  (c <= round_nearest_even n d false <-> c * 2 ^ d - 2 ^ (d - 1) <= n).
Proof.
  intros Hd Hq Hc. apply Z.even_spec in Hc. destruct Hc as [j Hj].
  destruct (half_step d Hd) as [Hh HD].
  assert (Hqr : n = 2 * 2 ^ (d - 1) * (n / 2 ^ d) + n mod 2 ^ d)
    by (rewrite <- HD; apply Z.div_mod; lia).
  assert (Hr : 0 <= n mod 2 ^ d < 2 * 2 ^ (d - 1))
    by (rewrite <- HD; apply Z.mod_pos_bound; lia).
  pose proof (below_half_step _ _ _ c n Hh Hqr Hr) as Hbelow.
  replace (c * 2 ^ d) with (c * (2 * 2 ^ (d - 1)))
    by (rewrite <- HD; reflexivity).
  destruct (Z_lt_le_dec (n mod 2 ^ d) (2 ^ (d - 1))) as [Hlow|Hhigh].
  - rewrite round_down by assumption. lia.
  - destruct (Z.odd (n / 2 ^ d)) eqn:Ho.
    + rewrite round_up_odd by assumption.
      destruct (Z.eq_dec (n / 2 ^ d + 1) c) as [E|E]; [|lia].
      rewrite <- E in *. split; [intros _ | lia]. lia.
    + assert (He : Z.even (n / 2 ^ d) = true)
        by (rewrite <- Z.negb_odd, Ho; reflexivity).
      apply Z.even_spec in He. destruct He as [i Hi].
      destruct (round_nearest_even_cases n d false) as [-> | [-> _]]; lia.
Qed.

(** ** The conversion *)

(** The conversion to a double has a relative error of at most 2^-52. *)
Lemma double_of_nat_error (N : Z) :
  0 < N ->
  2 ^ 52 * (N - double_of_nat N) <= N /\ 2 ^ 52 * (double_of_nat N - N) <= N.
Proof.
  intros HN. unfold double_of_nat.
  destruct (Z.leb_spec (Z.log2 N - 52) 0) as [|Hd]; [lia|].
  destruct (log2_step N HN ltac:(lia)) as [HD [HL _]].
  pose proof (round_scaled N (Z.log2 N - 52) false ltac:(lia)) as [_ HR].
  set (D := 2 ^ (Z.log2 N - 52)) in *. set (c := 2 ^ 52) in *.
  assert (0 < c) by (unfold c; lia). nia.
Qed.

(** The conversion to a double is within half a unit in the last place. *)
Lemma double_of_nat_half_ulp (N : Z) :
  0 < N -> 2 ^ 53 * (N - double_of_nat N) <= N.
Proof.
  intros HN. unfold double_of_nat.
  destruct (Z.leb_spec (Z.log2 N - 52) 0) as [|Hd]; [lia|].
  destruct (log2_step N HN ltac:(lia)) as [HD [HL _]].
  set (d := Z.log2 N - 52) in *.
  destruct (half_step d Hd) as [_ HDh].
  pose proof (Z.div_mod N (2 ^ d) ltac:(lia)) as Hqr.
  pose proof (Z.mod_pos_bound N (2 ^ d) HD) as Hr.
  change (2 ^ 53) with (2 * 2 ^ 52). set (c := 2 ^ 52) in *.
  assert (0 < c) by (unfold c; lia).
  destruct (round_nearest N d false) as [-> | [-> Hh]]; nia.
Qed.

(** The double of a number of [l + 1] bits is at least [2^l]. *)
Lemma double_of_nat_ge_pow2 (n : Z) :
  0 < n -> 2 ^ Z.log2 n <= double_of_nat n.
Proof.
  intros Hn. pose proof (Z.log2_spec n Hn) as [HL _]. unfold double_of_nat.
  destruct (Z.leb_spec (Z.log2 n - 52) 0) as [|Hd]; [assumption|].
  destruct (log2_step n Hn ltac:(lia)) as [HD [Hlo _]].
  destruct (round_scaled n (Z.log2 n - 52) false ltac:(lia)) as [HR _].
  replace (2 ^ Z.log2 n) with (2 ^ 52 * 2 ^ (Z.log2 n - 52))
    by (rewrite <- Z.pow_add_r by lia; f_equal; lia).
  set (D := 2 ^ (Z.log2 n - 52)) in *.
  assert (2 ^ 52 <= n / D) by (apply Z.div_le_lower_bound; lia).
  apply Z.mul_le_mono_nonneg_r; lia.
Qed.

(** Numbers of exactly 1024 bits are rounded with a step of 2^971; they
    reach 2^1024 from [2^1024 - 2^970] on. *)
Lemma double_of_nat_top (n : Z) :
  2 ^ 1023 <= n < 2 ^ 1024 ->
  (2 ^ 1024 <= double_of_nat n <-> 2 ^ 1024 - 2 ^ 970 <= n).
Proof.
  intros Hn.
  assert (HL : Z.log2 n = 1023) by (apply Z.log2_unique; [lia | exact Hn]).
  unfold double_of_nat. rewrite HL. change (1023 - 52 <=? 0) with false.
  cbv iota. change (1023 - 52) with 971.
  assert (Hq : n / 2 ^ 971 < 2 ^ 53).
  { apply Z.div_lt_upper_bound; [lia|].
    change (2 ^ 971 * 2 ^ 53) with (2 ^ 1024). apply Hn. }
  pose proof (round_reaches_even n 971 (2 ^ 53) ltac:(lia) Hq eq_refl) as HR.
  change (2 ^ 53 * 2 ^ 971) with (2 ^ 1024) in HR.
  change (2 ^ (971 - 1)) with (2 ^ 970) in HR. rewrite <- HR.
  change (2 ^ 1024) with (2 ^ 53 * 2 ^ 971).
  set (R := round_nearest_even n 971 false).
  split; intros H.
  - apply Z.mul_le_mono_pos_r in H; [assumption | lia].
  - apply Z.mul_le_mono_nonneg_r; [lia | assumption].
Qed.

(** The largest finite double is [2^1024 - 2^971]: the integers whose
    double is 2^1024 or more are those from [2^1024 - 2^970] on. *)
Lemma double_of_nat_overflow (n : Z) :
  0 <= n -> (2 ^ 1024 <= double_of_nat n <-> 2 ^ 1024 - 2 ^ 970 <= n).
Proof.
  intros Hn. destruct (Z_lt_le_dec n (2 ^ 1023)) as [Hs|Hl];
    [|destruct (Z_lt_le_dec n (2 ^ 1024)) as [Hs|Hl2]].
  - split; [|lia]. intros H; exfalso.
    destruct (Z.eq_dec n 0) as [->|];
      [change (double_of_nat 0) with 0 in H; lia|].
    destruct (double_of_nat_error n ltac:(lia)) as [_ HF].
    change (2 ^ 1024) with (2 * 2 ^ 1023) in H. set (M := 2 ^ 1023) in *. lia.
  - apply double_of_nat_top. split; assumption.
  - split; intros _; [lia|].
    apply Z.le_trans with (2 ^ Z.log2 n); [|apply double_of_nat_ge_pow2; lia].
    apply Z.pow_le_mono_r; [lia|]. apply Z.log2_le_pow2; lia.
Qed.

(** The sign is put back on the magnitude. *)
Lemma double_of_int_abs (N : Z) :
  Z.abs (Z.sgn N * double_of_nat (Z.abs N)) = double_of_nat (Z.abs N) /\
  (Z.sgn N * double_of_nat (Z.abs N) <? 0) = (N <? 0).
Proof.
  destruct (Z.eq_dec N 0) as [->|HN]; [split; reflexivity|].
  pose proof (double_of_nat_pos (Z.abs N) ltac:(lia)) as HF.
  set (F := double_of_nat (Z.abs N)) in *.
  destruct (Z.ltb_spec N 0).
  - replace (Z.sgn N) with (-1) by lia.
    split; [lia|]. destruct (Z.ltb_spec (-1 * F) 0); [reflexivity | lia].
  - replace (Z.sgn N) with 1 by lia.
    split; [lia|]. destruct (Z.ltb_spec (1 * F) 0); [lia | reflexivity].
Qed.

(** ** The root *)

(** The scaled root of a positive double has at least 65 bits. *)
Lemma scaled_root_large (F : Z) :
  0 < F ->
  2 ^ 64 <= Z.sqrt (F * 2 ^ 128) /\ 64 <= Z.log2 (Z.sqrt (F * 2 ^ 128)).
Proof.
  intros HF. assert (H : 2 ^ 64 <= Z.sqrt (F * 2 ^ 128)).
  { apply Z.sqrt_le_square; [lia | lia |].
    change (2 ^ 128) with (2 ^ 64 * 2 ^ 64). nia. }
  split; [assumption|]. apply Z.log2_le_pow2; lia.
Qed.

(** Every integer up to 2^52 whose square is at most [F] is at most the
    truncated double square root of [F]: rounding is monotone and such
    integers are doubles. *)
Lemma sqrt_double_lower (F p : Z) :
  0 <= p <= 2 ^ 52 -> p * p <= F -> p <= sqrt_double F.
Proof.
  intros Hp HF. unfold sqrt_double.
  destruct (Z.eqb_spec F 0) as [->|HF0]; [nia|]. cbv zeta.
  assert (HFp : 0 < F) by nia.
  destruct (scaled_root_large F HFp) as [HT HL].
  assert (HpT : p * 2 ^ 64 <= Z.sqrt (F * 2 ^ 128)).
  { apply Z.sqrt_le_square; [lia | lia |].
    change (2 ^ 128) with (2 ^ 64 * 2 ^ 64). nia. }
  set (T := Z.sqrt (F * 2 ^ 128)) in *.
  destruct (log2_step T ltac:(lia) ltac:(lia)) as [HD [HTD _]].
  set (d := Z.log2 T - 52) in *.
  destruct (round_scaled T d (negb (T * T =? F * 2 ^ 128)) ltac:(lia))
    as [HR _].
  set (R := round_nearest_even T d _) in *.
  apply Z.div_le_lower_bound; [lia|].
  destruct (Z_le_gt_dec d 64) as [Hd|Hd].
  - assert (Hq : p * 2 ^ (64 - d) <= T / 2 ^ d).
    { apply Z.div_le_lower_bound; [lia|].
      replace (2 ^ d * (p * 2 ^ (64 - d))) with (p * 2 ^ 64); [assumption|].
      replace 64 with (d + (64 - d)) at 1 by lia.
      rewrite Z.pow_add_r by lia. ring. }
    replace (2 ^ 64) with (2 ^ (64 - d) * 2 ^ d)
      by (rewrite <- Z.pow_add_r by lia; f_equal; lia).
    nia.
  - assert (Hq : 2 ^ 52 <= T / 2 ^ d)
      by (apply Z.div_le_lower_bound; lia).
    assert (HD2 : 2 ^ 65 <= 2 ^ d) by (apply Z.pow_le_mono_r; lia).
    set (D := 2 ^ d) in *. change (2 ^ 65) with (2 * 2 ^ 64) in HD2.
    set (B := 2 ^ 64) in *. set (c := 2 ^ 52) in *.
    assert (0 < B) by (unfold B; lia). nia.
Qed.

(** A square that is a multiple of [(2^n)^2] is the square of a multiple
    of [2^n]. *)
Lemma square_root_divides (n : nat) (T F : Z) :
  T * T = F * (2 ^ Z.of_nat n * 2 ^ Z.of_nat n) -> (2 ^ Z.of_nat n | T).
Proof.
  revert T F. induction n as [|n IH]; intros T F H.
  - exists T. simpl. ring.
  - rewrite Nat2Z.inj_succ, Z.pow_succ_r in * by lia.
    assert (He : Z.even T = true).
    { assert (E : Z.even (T * T) = true)
        by (rewrite H, !Z.even_mul, Z.even_2; simpl; now rewrite !orb_true_r).
      rewrite Z.even_mul in E. now destruct (Z.even T). }
    apply Z.even_spec in He. destruct He as [T' ->].
    destruct (IH T' F) as [j ->]; [nia|]. exists j. ring.
Qed.

(** With a relative error of [1/c] on the square, a number [X] beyond the
    next power of two has its root beyond it too. *)
Lemma far_root (c F B X D : Z) :
  2 <= c -> 0 < D -> c * (F * (B * B)) >= (c - 1) * (X * X) ->
  (c + 1) * D <= X -> (c * D) * (c * D) <= F * (B * B).
Proof.
  intros Hc HD HF HX.
  assert (H1 : ((c + 1) * D) * ((c + 1) * D) <= X * X)
    by (apply Z.mul_le_mono_nonneg; nia).
  assert (H2 : (c - 1) * (((c + 1) * D) * ((c + 1) * D)) <= (c - 1) * (X * X))
    by (apply Z.mul_le_mono_nonneg_l; lia).
  assert (H3 : c * (c * D * (c * D)) <= (c - 1) * (((c + 1) * D) * ((c + 1) * D))).
  { replace (c * (c * D * (c * D))) with ((c * c * c) * (D * D)) by ring.
    replace ((c - 1) * (((c + 1) * D) * ((c + 1) * D)))
      with (((c - 1) * (c + 1) * (c + 1)) * (D * D)) by ring.
    apply Z.mul_le_mono_nonneg_r; nia. }
  apply (Z.mul_le_mono_pos_l _ _ c); lia.
Qed.

(** With the same error, a number [X = 2 * P * h] of at most [c - 1] steps
    has its root within half a step [h]. *)
Lemma near_root (c F B X h P : Z) :
  0 < h -> c <= 4 * P -> 0 < P <= c - 1 -> X = 2 * P * h ->
  c * (F * (B * B)) >= (c - 1) * (X * X) ->
  (X - h) * (X - h) <= F * (B * B).
Proof.
  intros Hh Hc HP -> HF.
  assert (H1 : c * ((2 * P - 1) * (2 * P - 1)) <= (c - 1) * (4 * (P * P))) by nia.
  assert (H2 : c * ((2 * P - 1) * (2 * P - 1)) * (h * h)
               <= (c - 1) * (4 * (P * P)) * (h * h))
    by (apply Z.mul_le_mono_nonneg_r; nia).
  apply (Z.mul_le_mono_pos_l _ _ c); [lia|].
  replace (c * ((2 * P * h - h) * (2 * P * h - h)))
    with (c * ((2 * P - 1) * (2 * P - 1)) * (h * h)) by ring.
  replace ((c - 1) * (2 * P * h * (2 * P * h)))
    with ((c - 1) * (4 * (P * P)) * (h * h)) in HF by ring.
  lia.
Qed.

(** The scale of the root, split at a rounding step. *)
Lemma scale_split (d : Z) : 0 <= d <= 64 -> 2 ^ 64 = 2 ^ (64 - d) * 2 ^ d.
Proof. intros Hd. rewrite <- Z.pow_add_r by lia. f_equal. lia. Qed.

(** The scaled root is the largest number whose square fits. *)
Lemma root_le (F x : Z) :
  0 <= F -> 0 <= x -> x * x <= F * (2 ^ 64 * 2 ^ 64) ->
  x <= Z.sqrt (F * 2 ^ 128).
Proof. intros HF Hx H. apply Z.sqrt_le_square; [lia | lia | exact H]. Qed.

(** The square root of a double [F] that lies within half a unit in the
    last place below [p * p], when its scaled root [T] is still below
    [p * 2^64]: the root is rounded up to [p]. *)
Section SquareRootRounding.

Variables F p d : Z.
Let T := Z.sqrt (F * 2 ^ 128).
Let P := p * 2 ^ (64 - d).

Hypothesis HF : 0 < F.
Hypothesis Hp : 0 < p <= 2 ^ 52.
Hypothesis Herr : 2 ^ 53 * F >= (2 ^ 53 - 1) * (p * p).
Hypothesis Hpow : forall j, 0 <= j -> 2 ^ j <= p * p -> 2 ^ j <= F.
Hypothesis Hd : 12 <= d <= 64.
Hypothesis HT : 2 ^ 52 * 2 ^ d <= T < 2 ^ 53 * 2 ^ d.
Hypothesis HX : T < p * 2 ^ 64.

Lemma scaled_error :
  2 ^ 53 * (F * (2 ^ 64 * 2 ^ 64)) >=
  (2 ^ 53 - 1) * ((P * 2 ^ d) * (P * 2 ^ d)).
Proof.
  unfold P.
  replace (p * 2 ^ (64 - d) * 2 ^ d) with (p * 2 ^ 64)
    by (rewrite (scale_split d) at 1 by lia; ring).
  set (B := 2 ^ 64). assert (0 < B * B) by (unfold B; lia).
  replace (p * B * (p * B)) with (p * p * (B * B)) by ring.
  rewrite !Z.mul_assoc. apply Z.le_ge, Z.mul_le_mono_nonneg_r; lia.
Qed.

Lemma steps_above : 2 ^ 52 < P.
Proof.
  destruct (half_step d ltac:(lia)) as [Hh HD]. unfold P. rewrite (scale_split d) in HX by lia.
  rewrite Z.mul_assoc in HX. nia.
Qed.

Lemma steps_below : P <= 2 ^ 53 - 1.
Proof.
  destruct (half_step d ltac:(lia)) as [Hh HD].
  destruct (Z_le_gt_dec P (2 ^ 53 - 1)) as [|HP]; [assumption | exfalso].
  destruct (Z.eq_dec P (2 ^ 53)) as [E|E].
  - assert (Ep : p = 2 ^ (d - 11)).
    { apply (Z.mul_cancel_r _ _ (2 ^ (64 - d))); [lia|]. fold P. rewrite E.
      rewrite <- Z.pow_add_r by lia. f_equal. lia. }
    pose proof (Hpow (2 * (d - 11)) ltac:(lia)) as H.
    replace (2 * (d - 11)) with ((d - 11) + (d - 11)) in H by lia.
    rewrite Z.pow_add_r, <- Ep in H by lia. specialize (H ltac:(lia)).
    pose proof (root_le F (p * 2 ^ 64) ltac:(lia) ltac:(lia)) as HR.
    assert (0 < 2 ^ 64 * 2 ^ 64) by lia. nia.
  - pose proof (far_root (2 ^ 53) F (2 ^ 64) (P * 2 ^ d) (2 ^ d)
                  ltac:(lia) ltac:(lia) scaled_error ltac:(nia)) as H.
    apply root_le in H; fold T in H; lia.
Qed.

Lemma root_near : (P - 1) * 2 ^ d + 2 ^ (d - 1) <= T.
Proof.
  destruct (half_step d ltac:(lia)) as [Hh HD]. pose proof steps_above as Ha. pose proof steps_below as Hb.
  pose proof (near_root (2 ^ 53) F (2 ^ 64) (P * 2 ^ d) (2 ^ (d - 1)) P
                ltac:(lia) ltac:(lia) ltac:(lia) ltac:(lia) scaled_error) as H.
  apply root_le in H; fold T in H; nia.
Qed.

Lemma root_not_tie :
  T mod 2 ^ d = 2 ^ (d - 1) -> negb (T * T =? F * 2 ^ 128) = true.
Proof.
  intros Hm. destruct (half_step d ltac:(lia)) as [Hh HD].
  destruct (Z.eqb_spec (T * T) (F * 2 ^ 128)) as [E|]; [exfalso | reflexivity].
  destruct (square_root_divides 64 T F E) as [j Hj].
  change (2 ^ Z.of_nat 64) with (2 ^ 64) in Hj.
  rewrite (scale_split d), Z.mul_assoc in Hj by lia.
  rewrite Hj, Z.mod_mul in Hm; lia.
Qed.

Lemma root_rounds_up :
  round_nearest_even T d (negb (T * T =? F * 2 ^ 128)) = P.
Proof.
  apply rounds_to_multiple; [lia | | exact root_not_tie].
  split; [exact root_near|]. unfold P.
  rewrite <- Z.mul_assoc, <- scale_split by lia. exact HX.
Qed.

End SquareRootRounding.

(** Every integer [p] up to 2^52 is at most the truncated double square
    root of a double [F] that is within half a unit in the last place of a
    number from [p * p] on. *)
Lemma sqrt_double_square (F p : Z) :
  0 <= p <= 2 ^ 52 -> 2 ^ 53 * F >= (2 ^ 53 - 1) * (p * p) ->
  (forall j, 0 <= j -> 2 ^ j <= p * p -> 2 ^ j <= F) ->
  p <= sqrt_double F.
Proof.
  intros Hp Herr Hpow.
  destruct (Z_le_gt_dec (p * p) F) as [|Hlt]; [now apply sqrt_double_lower|].
  assert (HF : 0 < F).
  { pose proof (Hpow 0 ltac:(lia)) as H0. change (2 ^ 0) with 1 in H0.
    assert (0 <= p * p) by nia. lia. }
  destruct (scaled_root_large F HF) as [HT HL].
  assert (HX : Z.sqrt (F * 2 ^ 128) < p * 2 ^ 64).
  { apply Z.sqrt_lt_square; [lia | lia |].
    change (2 ^ 128) with (2 ^ 64 * 2 ^ 64). nia. }
  destruct (log2_step (Z.sqrt (F * 2 ^ 128)) ltac:(lia) ltac:(lia))
    as [HD HTD].
  unfold sqrt_double. destruct (Z.eqb_spec F 0); [lia|]. cbv zeta.
  set (d := Z.log2 (Z.sqrt (F * 2 ^ 128)) - 52) in *.
  assert (Hd0 : 12 <= d) by (unfold d; lia).
  destruct (Z_le_gt_dec d 64) as [Hd|Hd].
  - rewrite (root_rounds_up F p d HF ltac:(nia) Herr Hpow ltac:(lia) HTD HX).
    rewrite <- Z.mul_assoc, <- (scale_split d) by lia.
    rewrite Z.div_mul; lia.
  - assert (HD2 : 2 ^ 65 <= 2 ^ d) by (apply Z.pow_le_mono_r; lia).
    change (2 ^ 65) with (2 * 2 ^ 64) in HD2. nia.
Qed.

(** The root of a double in [[2^52, 2^52 + 2^27)] lies more than half a
    step (of 2^-26) below [2^26 + 1]: it is not rounded up to it. *)
Lemma sqrt_double_first_binade (F : Z) :
  2 ^ 52 <= F < 2 ^ 52 + 2 ^ 27 -> sqrt_double F <= 2 ^ 26.
Proof.
  intros HF. unfold sqrt_double. destruct (Z.eqb_spec F 0); [lia|]. cbv zeta.
  assert (HT : 2 ^ 90 <= Z.sqrt (F * 2 ^ 128) < 2 ^ 90 + 2 ^ 64 - 2 ^ 37)
    by (split; [apply Z.sqrt_le_square | apply Z.sqrt_lt_square]; lia).
  set (T := Z.sqrt (F * 2 ^ 128)) in *.
  assert (HL : Z.log2 T = 90) by (apply Z.log2_unique; lia).
  rewrite HL. change (90 - 52) with 38.
  pose proof (round_below T 38 ((2 ^ 26 + 1) * 2 ^ 26)
                (negb (T * T =? F * 2 ^ 128)) ltac:(lia) ltac:(lia)) as HR.
  apply Z.lt_succ_r, Z.div_lt_upper_bound; lia.
Qed.

(** Squares compare as their roots do, scaled. *)
Lemma scaled_square_le (c k B T F : Z) :
  0 < B -> 0 <= k -> 0 <= c -> c * (B * k) <= (c + 1) * T ->
  T * T <= F * (B * B) ->
  c * c * (k * k) <= (c + 1) * (c + 1) * F.
Proof.
  intros HB Hk Hc H1 HT.
  assert (H2 : (c * (B * k)) * (c * (B * k)) <= ((c + 1) * T) * ((c + 1) * T))
    by (apply Z.mul_le_mono_nonneg; nia).
  apply (Z.mul_le_mono_pos_l _ _ (B * B)); [nia|].
  replace (B * B * (c * c * (k * k))) with (c * (B * k) * (c * (B * k))) by ring.
  replace (B * B * ((c + 1) * (c + 1) * F))
    with ((c + 1) * (c + 1) * (F * (B * B))) by ring.
  etransitivity; [exact H2|].
  replace ((c + 1) * T * ((c + 1) * T)) with ((c + 1) * (c + 1) * (T * T)) by ring.
  apply Z.mul_le_mono_nonneg_l; [nia | assumption].
Qed.

(** The truncated double square root exceeds the real one by a relative
    error of at most 2^-52. *)
Lemma sqrt_double_upper (F : Z) :
  0 <= F ->
  0 <= sqrt_double F /\
  2 ^ 104 * (sqrt_double F * sqrt_double F) <= (2 ^ 52 + 1) * (2 ^ 52 + 1) * F.
Proof.
  intros HF. unfold sqrt_double.
  destruct (Z.eqb_spec F 0) as [->|HF0]; [lia|]. cbv zeta.
  destruct (scaled_root_large F ltac:(lia)) as [HT HL].
  pose proof (Z.sqrt_spec (F * 2 ^ 128) ltac:(lia)) as [HT2 _].
  set (T := Z.sqrt (F * 2 ^ 128)) in *.
  destruct (log2_step T ltac:(lia) ltac:(lia)) as [HD [HTD _]].
  set (d := Z.log2 T - 52) in *.
  destruct (round_scaled T d (negb (T * T =? F * 2 ^ 128)) ltac:(lia))
    as [HR0 [HR1 HR2]].
  set (R := round_nearest_even T d _) in *. set (D := 2 ^ d) in *.
  pose proof (Z.mul_div_le (R * D) (2 ^ 64) ltac:(lia)) as Hk.
  assert (Hk0 : 0 <= R * D / 2 ^ 64) by (apply Z.div_pos; nia).
  split; [assumption|].
  change (2 ^ 128) with (2 ^ 64 * 2 ^ 64) in HT2.
  change (2 ^ 104) with (2 ^ 52 * 2 ^ 52).
  apply (scaled_square_le _ _ (2 ^ 64) T); lia.
Qed.

(** ** [int(math.sqrt(N))] for every argument *)

(** The three ways the expression of line 79 ends. *)
Lemma math_sqrt_int_cases (N : Z) :
  math_sqrt_int N =
  if 2 ^ 1024 - 2 ^ 970 <=? Z.abs N then Raise OverflowError
  else if N <? 0 then Raise ValueError
  else Ok (sqrt_double (double_of_nat N)).
Proof.
  unfold math_sqrt_int, double_of_int.
  destruct (double_of_int_abs N) as [Ha Hs]. rewrite Ha.
  pose proof (double_of_nat_overflow (Z.abs N) (Z.abs_nonneg N)) as Hov.
  destruct (Z.leb_spec (2 ^ 1024) (double_of_nat (Z.abs N))) as [H|H];
    destruct (Z.leb_spec (2 ^ 1024 - 2 ^ 970) (Z.abs N)) as [H'|H'];
    try reflexivity; try (exfalso; lia).
  cbn [bind]. rewrite Hs. destruct (Z.ltb_spec N 0) as [|HN]; [reflexivity|].
  rewrite (Z.abs_eq N) by assumption.
  destruct (Z.eq_dec N 0) as [->|]; [reflexivity|].
  replace (Z.sgn N) with 1 by lia. now rewrite Z.mul_1_l.
Qed.

(** A result means a non-negative argument. *)
Lemma math_sqrt_int_Ok (N k : Z) :
  math_sqrt_int N = Ok k -> 0 <= N /\ k = sqrt_double (double_of_nat N).
Proof.
  rewrite math_sqrt_int_cases.
  destruct (2 ^ 1024 - 2 ^ 970 <=? Z.abs N); [discriminate|].
  destruct (Z.ltb_spec N 0); [discriminate|]. intros [= <-]. auto.
Qed.

(** Below 2^1023 the conversion does not overflow. *)
Lemma math_sqrt_int_total (N : Z) :
  0 <= N < 2 ^ 1023 -> math_sqrt_int N = Ok (sqrt_double (double_of_nat N)).
Proof.
  intros HN. rewrite math_sqrt_int_cases.
  destruct (Z.leb_spec (2 ^ 1024 - 2 ^ 970) (Z.abs N)); [lia|].
  destruct (Z.ltb_spec N 0); [lia | reflexivity].
Qed.

(** No integer [p <= 2^52] with [p * p <= N] is above the bound of the
    loop: up to 2^104 the bound is never below the integer square root. *)
Lemma math_sqrt_int_lower (N k p : Z) :
  math_sqrt_int N = Ok k -> 0 <= p <= 2 ^ 52 -> p * p <= N -> p <= k.
Proof.
  intros H Hp HN. apply math_sqrt_int_Ok in H. destruct H as [HN0 ->].
  destruct (Z.eq_dec N 0) as [->|HN1];
    [change (sqrt_double (double_of_nat 0)) with 0; nia|].
  pose proof (double_of_nat_half_ulp N ltac:(lia)) as Hu.
  pose proof (double_of_nat_ge_pow2 N ltac:(lia)) as Hl.
  apply sqrt_double_square; [assumption | nia |].
  intros j Hj Hjp. apply Z.le_trans with (2 ^ Z.log2 N); [|assumption].
  apply Z.pow_le_mono_r; [lia|]. apply Z.log2_le_pow2; lia.
Qed.

(** The bound of the loop exceeds the real root by a relative error of at
    most [(1 + 2^-52)^(3/2)]. *)
Lemma math_sqrt_int_upper (N k : Z) :
  math_sqrt_int N = Ok k ->
  0 <= k /\
  2 ^ 156 * (k * k) <= (2 ^ 52 + 1) * (2 ^ 52 + 1) * (2 ^ 52 + 1) * N.
Proof.
  intros H. apply math_sqrt_int_Ok in H. destruct H as [HN0 ->].
  destruct (Z.eq_dec N 0) as [->|HN]; [vm_compute; split; discriminate|].
  pose proof (double_of_nat_pos N ltac:(lia)) as HF0.
  destruct (double_of_nat_error N ltac:(lia)) as [_ HF].
  destruct (sqrt_double_upper (double_of_nat N) ltac:(lia)) as [Hk0 Hk].
  split; [assumption|].
  set (F := double_of_nat N) in *. set (k := sqrt_double F) in *.
  change (2 ^ 156) with (2 ^ 52 * 2 ^ 104). set (c := 2 ^ 52) in *.
  set (C := 2 ^ 104) in *.
  assert (0 < c) by (unfold c; lia).
  assert (H1 : c * (C * (k * k)) <= c * ((c + 1) * (c + 1) * F))
    by (apply Z.mul_le_mono_nonneg_l; lia).
  assert (H2 : (c + 1) * (c + 1) * (c * F) <= (c + 1) * (c + 1) * ((c + 1) * N))
    by (apply Z.mul_le_mono_nonneg_l; nia).
  lia.
Qed.

(** With a relative error of [(1 + 1/c)^3] on the square, a root [t] with
    [2 * t <= c] is exceeded by less than one. *)
Lemma cube_ratio (c t : Z) :
  4 <= c -> 0 < t -> 2 * t <= c ->
  (c + 1) * (c + 1) * (c + 1) * (t * t) <= c * c * c * ((t + 1) * (t + 1)).
Proof.
  intros Hc Ht Htc.
  assert (H1 : c * c * (2 * t) <= c * c * c)
    by (apply Z.mul_le_mono_nonneg_l; nia).
  assert (H2 : c * (2 * t) <= c * c) by (apply Z.mul_le_mono_nonneg_l; nia).
  assert (Ha : (3 * c * c + 3 * c + 1) * t <= 2 * (c * c * c)) by nia.
  assert (Hb : (3 * c * c + 3 * c + 1) * t * t <= 2 * (c * c * c) * t)
    by (apply Z.mul_le_mono_nonneg_r; lia).
  nia.
Qed.

(** The bound of the loop is below [N] itself. *)
Lemma math_sqrt_int_lt (N k : Z) :
  math_sqrt_int N = Ok k -> 2 <= N -> k < N.
Proof.
  intros H HN. destruct (Z_lt_le_dec N (2 ^ 52)) as [Hs|Hl].
  - rewrite math_sqrt_int_exact in H by lia. injection H as <-.
    apply Z.sqrt_lt_lin; lia.
  - destruct (math_sqrt_int_upper N k H) as [Hk0 Hk].
    destruct (Z_lt_le_dec k N) as [|Hge]; [assumption|exfalso].
    change (2 ^ 156) with (2 ^ 52 * 2 ^ 52 * 2 ^ 52) in Hk.
    set (c := 2 ^ 52) in *. assert (Hc : 4 <= c) by (unfold c; lia).
    assert (H1 : N * N <= k * k) by (apply Z.mul_le_mono_nonneg; lia).
    assert (H2 : c * c * c * (N * N) <= c * c * c * (k * k))
      by (apply Z.mul_le_mono_nonneg_l; nia).
    assert (H3 : (c + 1) * (c + 1) * (c + 1) < c * c * c * 2) by nia.
    assert (H4 : c * c * c * (2 * N) <= c * c * c * (N * N))
      by (apply Z.mul_le_mono_nonneg_l; nia).
    assert (H5 : (c + 1) * (c + 1) * (c + 1) * N < c * c * c * 2 * N)
      by (apply Z.mul_lt_mono_pos_r; lia).
    lia.
Qed.

(** ** Properties *)

(** Claim C23. For [0 <= N < 2^102], [int(math.sqrt(N))] does not raise and
    is the integer square root of [N] or its successor. *)
Theorem math_sqrt_int_off_by_one (N : Z) :
  0 <= N < 2 ^ 102 ->
  exists k, math_sqrt_int N = Ok k /\ Z.sqrt N <= k <= Z.sqrt N + 1.
Proof.
  intros HN. eexists. split; [apply math_sqrt_int_total; lia|].
  pose proof (math_sqrt_int_total N ltac:(lia)) as Hk.
  set (k := sqrt_double (double_of_nat N)) in *.
  pose proof (Z.sqrt_spec N ltac:(lia)) as Hs; cbv zeta in Hs.
  pose proof (Z.sqrt_nonneg N) as Hs0.
  assert (Hs51 : Z.sqrt N < 2 ^ 51)
    by (apply Z.sqrt_lt_square; [lia | lia | exact (proj2 HN)]).
  destruct (math_sqrt_int_upper N k Hk) as [Hk0 Hup].
  set (s := Z.sqrt N) in *. split.
  - apply (math_sqrt_int_lower N k s Hk); lia.
  - destruct (Z_le_gt_dec k (s + 1)) as [|Hgt]; [assumption|exfalso].
    change (2 ^ 156) with (2 ^ 52 * 2 ^ 52 * 2 ^ 52) in Hup.
    change (2 ^ 51) with (2 ^ 52 / 2) in Hs51.
    pose proof (cube_ratio (2 ^ 52) (s + 1) ltac:(lia) ltac:(lia) ltac:(lia))
      as Hr.
    set (c := 2 ^ 52) in *. assert (Hc : 4 <= c) by (unfold c; lia).
    assert (H1 : (s + 2) * (s + 2) <= k * k)
      by (apply Z.mul_le_mono_nonneg; lia).
    assert (H2 : c * c * c * ((s + 2) * (s + 2)) <= c * c * c * (k * k))
      by (apply Z.mul_le_mono_nonneg_l; nia).
    assert (H3 : (c + 1) * (c + 1) * (c + 1) * N
                 < (c + 1) * (c + 1) * (c + 1) * ((s + 1) * (s + 1)))
      by (apply Z.mul_lt_mono_pos_l; nia).
    replace (s + 1 + 1) with (s + 2) in Hr by ring. lia.
Qed.

Lemma math_sqrt_int_off_by_one_witness :
  exists k, math_sqrt_int (2 ^ 52 + 2 ^ 27) = Ok k /\
            Z.sqrt (2 ^ 52 + 2 ^ 27) <= k <= Z.sqrt (2 ^ 52 + 2 ^ 27) + 1.
Proof. apply (math_sqrt_int_off_by_one (2 ^ 52 + 2 ^ 27)). lia. Defined.

(** Claim C22. The first argument on which [int(math.sqrt(N))] is not the
    integer square root is [2^52 + 2^27]: below it the result is
    [Z.sqrt N], the double root lying more than half a unit in the last
    place below the next integer, and at [2^52 + 2^27] the root is rounded
    up to [2^26 + 1], one more than the integer square root. *)
Theorem math_sqrt_int_first_inexact :
  (forall N, 0 <= N < 2 ^ 52 + 2 ^ 27 -> math_sqrt_int N = Ok (Z.sqrt N)) /\
  math_sqrt_int (2 ^ 52 + 2 ^ 27) = Ok (Z.sqrt (2 ^ 52 + 2 ^ 27) + 1).
Proof.
  split; [|vm_compute; reflexivity]. intros N HN.
  destruct (Z_lt_le_dec N (2 ^ 52)); [apply math_sqrt_int_exact; lia|].
  rewrite math_sqrt_int_total, double_of_nat_small by lia. f_equal.
  assert (Hs : Z.sqrt N = 2 ^ 26) by (apply Z.sqrt_unique; lia).
  rewrite Hs. apply Z.le_antisymm; [apply sqrt_double_first_binade; lia|].
  apply sqrt_double_lower; lia.
Qed.

Lemma math_sqrt_int_first_inexact_witness :
  math_sqrt_int (2 ^ 52 + 2 ^ 27 - 1) = Ok (Z.sqrt (2 ^ 52 + 2 ^ 27 - 1)).
Proof. apply (proj1 math_sqrt_int_first_inexact). lia. Defined.

(** Claim C40. [int(math.sqrt(N))] raises [OverflowError] exactly when
    [|N| >= 2^1024 - 2^970] (the integers that round to 2^1024 or more),
    [ValueError] exactly when [N] is negative and below that magnitude,
    and returns otherwise. *)
Theorem math_sqrt_int_raises_iff (N : Z) :
  (math_sqrt_int N = Raise OverflowError <-> 2 ^ 1024 - 2 ^ 970 <= Z.abs N) /\
  (math_sqrt_int N = Raise ValueError <->
   N < 0 /\ Z.abs N < 2 ^ 1024 - 2 ^ 970) /\
  ((exists k, math_sqrt_int N = Ok k) <-> 0 <= N < 2 ^ 1024 - 2 ^ 970).
Proof.
  rewrite math_sqrt_int_cases.
  destruct (Z.leb_spec (2 ^ 1024 - 2 ^ 970) (Z.abs N)) as [H|H];
    [|destruct (Z.ltb_spec N 0) as [HN|HN]].
  all: split; [|split];
    (split;
     [first [discriminate | intros [k Hk]; discriminate | intros _; lia]
     |first [lia | intros; reflexivity | eauto]]).
Qed.
