(* ===== verification/ModArith.v ===== *)
(** * Modular arithmetic: [egcd], [modinv] and the builtin [pow]

    [egcd] and [modinv] are lines 97-107 of [src/shor.py].  [py_pow] is the
    three-argument builtin the script calls on lines 18 and 110, and
    [modexp] the square-and-multiply loop the specification asks for; the
    two agree on non-negative exponents.

    The recursion of [egcd] is on [(b, a % b)].  [egcd_fuel] is the same
    function with a recursion budget, [egcd] gives it [S (Z.abs_nat b)],
    [egcd_unfold] proves the source's equation for all integers and
    [egcd_rect] is the induction principle that follows the calls. *)

From Stdlib Require Import ZArith Znumtheory Zcong List Bool Lia.
From S2P Require Import Prelude.
Import ListNotations.
#[local] Open Scope Z_scope.
#[local] Open Scope py_scope.

(** ** Definitions *)

(** [egcd(a, b)] with a bound on the depth of the recursion. *)
Fixpoint egcd_fuel (fuel : nat) (a b : Z) : Z * Z * Z :=
  match fuel with
  | O => (a, 1, 0)
  | S fuel' =>
      if b =? 0 then (a, 1, 0)
      else
        let '(g, x, y) := egcd_fuel fuel' b (a mod b) in
        (g, y, x - (a / b) * y)
  end.

(** [egcd(a, b)]: the triple [(g, x, y)] of the extended Euclidean
    algorithm. *)
Definition egcd (a b : Z) : Z * Z * Z := egcd_fuel (S (Z.abs_nat b)) a b.

(** [modinv(a, n)]: raises [ValueError] when [g != 1], otherwise [x % n]. *)
Definition modinv (a n : Z) : res Z :=
  let '(g, x, _) := egcd a n in
  if negb (g =? 1) then Raise ValueError else py_mod x n.

(** Square and multiply along the binary digits of the exponent. *)
Fixpoint modexp_pos (base : Z) (e : positive) (modulus : Z) : Z :=
  match e with
  | xH => base mod modulus
  | xO e' =>
      let h := modexp_pos base e' modulus in (h * h) mod modulus
  | xI e' =>
      let h := modexp_pos base e' modulus in
      ((h * h) mod modulus * base) mod modulus
  end.

(** [modexp(base, exponent, modulus)] for [exponent >= 0]. *)
Definition modexp (base exponent modulus : Z) : Z :=
  match exponent with
  | Z0 => 1 mod modulus
  | Zpos e => modexp_pos base e modulus
  | Zneg _ => 0
  end.

(** The builtin [pow(base, exp, mod)]: [ValueError] on a zero modulus and
    on a negative exponent of a base that is not invertible; the result has
    the sign of the modulus. *)
Definition py_pow (base exponent modulus : Z) : res Z :=
  if modulus =? 0 then Raise ValueError
  else if exponent <? 0 then
    if Z.gcd base modulus =? 1
    then Ok (Z.invmod base (Z.abs modulus) ^ (- exponent) mod modulus)
    else Raise ValueError
  else Ok (base ^ exponent mod modulus).

(** ** [egcd]: the source's equation and its induction principle *)

(** Any two budgets above the measure give the same triple. *)
Lemma egcd_fuel_enough (f1 f2 : nat) (a b : Z) :
  (Z.abs_nat b < f1)%nat -> (Z.abs_nat b < f2)%nat ->
  egcd_fuel f1 a b = egcd_fuel f2 a b.
Proof.
  revert f2 a b; induction f1 as [|f1 IH]; intros f2 a b H1 H2; [lia|].
  destruct f2 as [|f2]; [lia|]. simpl.
  destruct (Z.eqb_spec b 0) as [|Hb]; [reflexivity|].
  pose proof (mod_abs_lt a b Hb).
  rewrite (IH f2 b (a mod b)) by lia. reflexivity.
Qed.

(** The defining equation of the source, for all integers. *)
Lemma egcd_unfold (a b : Z) :
  egcd a b =
  if b =? 0 then (a, 1, 0)
  else let '(g, x, y) := egcd b (a mod b) in (g, y, x - (a / b) * y).
Proof.
  unfold egcd at 1. simpl.
  destruct (Z.eqb_spec b 0) as [|Hb]; [reflexivity|].
  pose proof (mod_abs_lt a b Hb).
  unfold egcd. rewrite (egcd_fuel_enough (Z.abs_nat b) (S (Z.abs_nat (a mod b))))
    by lia.
  reflexivity.
Qed.

Lemma egcd_0_r (a : Z) : egcd a 0 = (a, 1, 0).
Proof. reflexivity. Qed.

(** ** The depth of the recursion *)

Lemma egcd_fuel_0_r (fuel : nat) (a : Z) : egcd_fuel fuel a 0 = (a, 1, 0).
Proof. destruct fuel; reflexivity. Qed.

(** One more frame for one more call. *)
Lemma egcd_fuel_step (fuel : nat) (a b : Z) :
  egcd_fuel fuel b (a mod b) = egcd b (a mod b) ->
  egcd_fuel (S fuel) a b = egcd a b.
Proof.
  intros H. rewrite egcd_unfold. simpl. now rewrite H.
Qed.

(** Two calls halve the second argument. *)
Lemma mod_mod_half (a b : Z) :
  0 < b -> a mod b <> 0 -> 2 * (b mod (a mod b)) < b.
Proof.
  intros Hb Hr. pose proof (Z.mod_pos_bound a b Hb) as H1.
  pose proof (Z.mod_pos_bound b (a mod b) ltac:(lia)) as H2.
  pose proof (Z.div_mod b (a mod b) Hr) as H3.
  assert (1 <= b / (a mod b)) by (apply Z.div_le_lower_bound; lia).
  nia.
Qed.

(** A budget of two frames per bit of [b], and two more, is enough. *)
Lemma egcd_fuel_log (k : nat) (a b : Z) (fuel : nat) :
  0 < b < 2 ^ (Z.of_nat k + 1) -> (2 * k + 2 <= fuel)%nat ->
  egcd_fuel fuel a b = egcd a b.
Proof.
  revert a b fuel. induction k as [|k IH]; intros a b fuel Hb Hf;
    (destruct fuel as [|[|fuel]]; [lia | lia |]);
    apply egcd_fuel_step;
    (destruct (Z.eq_dec (a mod b) 0) as [->|Hr]; [reflexivity|]);
    apply egcd_fuel_step;
    (destruct (Z.eq_dec (b mod (a mod b)) 0) as [->|Hs];
       [apply egcd_fuel_0_r|]);
    pose proof (mod_mod_half a b ltac:(lia) Hr) as Hh;
    pose proof (Z.mod_pos_bound a b ltac:(lia));
    pose proof (Z.mod_pos_bound b (a mod b) ltac:(lia)).
  - simpl in Hb. lia.
  - apply IH; [|lia]. split; [lia|].
    replace (Z.of_nat (S k) + 1) with (Z.succ (Z.of_nat k + 1)) in Hb by lia.
    rewrite Z.pow_succ_r in Hb by lia. lia.
Qed.

Lemma egcd_step (a b g x y : Z) :
  b <> 0 -> egcd b (a mod b) = (g, x, y) ->
  egcd a b = (g, y, x - (a / b) * y).
Proof.
  intros Hb E. rewrite egcd_unfold, E.
  apply Z.eqb_neq in Hb. rewrite Hb. reflexivity.
Qed.

(** Induction along the recursive calls of [egcd]. *)
Lemma egcd_rect (P : Z -> Z -> Z * Z * Z -> Prop) :
  (forall a, P a 0 (a, 1, 0)) ->
  (forall a b g x y, b <> 0 -> egcd b (a mod b) = (g, x, y) ->
     P b (a mod b) (g, x, y) -> P a b (g, y, x - (a / b) * y)) ->
  forall a b, P a b (egcd a b).
Proof.
  intros H0 Hstep a b. remember (Z.abs_nat b) as n eqn:En.
  revert a b En. induction n as [n IH] using lt_wf_ind. intros a b En.
  destruct (Z.eq_dec b 0) as [->|Hb]; [apply H0|].
  pose proof (mod_abs_lt a b Hb) as Hlt.
  destruct (egcd b (a mod b)) as [[g x] y] eqn:E.
  rewrite (egcd_step a b g x y Hb E). apply Hstep; auto.
  rewrite <- E. apply (IH (Z.abs_nat (a mod b))); [lia | reflexivity].
Qed.

(** ** [modexp] against exponentiation *)

Lemma sq_mod (a m : Z) : (a mod m * (a mod m)) mod m = (a * a) mod m.
Proof. symmetry. apply Zmult_mod. Qed.

Lemma modexp_pos_spec (base : Z) (e : positive) (modulus : Z) :
  modexp_pos base e modulus = base ^ Zpos e mod modulus.
Proof.
  induction e as [e IH | e IH |]; simpl modexp_pos.
  - rewrite IH, sq_mod, Zmult_mod_idemp_l, Pos2Z.inj_xI, Z.pow_add_r,
      Z.pow_twice_r, Z.pow_1_r by lia.
    reflexivity.
  - rewrite IH, sq_mod, Pos2Z.inj_xO, Z.pow_twice_r. reflexivity.
  - rewrite Z.pow_1_r. reflexivity.
Qed.

Lemma modexp_spec (base exponent modulus : Z) :
  0 <= exponent -> modexp base exponent modulus = base ^ exponent mod modulus.
Proof.
  intros H. destruct exponent as [|e|e]; simpl modexp.
  - reflexivity.
  - apply modexp_pos_spec.
  - lia.
Qed.

(** ** [py_pow] *)

Lemma py_pow_nonneg (base exponent modulus : Z) :
  modulus <> 0 -> 0 <= exponent ->
  py_pow base exponent modulus = Ok (base ^ exponent mod modulus).
Proof.
  intros Hm He. unfold py_pow.
  destruct (Z.eqb_spec modulus 0); [contradiction|].
  destruct (Z.ltb_spec exponent 0); [lia | reflexivity].
Qed.

Lemma py_pow_modexp (base exponent modulus : Z) :
  modulus <> 0 -> 0 <= exponent ->
  py_pow base exponent modulus = Ok (modexp base exponent modulus).
Proof. intros. rewrite modexp_spec by assumption. now apply py_pow_nonneg. Qed.

(** The builtin raises on a zero modulus and on a negative exponent of a
    base that has no inverse, and only then. *)
Lemma py_pow_Raise (base exponent modulus : Z) (e : exn) :
  py_pow base exponent modulus = Raise e <->
  e = ValueError /\
  (modulus = 0 \/ (exponent < 0 /\ Z.gcd base modulus <> 1)).
Proof.
  unfold py_pow.
  destruct (Z.eqb_spec modulus 0) as [Hm|Hm];
    [|destruct (Z.ltb_spec exponent 0) as [He|He];
      [destruct (Z.eqb_spec (Z.gcd base modulus) 1) as [Hg|Hg]|]];
    (split; [intros H; inv_res; auto | intros [-> H]; try reflexivity; lia]).
Qed.

Lemma py_pow_range (base exponent modulus r : Z) :
  0 < modulus -> py_pow base exponent modulus = Ok r -> 0 <= r < modulus.
Proof.
  intros Hm. unfold py_pow.
  repeat case_if; intros H; inv_res; apply Z.mod_pos_bound; assumption.
Qed.

(** ** [egcd]: Bezout coefficients and the gcd *)

(** The triple returned by [egcd(a, b)] satisfies [a*x + b*y = g]. *)
Lemma egcd_bezout_let (a b : Z) :
  let '(g, x, y) := egcd a b in a * x + b * y = g.
Proof.
  apply (egcd_rect (fun a b t => let '(g, x, y) := t in a * x + b * y = g)).
  - intros; lia.
  - clear a b; intros a b g x y Hb _ IH.
    pose proof (Z.div_mod a b Hb). nia.
Qed.

Lemma egcd_bezout_eq (a b g x y : Z) :
  egcd a b = (g, x, y) -> a * x + b * y = g.
Proof. intros E. pose proof (egcd_bezout_let a b) as H. now rewrite E in H. Qed.

(** Up to sign, [g] is the greatest common divisor. *)
Lemma egcd_abs_gcd (a b : Z) : Z.abs (fst (fst (egcd a b))) = Z.gcd a b.
Proof.
  apply (egcd_rect (fun a b t => Z.abs (fst (fst t)) = Z.gcd a b)).
  - intros; simpl. now rewrite Z.gcd_0_r.
  - clear a b; intros a b g x y _ _ IH; simpl in *.
    now rewrite IH, Z.gcd_mod_r, Z.gcd_comm.
Qed.

(** The sign of [g] is the sign of [b], or of [a] when [b = 0]. *)
Lemma egcd_sign (a b : Z) :
  let g := fst (fst (egcd a b)) in
  (0 < b \/ (b = 0 /\ 0 <= a) -> 0 <= g) /\
  (b < 0 \/ (b = 0 /\ a <= 0) -> g <= 0).
Proof.
  apply (egcd_rect (fun a b t =>
    (0 < b \/ (b = 0 /\ 0 <= a) -> 0 <= fst (fst t)) /\
    (b < 0 \/ (b = 0 /\ a <= 0) -> fst (fst t) <= 0))).
  - intros; simpl; lia.
  - clear a b; intros a b g x y Hb _ [IHp IHn]; simpl in *. split; intros H.
    + pose proof (Z.mod_pos_bound a b). apply IHp. lia.
    + pose proof (Z.mod_neg_bound a b). apply IHn. lia.
Qed.

(** For a positive second argument [g] is the gcd itself. *)
Lemma egcd_gcd_pos (a b : Z) :
  0 < b -> fst (fst (egcd a b)) = Z.gcd a b.
Proof.
  intros Hb. rewrite <- egcd_abs_gcd.
  destruct (egcd_sign a b) as [Hp _]. symmetry; apply Z.abs_eq, Hp; auto.
Qed.

(** For a negative second argument [g] is the opposite of the gcd. *)
Lemma egcd_gcd_neg (a b : Z) :
  b < 0 -> fst (fst (egcd a b)) = - Z.gcd a b.
Proof.
  intros Hb. rewrite <- egcd_abs_gcd.
  destruct (egcd_sign a b) as [_ Hn]. specialize (Hn (or_introl Hb)). lia.
Qed.

(** ** [modinv] *)

(** [modinv] in terms of the triple of [egcd]. *)
Lemma modinv_unfold (a n g x y : Z) :
  egcd a n = (g, x, y) ->
  modinv a n = if g =? 1 then py_mod x n else Raise ValueError.
Proof. intros E. unfold modinv. rewrite E. now destruct (g =? 1). Qed.

(** A Bezout coefficient of [a] reduced modulo [n] inverts [a]. *)
Lemma bezout_inverse (a n x y : Z) :
  a * x + n * y = 1 -> (a * (x mod n)) mod n = 1 mod n.
Proof.
  intros H. rewrite Zmult_mod_idemp_r.
  replace (a * x) with (1 + (- y) * n) by lia. apply Z_mod_plus_full.
Qed.

(** For a positive modulus and a coprime argument, [modinv] returns the
    inverse in the range [[0, n)]. *)
Lemma modinv_correct (a n : Z) :
  0 < n -> Z.gcd a n = 1 ->
  exists d, modinv a n = Ok d /\ 0 <= d < n /\ (a * d) mod n = 1 mod n.
Proof.
  intros Hn Hg. destruct (egcd a n) as [[g x] y] eqn:E.
  pose proof (egcd_gcd_pos a n Hn) as Hgcd. rewrite E in Hgcd; simpl in Hgcd.
  rewrite Hg in Hgcd; subst g.
  exists (x mod n). rewrite (modinv_unfold _ _ _ _ _ E); simpl.
  rewrite py_mod_ok by lia. repeat split; try (apply Z.mod_pos_bound; lia).
  apply (bezout_inverse a n x y), (egcd_bezout_eq _ _ _ _ _ E).
Qed.

(** For a positive modulus, [modinv] raises [ValueError] exactly when the
    argument and the modulus are not coprime. *)
Lemma modinv_error_iff (a n : Z) :
  0 < n -> (modinv a n = Raise ValueError <-> Z.gcd a n <> 1).
Proof.
  intros Hn. split.
  - intros H Hg. destruct (modinv_correct a n Hn Hg) as [d [Hd _]]. congruence.
  - intros Hg. destruct (egcd a n) as [[g x] y] eqn:E.
    pose proof (egcd_gcd_pos a n Hn) as Hgcd. rewrite E in Hgcd; simpl in Hgcd.
    rewrite (modinv_unfold _ _ _ _ _ E).
    destruct (Z.eqb_spec g 1); [lia | reflexivity].
Qed.

(** Whatever [modinv] returns for a positive modulus is an inverse in
    range. *)
(** For a positive modulus the only exception is the [ValueError] of
    line 106. *)
Lemma modinv_Raise (a n : Z) (e : exn) :
  0 < n -> (modinv a n = Raise e <-> e = ValueError /\ Z.gcd a n <> 1).
Proof.
  intros Hn. split.
  - intros H. destruct (Z.eq_dec (Z.gcd a n) 1) as [Hg|Hg].
    + destruct (modinv_correct a n Hn Hg) as [d [Hd _]]. congruence.
    + pose proof (proj2 (modinv_error_iff a n Hn) Hg). split; congruence.
  - intros [-> Hg]. now apply modinv_error_iff.
Qed.

Lemma modinv_sound (a n d : Z) :
  0 < n -> modinv a n = Ok d ->
  Z.gcd a n = 1 /\ 0 <= d < n /\ (a * d) mod n = 1 mod n.
Proof.
  intros Hn H. destruct (Z.eq_dec (Z.gcd a n) 1) as [Hg|Hg].
  - destruct (modinv_correct a n Hn Hg) as [d' [Hd' Hr]].
    rewrite H in Hd'; inv_res. auto.
  - apply (modinv_error_iff a n Hn) in Hg. congruence.
Qed.

(** Inverses modulo [n] are unique in the range [[0, n)]. *)
Lemma inverse_unique (a n d1 d2 : Z) :
  0 <= d1 < n -> 0 <= d2 < n ->
  (a * d1) mod n = 1 mod n -> (a * d2) mod n = 1 mod n -> d1 = d2.
Proof.
  intros H1 H2 E1 E2.
  assert (E : (d1 * (a * d2)) mod n = (d2 * (a * d1)) mod n)
    by (f_equal; ring).
  rewrite <- Zmult_mod_idemp_r, E2, <- (Zmult_mod_idemp_r (a * d1)), E1 in E.
  rewrite !Zmult_mod_idemp_r, !Z.mul_1_r, !Z.mod_small in E by lia.
  exact E.
Qed.

(** ** Properties *)

(** Claim C14. Termination of [egcd]: every recursion budget above
    [|b|] gives the triple of [egcd(a, b)], and that triple satisfies the
    recursive equation of lines 98-101 of the source. *)
Theorem egcd_terminates (fuel : nat) (a b : Z) :
  (Z.abs_nat b < fuel)%nat ->
  egcd_fuel fuel a b = egcd a b /\
  egcd a b =
  (if b =? 0 then (a, 1, 0)
   else let '(g, x, y) := egcd b (a mod b) in (g, y, x - (a / b) * y)).
Proof.
  intros H. split; [|apply egcd_unfold].
  unfold egcd. apply egcd_fuel_enough; lia.
Qed.

Lemma egcd_terminates_witness :
  egcd_fuel 50 240 46 = egcd 240 46 /\
  egcd 240 46 =
  (if 46 =? 0 then (240, 1, 0)
   else let '(g, x, y) := egcd 46 (240 mod 46) in (g, y, x - (240 / 46) * y)).
Proof. apply (egcd_terminates 50 240 46). vm_compute. lia. Defined.

(** Claim C15. The recursion of [egcd] is logarithmic: for [b > 0], a stack
    of [2 * log2 b + 2] frames is enough for [egcd(a, b)] to return, for
    every [a].  The script calls [egcd(e, phi_rec)] with [phi_rec < N], so
    for [N < 2^104] no call nests deeper than 208 frames, far from
    Python's limit of 1000. *)
Theorem egcd_depth_logarithmic (a b : Z) (fuel : nat) :
  0 < b -> 2 * Z.log2 b + 2 <= Z.of_nat fuel ->
  egcd_fuel fuel a b = egcd a b.
Proof.
  intros Hb Hf. apply (egcd_fuel_log (Z.to_nat (Z.log2 b))).
  - rewrite Z2Nat.id by apply Z.log2_nonneg.
    pose proof (Z.log2_spec b Hb) as [_ H].
    replace (Z.log2 b + 1) with (Z.succ (Z.log2 b)) by lia. lia.
  - pose proof (Z.log2_nonneg b). lia.
Qed.

Lemma egcd_depth_logarithmic_witness : egcd_fuel 12 240 46 = egcd 240 46.
Proof. apply (egcd_depth_logarithmic 240 46 12); [lia | simpl; lia]. Defined.

(** Claim C5. The triple [(g, x, y)] returned by [egcd(a, b)] satisfies
    the Bezout identity [a*x + b*y = g]; [|g|] is the greatest common
    divisor of [a] and [b]; [g] is the gcd itself when [b > 0] and its
    opposite when [b < 0]. *)
Theorem egcd_bezout_gcd (a b : Z) :
  let '(g, x, y) := egcd a b in
  a * x + b * y = g /\ Z.abs g = Z.gcd a b /\
  (0 < b -> g = Z.gcd a b) /\ (b < 0 -> g = - Z.gcd a b).
Proof.
  pose proof (egcd_abs_gcd a b) as Habs.
  pose proof (egcd_gcd_pos a b) as Hpos. pose proof (egcd_gcd_neg a b) as Hneg.
  destruct (egcd a b) as [[g x] y] eqn:E; simpl in *.
  repeat split; auto. exact (egcd_bezout_eq a b g x y E).
Qed.

(** Claim C4. For a positive modulus [n] and [a] coprime to [n],
    [modinv(a, n)] returns the inverse of [a] modulo [n]: a [d] with
    [0 <= d < n] and [a*d = 1 (mod n)], and the only one in that range. *)
Theorem modinv_inverse (a n : Z) :
  0 < n -> Z.gcd a n = 1 ->
  exists d, modinv a n = Ok d /\ 0 <= d < n /\ (a * d) mod n = 1 mod n /\
    forall d', 0 <= d' < n -> (a * d') mod n = 1 mod n -> d' = d.
Proof.
  intros Hn Hg. destruct (modinv_correct a n Hn Hg) as [d [Hd [Hr Hi]]].
  exists d. repeat split; auto; try lia.
  intros d' Hr' Hi'. now apply (inverse_unique a n).
Qed.

Lemma modinv_inverse_witness :
  exists d, modinv 3 8 = Ok d /\ 0 <= d < 8 /\ (3 * d) mod 8 = 1 mod 8 /\
    forall d', 0 <= d' < 8 -> (3 * d') mod 8 = 1 mod 8 -> d' = d.
Proof. apply (modinv_inverse 3 8); [lia | reflexivity]. Defined.

(** Claim C16. For a positive modulus, [modinv(a, n)] raises [ValueError]
    exactly when [gcd(a, n) <> 1], and whatever it returns is an inverse
    of [a] in [[0, n)]. *)
Theorem modinv_raises_iff_not_coprime (a n : Z) :
  0 < n ->
  (modinv a n = Raise ValueError <-> Z.gcd a n <> 1) /\
  (forall d, modinv a n = Ok d -> 0 <= d < n /\ (a * d) mod n = 1 mod n).
Proof.
  intros Hn. split; [now apply modinv_error_iff|].
  intros d Hd. now apply (modinv_sound a n d Hn) in Hd.
Qed.

Lemma modinv_raises_iff_not_coprime_witness :
  (modinv 6 8 = Raise ValueError <-> Z.gcd 6 8 <> 1) /\
  (forall d, modinv 6 8 = Ok d -> 0 <= d < 8 /\ (6 * d) mod 8 = 1 mod 8).
Proof. apply (modinv_raises_iff_not_coprime 6 8). lia. Defined.

(** Claim C37. For a negative modulus [modinv] raises [ValueError] for every
    argument, also for those that have an inverse: [egcd] returns a
    negative [g] and the test [g != 1] of line 105 fails. *)
Theorem modinv_negative_modulus_raises (a n : Z) :
  n < 0 -> modinv a n = Raise ValueError.
Proof.
  intros Hn. destruct (egcd a n) as [[g x] y] eqn:E.
  pose proof (egcd_gcd_neg a n Hn) as Hgcd. rewrite E in Hgcd; simpl in Hgcd.
  pose proof (Z.gcd_nonneg a n). rewrite (modinv_unfold _ _ _ _ _ E).
  destruct (Z.eqb_spec g 1); [lia | reflexivity].
Qed.

Lemma modinv_negative_modulus_raises_witness :
  modinv 3 (-8) = Raise ValueError.
Proof. apply (modinv_negative_modulus_raises 3 (-8)). lia. Defined.

(** Claim C38. For the modulus 0, [modinv(1, 0)] raises
    [ZeroDivisionError] (from [x % n] on line 107) and every other argument
    raises [ValueError]. *)
Theorem modinv_zero_modulus_cases (a : Z) :
  modinv a 0 = if a =? 1 then Raise ZeroDivisionError else Raise ValueError.
Proof. unfold modinv. rewrite egcd_0_r. now destruct (a =? 1). Qed.

(** Claim C35. For a modulus of at least 2 and a coprime argument,
    [modinv] computes the modular inverse of the standard library,
    [Z.invmod]. *)
Theorem modinv_agrees_invmod (a n : Z) :
  2 <= n -> Z.gcd a n = 1 -> modinv a n = Ok (Z.invmod a n).
Proof.
  intros Hn Hg. destruct (modinv_correct a n) as [d [Hd [Hr Hi]]]; try lia.
  rewrite Hd. f_equal. apply (inverse_unique a n); auto.
  - rewrite <- Z.mod_invmod. apply Z.mod_pos_bound; lia.
  - rewrite Z.mul_comm, Z.invmod_coprime by assumption.
    symmetry; apply Z.mod_small; lia.
Qed.

Lemma modinv_agrees_invmod_witness : modinv 3 8 = Ok (Z.invmod 3 8).
Proof. apply (modinv_agrees_invmod 3 8); [lia | reflexivity]. Defined.
