(* ===== verification/Factor.v ===== *)
(** * Factoring: trial division and the choice among candidate pairs

    [trivial_factor] is lines 78-82 of [src/shor.py]: a loop over
    [range(2, int(math.sqrt(N)) + 1)] that returns at the first divisor.
    [select_pair] is the loop of lines 63-67 over the candidate pairs of the
    external library, with the unpacking [a, b = pair] and its
    [ValueError]; [choose_factors] adds the truth test of line 61. *)

From Stdlib Require Import ZArith Znumtheory List Bool Lia.
From S2P Require Import Prelude Float FloatBounds.
Import ListNotations.
#[local] Open Scope Z_scope.
#[local] Open Scope py_scope.

(** ** Definitions *)

(** The test [N % x == 0] of the loop body. *)
Definition divides_test (N x : Z) : bool := N mod x =? 0.

(** [trivial_factor(N)]: [Some (x, N // x)] for the first [x] of the range
    that divides [N], [None] when the loop ends; the exceptions are those
    of [math.sqrt]. *)
Definition trivial_factor (N : Z) : res (option (Z * Z)) :=
  k <- math_sqrt_int N ;;
  match find (divides_test N) (range 2 (k + 1)) with
  | Some x => Ok (Some (x, N / x))
  | None => Ok None
  end.

(** A candidate as the library returns it: a list of integers. *)
Definition candidate : Type := list Z.

(** [a, b = pair]: exactly two elements, [ValueError] otherwise. *)
Definition unpack_pair (pr : candidate) : res (Z * Z) :=
  match pr with
  | [a; b] => Ok (a, b)
  | _ => Raise ValueError
  end.

(** [a > 1 and b > 1 and a*b == N]. *)
Definition valid_pair (N a b : Z) : bool :=
  (a >? 1) && (b >? 1) && (a * b =? N).

(** The [for] loop over the candidates: the first valid pair, [None] when
    the list is exhausted. *)
Fixpoint select_pair (N : Z) (factors : list candidate) : res (option (Z * Z)) :=
  match factors with
  | [] => Ok None
  | pr :: rest =>
      '(a, b) <- unpack_pair pr ;;
      if valid_pair N a b then Ok (Some (a, b)) else select_pair N rest
  end.

(** Lines 61-67: [found_factors] after the loop, starting from [None]. *)
Definition choose_factors (N : Z) (factors : option (list candidate))
  : res (option (Z * Z)) :=
  match factors with
  | Some l => if truthy l then select_pair N l else Ok None
  | None => Ok None
  end.

(** A pair that [found_factors] may legitimately hold. *)
Definition nontrivial_factors (N a b : Z) : Prop :=
  1 < a /\ 1 < b /\ a * b = N.

(** The arguments on which trial division is sure to find a pair: the
    composites below 2^104, where the bound of the loop is not below the
    integer square root. *)
Definition within_reach (N : Z) : Prop :=
  N < 2 ^ 104 /\ exists d, 1 < d < N /\ (d | N).

(** ** Divisibility *)

Lemma divides_test_true (N x : Z) :
  x <> 0 -> (divides_test N x = true <-> (x | N)).
Proof.
  intros Hx. unfold divides_test. rewrite Z.eqb_eq. now apply Z.mod_divide.
Qed.

Lemma divides_test_false (N x : Z) :
  x <> 0 -> (divides_test N x = false <-> ~ (x | N)).
Proof.
  intros Hx. rewrite <- (divides_test_true N x Hx).
  destruct (divides_test N x); split; congruence.
Qed.

(** An exact quotient multiplies back. *)
Lemma divide_quotient (N x : Z) : x <> 0 -> (x | N) -> x * (N / x) = N.
Proof.
  intros Hx [k ->]. rewrite Z.div_mul by assumption. lia.
Qed.

(** A proper divisor yields one between 2 and the square root. *)
Lemma small_divisor (N d : Z) :
  1 < d < N -> (d | N) -> exists x, 2 <= x <= Z.sqrt N /\ (x | N).
Proof.
  intros Hd [k Hk]. assert (HN : 0 <= N) by lia.
  assert (Hk1 : 1 < k) by nia.
  destruct (Z_le_gt_dec d k) as [Hle|Hgt].
  - exists d. split; [|exists k; assumption].
    split; [lia|]. apply Z.sqrt_le_square; nia.
  - exists k. split; [|exists d; lia].
    split; [lia|]. apply Z.sqrt_le_square; nia.
Qed.

(** ** [trivial_factor] *)

(** Up to 2^104 the bound of the loop is not below the integer square
    root, and it is below [N] from 2 on. *)
Lemma loop_bound (N : Z) :
  0 <= N < 2 ^ 104 ->
  exists k, math_sqrt_int N = Ok k /\ Z.sqrt N <= k /\ (k < N \/ k <= 1).
Proof.
  intros HN. pose proof (math_sqrt_int_total N ltac:(lia)) as Hk.
  pose proof (Z.sqrt_spec N ltac:(lia)) as Hs; cbv zeta in Hs.
  eexists. split; [exact Hk|]. split.
  - apply (math_sqrt_int_lower N _ _ Hk); [|lia].
    split; [lia|]. apply Z.lt_le_incl, Z.sqrt_lt_square; lia.
  - destruct (Z_le_gt_dec 2 N) as [H2|H2].
    + left. exact (math_sqrt_int_lt N _ Hk H2).
    + right. rewrite math_sqrt_int_exact in Hk by lia. injection Hk as <-.
      nia.
Qed.

(** What a returned pair satisfies, for every [N]: [a] is the first
    divisor in the range. *)
Lemma trivial_factor_Some (N a b : Z) :
  trivial_factor N = Ok (Some (a, b)) ->
  exists k, math_sqrt_int N = Ok k /\ 2 <= a <= k /\ (a | N) /\ b = N / a /\
            forall y, 2 <= y < a -> ~ (y | N).
Proof.
  unfold trivial_factor. destruct (math_sqrt_int N) as [k|e]; [|discriminate].
  cbn [bind]. destruct (find _ _) as [x|] eqn:E; intros H; inv_res.
  apply find_range_least in E. destruct E as [Hr [Hx Hmin]].
  apply divides_test_true in Hx; [|lia]. exists k.
  repeat split; try lia; auto.
  intros y Hy. apply divides_test_false; [lia | apply Hmin; lia].
Qed.

(** A divisor in the range makes the loop return. *)
Lemma trivial_factor_reaches (N k d : Z) :
  math_sqrt_int N = Ok k -> 2 <= d <= k -> (d | N) ->
  exists a b, trivial_factor N = Ok (Some (a, b)).
Proof.
  intros Hk Hd Hdiv. unfold trivial_factor. rewrite Hk. cbn [bind].
  destruct (find _ _) as [x|] eqn:E; [eauto|exfalso].
  rewrite find_range_None in E.
  apply (divides_test_false N d ltac:(lia)); [apply E; lia | assumption].
Qed.

(** The returned pair is a non-trivial factorisation, smaller factor
    first, whatever the size of [N]: the bound of the loop is below [N]
    and a cofactor below [a] would have been found before [a]. *)
Lemma trivial_factor_sound (N a b : Z) :
  trivial_factor N = Ok (Some (a, b)) -> nontrivial_factors N a b /\ a <= b.
Proof.
  intros H. apply trivial_factor_Some in H.
  destruct H as (k & Hk & Ha & Hd & -> & Hmin).
  destruct (math_sqrt_int_Ok N k Hk) as [HN _].
  assert (HN2 : 2 <= N).
  { destruct (Z.eq_dec N 0) as [->|]; [vm_compute in Hk; inv_res; lia|].
    pose proof (Z.divide_pos_le a N ltac:(lia) Hd). lia. }
  pose proof (math_sqrt_int_lt N k Hk HN2).
  pose proof (divide_quotient N a ltac:(lia) Hd) as Hq.
  assert (Hb : 1 < N / a) by nia.
  unfold nontrivial_factors. repeat split; try lia.
  destruct (Z_le_gt_dec a (N / a)) as [|Hlt]; [assumption|exfalso].
  apply (Hmin (N / a)); [lia|]. exists a. lia.
Qed.

(** When the loop finds nothing, nothing between 2 and [N - 1] divides. *)
Lemma trivial_factor_None (N : Z) :
  0 <= N < 2 ^ 104 ->
  (trivial_factor N = Ok None <-> forall d, 1 < d < N -> ~ (d | N)).
Proof.
  intros HN. destruct (loop_bound N HN) as (k & Hk & Hs & Hlt).
  unfold trivial_factor. rewrite Hk. cbn [bind]. split.
  - destruct (find _ _) as [x|] eqn:E; [discriminate|]. intros _ d Hd Hdiv.
    destruct (small_divisor N d Hd Hdiv) as [x [Hx Hxd]].
    rewrite find_range_None in E.
    apply (divides_test_false N x ltac:(lia)); [apply E; lia | assumption].
  - intros Hnone. destruct (find _ _) as [x|] eqn:E; [exfalso|reflexivity].
    apply find_range_least in E. destruct E as [Hr [Hx _]].
    apply divides_test_true in Hx; [|lia].
    apply (Hnone x); [lia | assumption].
Qed.

(** Below 2^104 the loop is a primality test. *)
Lemma trial_division_prime (N : Z) :
  1 < N < 2 ^ 104 -> trivial_factor N = Ok None -> Z.prime N.
Proof.
  intros HN H. rewrite trivial_factor_None in H by lia.
  split; [lia | exact H].
Qed.

(** Trial division finds a pair on every argument within its reach. *)
Lemma trivial_factor_within_reach (N : Z) :
  within_reach N -> exists a b, trivial_factor N = Ok (Some (a, b)).
Proof.
  intros (HN & d & Hd & Hdiv).
  destruct (loop_bound N ltac:(lia)) as (k & Hk & Hs & _).
  destruct (small_divisor N d Hd Hdiv) as [x [Hx Hxd]].
  apply (trivial_factor_reaches N k x); auto. lia.
Qed.

(** ** The candidate loop *)

Lemma valid_pair_iff (N a b : Z) :
  valid_pair N a b = true <-> nontrivial_factors N a b.
Proof.
  unfold valid_pair, nontrivial_factors.
  rewrite !andb_true_iff, !Z.gtb_ltb, !Z.ltb_lt, Z.eqb_eq. tauto.
Qed.

Lemma unpack_pair_Ok (pr : candidate) (a b : Z) :
  unpack_pair pr = Ok (a, b) <-> pr = [a; b].
Proof.
  destruct pr as [|x [|y [|z l]]]; simpl; split; intros H;
    try discriminate; inv_res; try reflexivity.
  injection H as -> ->; reflexivity.
Qed.

Lemma unpack_pair_Raise (pr : candidate) (e : exn) :
  unpack_pair pr = Raise e <-> e = ValueError /\ length pr <> 2%nat.
Proof.
  destruct pr as [|x [|y [|z l]]]; simpl; split;
    try (intros H; inv_res; split; [reflexivity | lia]);
    try (intros [-> _]; reflexivity); try discriminate.
  intros [_ H]; lia.
Qed.

(** One iteration of the loop. *)
Lemma select_pair_cons (N a b : Z) (rest : list candidate) :
  select_pair N ([a; b] :: rest) =
  if valid_pair N a b then Ok (Some (a, b)) else select_pair N rest.
Proof. reflexivity. Qed.

(** A pair the loop returns passed the test of line 65. *)
Lemma select_pair_sound (N : Z) (l : list candidate) (a b : Z) :
  select_pair N l = Ok (Some (a, b)) -> nontrivial_factors N a b.
Proof.
  induction l as [|pr rest IH]; simpl; [discriminate|].
  destruct (unpack_pair pr) as [[x y]|e] eqn:E; simpl; [|discriminate].
  destruct (valid_pair N x y) eqn:V; [|exact IH].
  intros H; inv_res. now apply valid_pair_iff.
Qed.

(** A prefix of well-formed invalid pairs is skipped. *)
Lemma select_pair_skip (N : Z) (l1 l2 : list candidate) :
  Forall (fun p => exists x y, p = [x; y] /\ valid_pair N x y = false) l1 ->
  select_pair N (l1 ++ l2) = select_pair N l2.
Proof.
  induction 1 as [|p l1 [x [y [-> V]]] _ IH]; [reflexivity|].
  simpl app. now rewrite select_pair_cons, V.
Qed.

(** The loop raises exactly when a candidate that is not a pair comes
    before any valid pair. *)
Lemma select_pair_Raise (N : Z) (l : list candidate) (e : exn) :
  select_pair N l = Raise e <->
  e = ValueError /\ exists l1 p l2, l = l1 ++ p :: l2 /\ length p <> 2%nat /\
    Forall (fun p => exists x y, p = [x; y] /\ valid_pair N x y = false) l1.
Proof.
  split.
  - induction l as [|pr rest IH]; simpl; [discriminate|].
    destruct (unpack_pair pr) as [[x y]|e'] eqn:E; simpl.
    + apply unpack_pair_Ok in E; subst pr.
      destruct (valid_pair N x y) eqn:V; [discriminate|].
      intros H. destruct (IH H) as [-> [l1 [p [l2 [-> [Hp Hall]]]]]].
      split; [reflexivity|]. exists ([x; y] :: l1), p, l2.
      repeat split; auto. constructor; [exists x, y; auto | assumption].
    + intros H; inv_res. apply unpack_pair_Raise in E. destruct E as [-> Hp].
      split; [reflexivity|]. exists [], pr, rest. repeat split; auto.
  - intros [-> [l1 [p [l2 [-> [Hp Hall]]]]]].
    rewrite select_pair_skip by assumption. simpl.
    destruct (unpack_pair p) as [[x y]|e] eqn:E.
    + apply unpack_pair_Ok in E; subst p. simpl in Hp; lia.
    + apply unpack_pair_Raise in E. destruct E as [-> _]. reflexivity.
Qed.

Lemma choose_factors_sound (N : Z) (factors : option (list candidate)) (a b : Z) :
  choose_factors N factors = Ok (Some (a, b)) -> nontrivial_factors N a b.
Proof.
  destruct factors as [l|]; simpl; [|discriminate].
  destruct (truthy l); [apply select_pair_sound | discriminate].
Qed.

(** The truth test of line 61 changes nothing: the loop over an empty list
    finds nothing either. *)
Lemma choose_factors_select (N : Z) (l : list candidate) :
  choose_factors N (Some l) = select_pair N l.
Proof. destruct l; reflexivity. Qed.

(** ** Properties *)

(** Claim C6. For every integer [N], a pair [(a, b)] returned by
    [trivial_factor(N)] is a factorisation of [N] with [1 < a <= b], and
    [a] is the smallest divisor of [N] above 1: the inexact bound of the
    loop never lets a wrong pair through. *)
Theorem trivial_factor_least_divisor (N a b : Z) :
  trivial_factor N = Ok (Some (a, b)) ->
  a * b = N /\ 1 < a <= b /\ forall y, 1 < y < a -> ~ (y | N).
Proof.
  intros H. destruct (trivial_factor_sound N a b H) as [(Ha & Hb & Hab) Hle].
  destruct (trivial_factor_Some N a b H) as (_ & _ & _ & _ & _ & Hmin).
  repeat split; auto. intros y Hy. apply Hmin; lia.
Qed.

Lemma trivial_factor_least_divisor_witness :
  3 * 5 = 15 /\ 1 < 3 <= 5 /\ forall y, 1 < y < 3 -> ~ (y | 15).
Proof.
  apply (trivial_factor_least_divisor 15 3 5). vm_compute; reflexivity.
Defined.

(** Claim C17. [trivial_factor(N)] returns a pair for every composite
    [N] below 2^104, the squares of primes included: the rounding of
    [math.sqrt] never takes the bound of the loop below the integer square
    root there. *)
Theorem trivial_factor_finds_composite (N d : Z) :
  1 < d < N -> (d | N) -> N < 2 ^ 104 ->
  exists a b, trivial_factor N = Ok (Some (a, b)) /\ nontrivial_factors N a b.
Proof.
  intros Hd Hdiv HN.
  destruct (trivial_factor_within_reach N) as (a & b & H);
    [split; [assumption | exists d; auto]|].
  exists a, b. split; [assumption | now apply trivial_factor_sound].
Qed.

Lemma trivial_factor_finds_composite_witness :
  exists a b, trivial_factor (67108879 * 67108879) = Ok (Some (a, b)) /\
              nontrivial_factors (67108879 * 67108879) a b.
Proof.
  apply (trivial_factor_finds_composite (67108879 * 67108879) 67108879);
    [lia | exists 67108879; reflexivity | lia].
Defined.

(** Claim C18. Below 2^104, [trivial_factor(N)] returns [None] exactly
    when [N] is 0, 1 or a prime. *)
Theorem trivial_factor_none_iff_prime (N : Z) :
  0 <= N < 2 ^ 104 -> (trivial_factor N = Ok None <-> N <= 1 \/ Z.prime N).
Proof.
  intros HN. rewrite trivial_factor_None by assumption. split.
  - intros H. destruct (Z_le_gt_dec N 1); [left; assumption|right].
    split; [lia | exact H].
  - intros [H | [_ H]]; [intros d Hd; lia | exact H].
Qed.

Lemma trivial_factor_none_iff_prime_witness :
  trivial_factor 7 = Ok None <-> 7 <= 1 \/ Z.prime 7.
Proof. apply (trivial_factor_none_iff_prime 7). lia. Defined.

(** Claim C39. [trivial_factor] raises exactly where [math.sqrt] does,
    before its loop: [OverflowError] when [|N| >= 2^1024 - 2^970],
    [ValueError] when [N] is negative and below that magnitude; on every
    other argument it returns. *)
Theorem trivial_factor_raises_iff (N : Z) (e : exn) :
  trivial_factor N = Raise e <->
  (e = OverflowError /\ 2 ^ 1024 - 2 ^ 970 <= Z.abs N) \/
  (e = ValueError /\ N < 0 /\ Z.abs N < 2 ^ 1024 - 2 ^ 970).
Proof.
  unfold trivial_factor. rewrite math_sqrt_int_cases.
  destruct (Z.leb_spec (2 ^ 1024 - 2 ^ 970) (Z.abs N)) as [H|H];
    [|destruct (Z.ltb_spec N 0) as [HN|HN]]; cbn [bind].
  - split; [intros [= <-]; auto | intros [[-> _] | [_ [_ H']]]; [reflexivity | lia]].
  - split; [intros [= <-]; auto | intros [[_ H'] | [-> _]]; [lia | reflexivity]].
  - destruct (find _ _); (split; [discriminate | intros [[_ H'] | [_ [H' _]]]; lia]).
Qed.

(** Claim C7. The pair the candidate loop returns is the first valid one:
    it satisfies [a > 1], [b > 1], [a*b = N], and every candidate before it
    was a pair that fails this test. *)
Theorem select_pair_first_valid (N : Z) (l : list candidate) (a b : Z) :
  select_pair N l = Ok (Some (a, b)) ->
  nontrivial_factors N a b /\
  exists l1 l2, l = l1 ++ [a; b] :: l2 /\
    Forall (fun p => exists x y, p = [x; y] /\ valid_pair N x y = false) l1.
Proof.
  intros H. split; [exact (select_pair_sound N l a b H)|]. revert H.
  induction l as [|pr rest IH]; simpl; [discriminate|].
  destruct (unpack_pair pr) as [[x y]|e] eqn:E; simpl; [|discriminate].
  apply unpack_pair_Ok in E; subst pr.
  destruct (valid_pair N x y) eqn:V.
  - intros H; inv_res. exists [], rest. split; [reflexivity | constructor].
  - intros H. destruct (IH H) as [l1 [l2 [-> Hall]]].
    exists ([x; y] :: l1), l2. split; [reflexivity|].
    constructor; [exists x, y; auto | assumption].
Qed.

Lemma select_pair_first_valid_witness :
  nontrivial_factors 15 3 5 /\
  exists l1 l2, [[1; 15]; [15; 1]; [3; 5]] = l1 ++ [3; 5] :: l2 /\
    Forall (fun p => exists x y, p = [x; y] /\ valid_pair 15 x y = false) l1.
Proof.
  apply (select_pair_first_valid 15 [[1; 15]; [15; 1]; [3; 5]] 3 5).
  reflexivity.
Defined.

(** Claim C34. The candidate loop ends without a pair exactly when every
    candidate is a pair that fails the test of line 65. *)
Theorem select_pair_none_iff (N : Z) (l : list candidate) :
  select_pair N l = Ok None <->
  Forall (fun p => exists x y, p = [x; y] /\ valid_pair N x y = false) l.
Proof.
  split.
  - induction l as [|pr rest IH]; simpl; [constructor|].
    destruct (unpack_pair pr) as [[x y]|e] eqn:E; simpl; [|discriminate].
    apply unpack_pair_Ok in E; subst pr.
    destruct (valid_pair N x y) eqn:V; [discriminate|].
    intros H. constructor; [exists x, y; auto | auto].
  - intros H. rewrite <- (app_nil_r l). now rewrite select_pair_skip.
Qed.

(** Claim C33. Lines 60-67 raise exactly when the library returned a list in
    which a candidate that is not a two-element sequence comes before any
    valid pair; the exception is the [ValueError] of the unpacking. *)
Theorem choose_factors_raises_iff (N : Z) (factors : option (list candidate))
  (e : exn) :
  choose_factors N factors = Raise e <->
  e = ValueError /\
  exists l1 p l2, factors = Some (l1 ++ p :: l2) /\ length p <> 2%nat /\
    Forall (fun p => exists x y, p = [x; y] /\ valid_pair N x y = false) l1.
Proof.
  destruct factors as [l|].
  - rewrite choose_factors_select, select_pair_Raise. split.
    + intros [-> (l1 & p & l2 & -> & H)]. split; [reflexivity|].
      exists l1, p, l2. split; [reflexivity | exact H].
    + intros [-> (l1 & p & l2 & Hl & H)]. injection Hl as ->.
      split; [reflexivity|]. exists l1, p, l2. split; [reflexivity | exact H].
  - simpl. split; [discriminate|]. intros [_ (l1 & p & l2 & Hl & _)].
    discriminate.
Qed.
