(* ===== verification/Oracle.v ===== *)
(** * The factoring oracle: the external library and the fallback chain

    [try_qiskit_shor_factor] (lines 28-58 of [src/shor.py]) reaches the
    external library through two import paths.  The library is not part of
    the program: it is a parameter of the model.  An [ApiPath] says, for one
    path, which statement of the [try] block raises and what
    [shor.factor(N)] returns; [attempt] is the body of one [try] block and
    [try_qiskit_shor_factor] the nesting of the two.

    [FactorOracle] is the contract between a factoring strategy and the
    pipeline: a pair the strategy returns is a non-trivial factorisation,
    and on the inputs it supports the strategy does return a pair.  The
    library path followed by the candidate loop, trial division, and the
    chain of the two are instances. *)

From Stdlib Require Import ZArith List Bool Lia.
From S2P Require Import Prelude Float Factor.
Import ListNotations.
#[local] Open Scope Z_scope.
#[local] Open Scope py_scope.

(** ** The external library *)

(** The object [shor.factor(N)] returns: with or without an attribute
    [factors]. *)
Inductive shor_result : Type :=
| NoFactorsAttr
| Factors (l : list candidate).

(** One import path.  A [false] field means that the statement raises;
    [run_factor N = None] means that [shor.factor(N)] raises. *)
Record ApiPath : Type := {
  import_shor : bool;
  import_sampler : bool;
  make_sampler : bool;
  make_shor : bool;
  run_factor : Z -> option shor_result
}.

(** The two paths: [qiskit_algorithms] and [qiskit.algorithms]. *)
Record QiskitEnv : Type := {
  modern : ApiPath;
  legacy : ApiPath
}.

(** How a [try] block ends. *)
Inductive outcome (A : Type) : Type :=
| Raised
| Returned (v : A).

Arguments Raised {A}.
Arguments Returned {A} v.

(** ** The adapter *)

(** [if hasattr(res, "factors") and res.factors: return res.factors] and
    the [return None] that follows. *)
Definition result_factors (r : shor_result) : option (list candidate) :=
  match r with
  | NoFactorsAttr => None
  | Factors l => if truthy l then Some l else None
  end.

(** The body of one [try] block, statement by statement. *)
Definition attempt (api : ApiPath) (N : Z) : outcome (option (list candidate)) :=
  if negb (import_shor api) then Raised
  else if negb (import_sampler api) then Raised
  else if negb (make_sampler api) then Raised
  else if negb (make_shor api) then Raised
  else
    match run_factor api N with
    | None => Raised
    | Some r => Returned (result_factors r)
    end.

(** The four statements before [shor.factor(N)] all succeed. *)
Definition path_ready (api : ApiPath) : bool :=
  import_shor api && import_sampler api && make_sampler api && make_shor api.

(** [try_qiskit_shor_factor(N)]: the modern path, the legacy path when the
    modern one raised, [None] when both raised. *)
Definition try_qiskit_shor_factor (env : QiskitEnv) (N : Z)
  : option (list candidate) :=
  match attempt (modern env) N with
  | Returned v => v
  | Raised =>
      match attempt (legacy env) N with
      | Returned v => v
      | Raised => None
      end
  end.

(** Lines 60-67: the adapter followed by the candidate loop. *)
Definition quantum_factor (env : QiskitEnv) (N : Z) : res (option (Z * Z)) :=
  choose_factors N (try_qiskit_shor_factor env N).

(** A path on which every statement succeeds and [factor] returns [l]. *)
Definition working_path (l : list candidate) : ApiPath :=
  {| import_shor := true; import_sampler := true; make_sampler := true;
     make_shor := true; run_factor := fun _ => Some (Factors l) |}.

(** A path whose first import fails: the library is not installed. *)
Definition missing_path : ApiPath :=
  {| import_shor := false; import_sampler := false; make_sampler := false;
     make_shor := false; run_factor := fun _ => None |}.

(** ** The contract of a factoring strategy *)

Class FactorOracle : Type := {
  factor : Z -> res (option (Z * Z));
  supports : Z -> Prop;
  factor_sound : forall N a b,
    factor N = Ok (Some (a, b)) -> nontrivial_factors N a b;
  factor_complete : forall N,
    supports N -> exists a b, factor N = Ok (Some (a, b))
}.

(** Trying [first], then [second] when [first] found nothing: lines 69-88
    without the printing.  An exception of [first] is not caught. *)
Definition or_else (first second : Z -> res (option (Z * Z))) (N : Z)
  : res (option (Z * Z)) :=
  found <- first N ;;
  match found with
  | Some pr => Ok (Some pr)
  | None => second N
  end.

(** ** The adapter: which path answers *)

Lemma attempt_Returned (api : ApiPath) (N : Z) (v : option (list candidate)) :
  attempt api N = Returned v <->
  import_shor api = true /\ import_sampler api = true /\
  make_sampler api = true /\ make_shor api = true /\
  exists r, run_factor api N = Some r /\ result_factors r = v.
Proof.
  unfold attempt.
  destruct (import_shor api), (import_sampler api), (make_sampler api),
    (make_shor api); simpl;
    try (split; [discriminate | intros (? & ? & ? & ? & _); discriminate]).
  destruct (run_factor api N) as [r|]; split.
  - intros H; injection H as <-. repeat split; eauto.
  - intros (_ & _ & _ & _ & r' & Hr & <-). now injection Hr as ->.
  - discriminate.
  - intros (_ & _ & _ & _ & r' & Hr & _). discriminate.
Qed.

(** ** The strategies honour the contract *)

Lemma quantum_factor_sound (env : QiskitEnv) (N a b : Z) :
  quantum_factor env N = Ok (Some (a, b)) -> nontrivial_factors N a b.
Proof. apply choose_factors_sound. Qed.

(** The only exception of the candidate loop is the [ValueError] of the
    unpacking on line 63. *)
Lemma quantum_factor_Raise (env : QiskitEnv) (N : Z) (e : exn) :
  quantum_factor env N = Raise e -> e = ValueError.
Proof.
  unfold quantum_factor, choose_factors.
  destruct (try_qiskit_shor_factor env N) as [l|]; [|discriminate].
  destruct (truthy l); [|discriminate].
  intros H. now apply select_pair_Raise in H.
Qed.

(** When the first strategy finds nothing the chain is the second one. *)
Lemma or_else_None (first second : Z -> res (option (Z * Z))) (N : Z) :
  first N = Ok None -> or_else first second N = second N.
Proof. intros H. unfold or_else. now rewrite H. Qed.

(** When the first strategy finds a pair the second is not run. *)
Lemma or_else_Some (first second : Z -> res (option (Z * Z))) (N : Z) (pr : Z * Z) :
  first N = Ok (Some pr) -> or_else first second N = Ok (Some pr).
Proof. intros H. unfold or_else. now rewrite H. Qed.

(** A pair of the chain is a pair of one of the two strategies. *)
Lemma or_else_sound (first second : Z -> res (option (Z * Z))) (N a b : Z) :
  (forall a b, first N = Ok (Some (a, b)) -> nontrivial_factors N a b) ->
  (forall a b, second N = Ok (Some (a, b)) -> nontrivial_factors N a b) ->
  or_else first second N = Ok (Some (a, b)) -> nontrivial_factors N a b.
Proof.
  intros H1 H2. unfold or_else.
  destruct (first N) as [[[x y]|]|e] eqn:E; simpl; intros H; inv_res; auto.
Qed.

(** The chain answers when the first strategy does, or when the first
    finds nothing and the second answers. *)
Lemma or_else_complete (first second : Z -> res (option (Z * Z))) (N : Z) :
  (exists a b, first N = Ok (Some (a, b))) \/
  (first N = Ok None /\ exists a b, second N = Ok (Some (a, b))) ->
  exists a b, or_else first second N = Ok (Some (a, b)).
Proof.
  intros [(a & b & H) | [H (a & b & H2)]]; exists a, b.
  - now apply or_else_Some.
  - now rewrite or_else_None.
Qed.

(** The library promises nothing: it supports the inputs it answers, so
    its completeness holds by definition; only its soundness, which comes
    from the test of line 65, has content. *)
#[export] Instance quantum_oracle (env : QiskitEnv) : FactorOracle := {|
  factor := quantum_factor env;
  supports := fun N => exists a b, quantum_factor env N = Ok (Some (a, b));
  factor_sound := quantum_factor_sound env;
  factor_complete := fun N H => H
|}.

(** Trial division supports the arguments within its reach. *)
#[export] Instance trial_division_oracle : FactorOracle := {|
  factor := trivial_factor;
  supports := within_reach;
  factor_sound := fun N a b H => proj1 (trivial_factor_sound N a b H);
  factor_complete := trivial_factor_within_reach
|}.

(** The chain of two strategies is a strategy. *)
Definition chain_oracle (o1 o2 : FactorOracle) : FactorOracle := {|
  factor := or_else (@factor o1) (@factor o2);
  supports := fun N =>
    @supports o1 N \/ (@factor o1 N = Ok None /\ @supports o2 N);
  factor_sound := fun N a b =>
    or_else_sound (@factor o1) (@factor o2) N a b
      (@factor_sound o1 N) (@factor_sound o2 N);
  factor_complete := fun N H =>
    or_else_complete (@factor o1) (@factor o2) N
      match H with
      | or_introl H1 => or_introl (@factor_complete o1 N H1)
      | or_intror (conj Hn H2) =>
          or_intror (conj Hn (@factor_complete o2 N H2))
      end
|}.

(** The chain of the script: the library first, trial division second. *)
Definition script_oracle (env : QiskitEnv) : FactorOracle :=
  chain_oracle (quantum_oracle env) trial_division_oracle.

(** A [try] block raises when a setup statement or the call raises. *)
Lemma attempt_Raised (api : ApiPath) (N : Z) :
  attempt api N = Raised <-> path_ready api = false \/ run_factor api N = None.
Proof.
  unfold attempt, path_ready.
  destruct (import_shor api), (import_sampler api), (make_sampler api),
    (make_shor api); simpl; try (split; [auto | reflexivity]).
  destruct (run_factor api N); split; try discriminate; auto.
  intros [H | H]; discriminate.
Qed.

(** A [try] block returns a list when everything succeeds and the result
    carries a non-empty [factors]. *)
Lemma attempt_Some (api : ApiPath) (N : Z) (l : list candidate) :
  attempt api N = Returned (Some l) <->
  path_ready api = true /\ run_factor api N = Some (Factors l) /\ l <> [].
Proof.
  rewrite attempt_Returned. unfold path_ready. rewrite !andb_true_iff. split.
  - intros (H1 & H2 & H3 & H4 & r & Hr & Hf). destruct r as [|l']; [discriminate|].
    simpl in Hf. destruct l' as [|c l']; [discriminate|]. simpl in Hf.
    inv_res. repeat split; auto. discriminate.
  - intros ((((H1 & H2) & H3) & H4) & Hr & Hl). repeat split; auto.
    exists (Factors l). split; [assumption|]. destruct l; [contradiction|reflexivity].
Qed.

(** ** Properties *)

(** Claim C8. [try_qiskit_shor_factor] returns a list [l] exactly when
    [l] is the non-empty [factors] of the modern path, or the modern path
    raised and [l] is the non-empty [factors] of the legacy path.  In
    particular a modern path that returns without usable factors is final:
    the legacy path is tried after an exception only. *)
Theorem try_qiskit_answer_iff (env : QiskitEnv) (N : Z) (l : list candidate) :
  try_qiskit_shor_factor env N = Some l <->
  (path_ready (modern env) = true /\
   run_factor (modern env) N = Some (Factors l) /\ l <> []) \/
  ((path_ready (modern env) = false \/ run_factor (modern env) N = None) /\
   path_ready (legacy env) = true /\
   run_factor (legacy env) N = Some (Factors l) /\ l <> []).
Proof.
  rewrite <- attempt_Raised, <- !attempt_Some. unfold try_qiskit_shor_factor.
  destruct (attempt (modern env) N) as [|v] eqn:E1.
  - destruct (attempt (legacy env) N) as [|v] eqn:E2; split.
    + discriminate.
    + intros [H | [_ H]]; discriminate.
    + intros ->. right; auto.
    + intros [H | [_ H]]; [discriminate | now injection H].
  - split.
    + intros ->. left; reflexivity.
    + intros [H | [H _]]; [now injection H | discriminate].
Qed.

(** Claim C20. When both import paths raise, the chain of the script is
    trial division: same pair, same [None], same exception. *)
Theorem chain_without_library (env : QiskitEnv) (N : Z) :
  (path_ready (modern env) = false \/ run_factor (modern env) N = None) ->
  (path_ready (legacy env) = false \/ run_factor (legacy env) N = None) ->
  @factor (script_oracle env) N = trivial_factor N.
Proof.
  rewrite <- !attempt_Raised. intros H1 H2. simpl.
  apply or_else_None. unfold quantum_factor, try_qiskit_shor_factor.
  now rewrite H1, H2.
Qed.

Lemma chain_without_library_witness :
  @factor (script_oracle {| modern := missing_path; legacy := missing_path |}) 15
  = trivial_factor 15.
Proof.
  apply (chain_without_library
           {| modern := missing_path; legacy := missing_path |} 15);
    left; reflexivity.
Defined.

(** Claim C19. Whatever the library answers and whatever the size of [N],
    a pair the chain of the script returns has both factors above 1 and
    multiplies to [N]: invalid candidates never reach the caller. *)
Theorem chain_sound (env : QiskitEnv) (N a b : Z) :
  or_else (quantum_factor env) trivial_factor N = Ok (Some (a, b)) ->
  1 < a /\ 1 < b /\ a * b = N.
Proof. exact (@factor_sound (script_oracle env) N a b). Qed.

Lemma chain_sound_witness : 1 < 3 /\ 1 < 5 /\ 3 * 5 = 15.
Proof.
  apply (chain_sound
           {| modern := working_path [[1; 15]; [15; 1]; [3; 5]];
              legacy := missing_path |} 15 3 5). reflexivity.
Defined.
