(* ===== verification/Rsa.v ===== *)
(** * Why the recovered key decrypts: the number theory of the script

    The script never checks that its key is an RSA key; it is the arithmetic
    of this file that makes line 113 print success.  For distinct primes [p]
    and [q] and exponents with [e*d = 1] modulo [(p-1)*(q-1)], raising to
    the power [e] and then [d] modulo [p*q] is the identity on residues
    ([rsa_roundtrip]); a pair of factors above 1 whose product is [p*q] is
    [p] and [q] in some order ([semiprime_factors]), so the totient the
    script recomputes on line 94 is the one of line 13. *)

From Stdlib Require Import ZArith Znumtheory Zcong Zmod Lia.
From S2P Require Import Prelude Factor.
#[local] Open Scope Z_scope.

(** ** Congruences *)

(** Congruence modulo [m] as divisibility of the difference. *)
Lemma cong_divide (a b m : Z) : a mod m = b mod m <-> (m | a - b).
Proof. apply Z.cong_iff_ex. Qed.

(** Two coprime numbers that divide [c] divide it together. *)
Lemma coprime_divide_mul (a b c : Z) :
  Z.gcd b a = 1 -> (a | c) -> (b | c) -> (a * b | c).
Proof.
  intros Hg [k ->] Hb. rewrite Z.mul_comm in Hb.
  apply Z.gauss in Hb; [|assumption].
  destruct Hb as [j ->]. exists j. ring.
Qed.

(** Distinct primes are coprime. *)
Lemma distinct_primes_coprime (p q : Z) :
  Z.prime p -> Z.prime q -> p <> q -> Z.gcd q p = 1.
Proof.
  intros Hp Hq Hne. apply Z.coprime_prime_l; [assumption|].
  intros H. apply Z.divide_prime_prime in H; auto.
Qed.

(** Chinese remainders for two distinct primes. *)
Lemma cong_two_primes (p q x y : Z) :
  Z.prime p -> Z.prime q -> p <> q ->
  x mod p = y mod p -> x mod q = y mod q -> x mod (p * q) = y mod (p * q).
Proof.
  intros Hp Hq Hne H1 H2. rewrite cong_divide in *.
  apply coprime_divide_mul; auto using distinct_primes_coprime.
Qed.

(** ** Fermat *)

Section PrimeModulus.

Variable p : Z.
Hypothesis Hp : Z.prime p.

(** Powers of a [p-1]-th power are 1 modulo [p] on units. *)
Lemma fermat_pow_unit (m k : Z) :
  m mod p <> 0 -> 0 <= k -> m ^ ((p - 1) * k) mod p = 1.
Proof.
  intros Hm Hk. pose proof (Z.prime_ge_2 p Hp).
  rewrite Z.pow_mul_r by lia.
  rewrite <- Z.mod_pow_l, (Z.fermat_nz p m Hp Hm), Z.pow_1_l by assumption.
  apply Z.mod_small; lia.
Qed.

(** An exponent that is 1 modulo [p - 1] acts as the identity modulo [p],
    on every residue. *)
Lemma fermat_exponent (m k : Z) :
  0 <= k -> m ^ (1 + (p - 1) * k) mod p = m mod p.
Proof.
  intros Hk. pose proof (Z.prime_ge_2 p Hp).
  rewrite Z.pow_add_r, Z.pow_1_r by nia.
  destruct (Z.eq_dec (m mod p) 0) as [Hm|Hm].
  - rewrite <- Zmult_mod_idemp_l, Hm. reflexivity.
  - rewrite <- Zmult_mod_idemp_r, fermat_pow_unit by assumption.
    now rewrite Z.mul_1_r.
Qed.

End PrimeModulus.

(** ** RSA *)

Section TwoPrimes.

Variables p q : Z.
Hypothesis Hp : Z.prime p.
Hypothesis Hq : Z.prime q.

Let N := p * q.
Let phi := (p - 1) * (q - 1).

Lemma phi_pos : 0 < phi.
Proof.
  pose proof (Z.prime_ge_2 p Hp). pose proof (Z.prime_ge_2 q Hq).
  unfold phi. nia.
Qed.

(** An exponent that is 1 modulo [phi] is [1 + phi * k]. *)
Lemma exponent_shape (x : Z) :
  0 <= x -> x mod phi = 1 -> exists k, 0 <= k /\ x = 1 + phi * k.
Proof.
  intros Hx H. pose proof phi_pos. exists (x / phi). split.
  - apply Z.div_pos; lia.
  - pose proof (Z.div_mod x phi ltac:(lia)). lia.
Qed.

(** The only factorisations of [N] into factors above 1 are [p * q] and
    [q * p]. *)
Lemma semiprime_factors (a b : Z) :
  nontrivial_factors N a b -> (a = p /\ b = q) \/ (a = q /\ b = p).
Proof.
  intros (Ha & Hb & Hab). unfold N in Hab.
  pose proof (Z.prime_ge_2 p Hp). pose proof (Z.prime_ge_2 q Hq).
  assert (Hd : (p | a * b)) by (exists q; lia).
  apply Z.divide_prime_mul in Hd; [|assumption].
  destruct Hd as [[k ->] | [k ->]].
  - assert (Hkb : k * b = q) by nia.
    assert (Hbq : (b | q)) by (exists k; lia).
    apply Z.divide_prime_r in Hbq; [|assumption].
    left. split; nia.
  - assert (Hka : a * k = q) by nia.
    assert (Haq : (a | q)) by (exists k; lia).
    apply Z.divide_prime_r in Haq; [|assumption].
    right. split; nia.
Qed.

(** The totient recomputed from any such factorisation is [phi]. *)
Lemma totient_recovered (a b : Z) :
  nontrivial_factors N a b -> (a - 1) * (b - 1) = phi.
Proof.
  intros H. destruct (semiprime_factors a b H) as [[-> ->] | [-> ->]];
    unfold phi; ring.
Qed.

(** From here on the primes are distinct. *)
Hypothesis Hpq : p <> q.

(** Such an exponent acts as the identity modulo [N]. *)
Lemma rsa_exponent (m x : Z) :
  0 <= x -> x mod phi = 1 -> m ^ x mod N = m mod N.
Proof.
  intros Hx H. destruct (exponent_shape x Hx H) as [k [Hk ->]].
  pose proof (Z.prime_ge_2 p Hp). pose proof (Z.prime_ge_2 q Hq).
  apply cong_two_primes; auto; unfold phi.
  - replace ((p - 1) * (q - 1) * k) with ((p - 1) * ((q - 1) * k)) by ring.
    apply fermat_exponent; [assumption | nia].
  - replace ((p - 1) * (q - 1) * k) with ((q - 1) * ((p - 1) * k)) by ring.
    apply fermat_exponent; [assumption | nia].
Qed.

(** Encrypting with [e] and decrypting with [d] gives the message back. *)
Lemma rsa_roundtrip (e d m : Z) :
  0 <= e -> 0 <= d -> (e * d) mod phi = 1 ->
  (m ^ e mod N) ^ d mod N = m mod N.
Proof.
  intros He Hd H.
  rewrite Z.mod_pow_l, <- Z.pow_mul_r by assumption.
  apply rsa_exponent; [nia | assumption].
Qed.

End TwoPrimes.

(** ** Properties *)

(** Claim C32. On the product of two primes [p <= q] below 2^104, equal
    or not, [trivial_factor] returns exactly [(p, q)]. *)
Theorem trivial_factor_semiprime (p q : Z) :
  Z.prime p -> Z.prime q -> p <= q -> p * q < 2 ^ 104 ->
  trivial_factor (p * q) = Ok (Some (p, q)).
Proof.
  intros Hp Hq Hle HN.
  pose proof (Z.prime_ge_2 p Hp). pose proof (Z.prime_ge_2 q Hq).
  destruct (trivial_factor_within_reach (p * q)) as (a & b & Hr).
  { split; [assumption|]. exists p. split; [nia | exists q; ring]. }
  rewrite Hr. destruct (trivial_factor_sound _ a b Hr) as [Hf Hab].
  destruct (semiprime_factors p q Hp Hq a b Hf) as [[-> ->] | [-> ->]];
    [reflexivity|].
  assert (p = q) by lia. now subst.
Qed.

Lemma trivial_factor_semiprime_witness :
  trivial_factor (67108879 * 134217757) = Ok (Some (67108879, 134217757)).
Proof.
  apply (trivial_factor_semiprime 67108879 134217757); try lia.
  - apply trial_division_prime; [lia | vm_compute; reflexivity].
  - apply trial_division_prime; [lia | vm_compute; reflexivity].
Defined.
