(* ===== verification/Pipeline.v ===== *)
(** * The script from top to bottom

    [run] is [src/shor.py] as one function: from the four constants of
    lines 11-15 ([Config]) and the behaviour of the external library
    ([QiskitEnv]) to the lines printed and the way the script ends, a
    [Report] of every value it computed or the exception that escaped.
    Statements that print are [print]; statements that can raise are lifted
    from the components; [script] is the writer-and-exception monad that
    sequences them, so the output of a run that raises is the output up to
    the raising statement. *)

From Stdlib Require Import ZArith Znumtheory List Bool Lia.
From S2P Require Import Prelude Float ModArith Factor Oracle Rsa.
Import ListNotations.
#[local] Open Scope Z_scope.

Declare Scope script_scope.
Delimit Scope script_scope with script.

(** ** Data *)

(** The constants of lines 11, 14 and 15. *)
Record Config : Type := {
  cfg_p : Z;
  cfg_q : Z;
  cfg_e : Z;
  cfg_m : Z
}.

(** [p, q = 3, 5], [e = 3], [m = 7]. *)
Definition default_config : Config :=
  {| cfg_p := 3; cfg_q := 5; cfg_e := 3; cfg_m := 7 |}.

(** The [print] statements of the script, with the values they format. *)
Inductive line : Type :=
| PrintKey (p q N phi e : Z)
| PrintMessage (m c : Z)
| PrintShorSuccess (a b : Z)
| PrintShorUnavailable
| PrintFallbackNote
| PrintFactors (a b : Z)
| PrintRecovered (m_rec : Z)
| PrintVerification (ok : bool).

(** Which branch of line 69 produced the factors. *)
Inductive source : Type :=
| Quantum
| Fallback.

(** Everything a completed run computed. *)
Record Report : Type := {
  rep_N : Z;
  rep_c : Z;
  rep_source : source;
  rep_factors : Z * Z;
  rep_phi_rec : Z;
  rep_d_rec : Z;
  rep_m_rec : Z;
  rep_ok : bool
}.

(** ** The monad of the script: output, then a value or an exception *)

Definition script (A : Type) : Type := list line * res A.

Definition sret {A : Type} (a : A) : script A := ([], Ok a).

Definition sbind {A B : Type} (s : script A) (k : A -> script B) : script B :=
  match s with
  | (out, Ok a) => let '(out', r) := k a in (out ++ out', r)
  | (out, Raise e) => (out, Raise e)
  end.

Definition print (l : line) : script unit := ([l], Ok tt).

Definition lift {A : Type} (r : res A) : script A := ([], r).

Definition output {A : Type} (s : script A) : list line := fst s.

Definition outcome_of {A : Type} (s : script A) : res A := snd s.

Notation "x <- s ;; k" := (sbind s (fun x => k))
  (at level 61, s at next level, right associativity) : script_scope.
Notation "' p <- s ;; k" := (sbind s (fun p => k))
  (at level 61, p pattern, s at next level, right associativity) : script_scope.
Notation "s ;; k" := (sbind s (fun _ => k))
  (at level 61, right associativity) : script_scope.

#[local] Open Scope script_scope.

(** ** The stages *)

(** Line 12: [N = p * q]. *)
Definition modulus (cfg : Config) : Z := cfg_p cfg * cfg_q cfg.

(** Line 13: [phi = (p - 1) * (q - 1)]. *)
Definition totient (cfg : Config) : Z := (cfg_p cfg - 1) * (cfg_q cfg - 1).

(** Line 18: [c = pow(m, e, N)]. *)
Definition encrypt (cfg : Config) : res Z :=
  py_pow (cfg_m cfg) (cfg_e cfg) (modulus cfg).

(** Lines 60-88: the library, then trial division, with what each branch
    prints; [RuntimeError] when neither finds a pair. *)
Definition find_factors (env : QiskitEnv) (N : Z) : script (source * (Z * Z)) :=
  found <- lift (quantum_factor env N) ;;
  match found with
  | Some (a, b) =>
      print (PrintShorSuccess a b) ;;
      sret (Quantum, (a, b))
  | None =>
      print PrintShorUnavailable ;;
      print PrintFallbackNote ;;
      found <- lift (trivial_factor N) ;;
      match found with
      | Some (a, b) =>
          print (PrintFactors a b) ;;
          sret (Fallback, (a, b))
      | None => lift (Raise RuntimeError)
      end
  end.

(** Line 94: [phi_rec = (p_rec - 1) * (q_rec - 1)]. *)
Definition phi_rec (found_factors : Z * Z) : Z :=
  (fst found_factors - 1) * (snd found_factors - 1).

(** Line 109: [d_rec = modinv(e, phi_rec)]. *)
Definition d_rec (cfg : Config) (found_factors : Z * Z) : res Z :=
  modinv (cfg_e cfg) (phi_rec found_factors).

(** Line 110: [m_rec = pow(c, d_rec, N)]. *)
Definition decrypt (N c d : Z) : res Z := py_pow c d N.

(** The whole script. *)
Definition run (cfg : Config) (env : QiskitEnv) : script Report :=
  let N := modulus cfg in
  c <- lift (encrypt cfg) ;;
  print (PrintKey (cfg_p cfg) (cfg_q cfg) N (totient cfg) (cfg_e cfg)) ;;
  print (PrintMessage (cfg_m cfg) c) ;;
  '(src, found_factors) <- find_factors env N ;;
  d <- lift (d_rec cfg found_factors) ;;
  m' <- lift (decrypt N c d) ;;
  print (PrintRecovered m') ;;
  print (PrintVerification (m' =? cfg_m cfg)) ;;
  sret {| rep_N := N; rep_c := c; rep_source := src;
          rep_factors := found_factors; rep_phi_rec := phi_rec found_factors;
          rep_d_rec := d; rep_m_rec := m'; rep_ok := (m' =? cfg_m cfg) |}.

(** An environment without the library. *)
Definition no_library : QiskitEnv :=
  {| modern := missing_path; legacy := missing_path |}.

(** An RSA key as the comments of lines 11-15 describe it. *)
Record valid_key (cfg : Config) : Prop := {
  vk_p : Z.prime (cfg_p cfg);
  vk_q : Z.prime (cfg_q cfg);
  vk_distinct : cfg_p cfg <> cfg_q cfg;
  vk_e_pos : 0 < cfg_e cfg;
  vk_e_coprime : Z.gcd (cfg_e cfg) (totient cfg) = 1;
  vk_m : 0 <= cfg_m cfg < modulus cfg
}.

(** ** Laws of the monad *)

Lemma sbind_ret_l {A B : Type} (a : A) (k : A -> script B) :
  sbind (sret a) k = k a.
Proof. unfold sbind, sret. now destruct (k a). Qed.

Lemma sbind_lift_ok {A B : Type} (a : A) (k : A -> script B) :
  sbind (lift (Ok a)) k = k a.
Proof. apply sbind_ret_l. Qed.

Lemma sbind_lift_raise {A B : Type} (e : exn) (k : A -> script B) :
  sbind (lift (Raise e)) k = ([], Raise e).
Proof. reflexivity. Qed.

Lemma sbind_print {B : Type} (l : line) (k : unit -> script B) :
  sbind (print l) k = (l :: fst (k tt), snd (k tt)).
Proof. unfold sbind, print. now destruct (k tt). Qed.

Lemma sbind_ret_r {A : Type} (s : script A) : sbind s sret = s.
Proof.
  destruct s as [out [a|e]]; simpl; [|reflexivity]. now rewrite app_nil_r.
Qed.

Lemma sbind_assoc {A B C : Type} (s : script A) (k : A -> script B)
  (h : B -> script C) :
  sbind (sbind s k) h = sbind s (fun a => sbind (k a) h).
Proof.
  destruct s as [out [a|e]]; simpl; [|reflexivity].
  destruct (k a) as [out1 [b|e]]; simpl; [|reflexivity].
  destruct (h b) as [out2 r]. now rewrite app_assoc.
Qed.

Lemma sbind_pair_ok {A B : Type} (out : list line) (a : A)
  (k : A -> script B) :
  sbind (out, Ok a) k = (out ++ fst (k a), snd (k a)).
Proof. unfold sbind. now destruct (k a). Qed.

Lemma sbind_pair_raise {A B : Type} (out : list line) (e : exn)
  (k : A -> script B) :
  sbind (out, Raise e) k = (out, Raise e).
Proof. reflexivity. Qed.

#[export] Hint Rewrite @sbind_ret_l @sbind_lift_ok @sbind_lift_raise
  @sbind_print @sbind_pair_ok @sbind_pair_raise : shor.

(** Runs the statements whose results are known. *)
Ltac script_simpl := repeat (autorewrite with shor; cbn [fst snd app]).

(** ** The script, branch by branch *)

(** Lines 20-21. *)
Definition key_lines (cfg : Config) (c : Z) : list line :=
  [PrintKey (cfg_p cfg) (cfg_q cfg) (modulus cfg) (totient cfg) (cfg_e cfg);
   PrintMessage (cfg_m cfg) c].

(** Lines 72-73. *)
Definition fallback_lines : list line := [PrintShorUnavailable; PrintFallbackNote].

(** Lines 112-113. *)
Definition final_lines (cfg : Config) (m' : Z) : list line :=
  [PrintRecovered m'; PrintVerification (m' =? cfg_m cfg)].

(** Every way [find_factors] can go. *)
Lemma find_factors_cases (env : QiskitEnv) (N : Z) :
  find_factors env N =
  match quantum_factor env N with
  | Raise e => ([], Raise e)
  | Ok (Some (a, b)) => ([PrintShorSuccess a b], Ok (Quantum, (a, b)))
  | Ok None =>
      match trivial_factor N with
      | Raise e => (fallback_lines, Raise e)
      | Ok (Some (a, b)) =>
          (fallback_lines ++ [PrintFactors a b], Ok (Fallback, (a, b)))
      | Ok None => (fallback_lines, Raise RuntimeError)
      end
  end.
Proof.
  unfold find_factors.
  destruct (quantum_factor env N) as [[[a b]|]|e]; try reflexivity.
  destruct (trivial_factor N) as [[[a b]|]|e]; reflexivity.
Qed.

(** The tail of the script once the factors are known: lines 93-113. *)
Definition finish (cfg : Config) (c : Z) (src : source) (ff : Z * Z)
  : script Report :=
  d <- lift (d_rec cfg ff) ;;
  m' <- lift (decrypt (modulus cfg) c d) ;;
  print (PrintRecovered m') ;;
  print (PrintVerification (m' =? cfg_m cfg)) ;;
  sret {| rep_N := modulus cfg; rep_c := c; rep_source := src;
          rep_factors := ff; rep_phi_rec := phi_rec ff;
          rep_d_rec := d; rep_m_rec := m'; rep_ok := (m' =? cfg_m cfg) |}.

(** [run] is encryption, the two lines of the key, factoring, the tail. *)
Lemma run_stages (cfg : Config) (env : QiskitEnv) :
  run cfg env =
  (c <- lift (encrypt cfg) ;;
   print (PrintKey (cfg_p cfg) (cfg_q cfg) (modulus cfg) (totient cfg)
            (cfg_e cfg)) ;;
   print (PrintMessage (cfg_m cfg) c) ;;
   '(src, ff) <- find_factors env (modulus cfg) ;;
   finish cfg c src ff).
Proof. reflexivity. Qed.

(** A run whose stages all succeed. *)
Lemma run_success (cfg : Config) (env : QiskitEnv) (c d m' : Z)
  (out : list line) (src : source) (ff : Z * Z) :
  encrypt cfg = Ok c ->
  find_factors env (modulus cfg) = (out, Ok (src, ff)) ->
  d_rec cfg ff = Ok d ->
  decrypt (modulus cfg) c d = Ok m' ->
  run cfg env =
  (key_lines cfg c ++ out ++ final_lines cfg m',
   Ok {| rep_N := modulus cfg; rep_c := c; rep_source := src;
         rep_factors := ff; rep_phi_rec := phi_rec ff;
         rep_d_rec := d; rep_m_rec := m'; rep_ok := (m' =? cfg_m cfg) |}).
Proof.
  intros Hc Hf Hd Hm. rewrite run_stages, Hc. script_simpl.
  rewrite Hf. script_simpl. unfold finish. rewrite Hd. script_simpl.
  rewrite Hm. script_simpl. reflexivity.
Qed.

(** A run in which factoring raises stops after the output of that stage. *)
Lemma run_factoring_raises (cfg : Config) (env : QiskitEnv) (c : Z)
  (out : list line) (e : exn) :
  encrypt cfg = Ok c ->
  find_factors env (modulus cfg) = (out, Raise e) ->
  run cfg env = (key_lines cfg c ++ out, Raise e).
Proof.
  intros Hc Hf. rewrite run_stages, Hc. script_simpl. rewrite Hf.
  script_simpl. reflexivity.
Qed.

(** A run in which encryption raises prints nothing. *)
Lemma run_encrypt_raises (cfg : Config) (env : QiskitEnv) (e : exn) :
  encrypt cfg = Raise e -> run cfg env = ([], Raise e).
Proof. intros Hc. rewrite run_stages, Hc. script_simpl. reflexivity. Qed.

(** A run in which the private exponent does not exist stops after the
    factors were announced. *)
Lemma run_modinv_raises (cfg : Config) (env : QiskitEnv) (c : Z)
  (out : list line) (src : source) (ff : Z * Z) (e : exn) :
  encrypt cfg = Ok c ->
  find_factors env (modulus cfg) = (out, Ok (src, ff)) ->
  d_rec cfg ff = Raise e ->
  run cfg env = (key_lines cfg c ++ out, Raise e).
Proof.
  intros Hc Hf Hd. rewrite run_stages, Hc. script_simpl. rewrite Hf.
  script_simpl. unfold finish. rewrite Hd. script_simpl.
  now rewrite app_nil_r.
Qed.

(** ** Valid keys *)

Section ValidKey.

Variable cfg : Config.
Hypothesis Hk : valid_key cfg.

Lemma valid_primes_ge_2 : 2 <= cfg_p cfg /\ 2 <= cfg_q cfg.
Proof. destruct Hk. split; now apply Z.prime_ge_2. Qed.

Lemma valid_modulus_ge_6 : 6 <= modulus cfg.
Proof.
  pose proof valid_primes_ge_2. pose proof (vk_distinct cfg Hk).
  unfold modulus. nia.
Qed.

Lemma valid_totient_ge_2 : 2 <= totient cfg.
Proof.
  pose proof valid_primes_ge_2. pose proof (vk_distinct cfg Hk).
  unfold totient. nia.
Qed.

(** Line 18 does not raise and computes [m^e mod N]. *)
Lemma encrypt_valid :
  encrypt cfg = Ok (cfg_m cfg ^ cfg_e cfg mod modulus cfg).
Proof.
  pose proof valid_modulus_ge_6. pose proof (vk_e_pos cfg Hk).
  unfold encrypt. apply py_pow_nonneg; lia.
Qed.

(** The totient recomputed on line 94 is the one of line 13. *)
Lemma phi_rec_valid (a b : Z) :
  nontrivial_factors (modulus cfg) a b -> phi_rec (a, b) = totient cfg.
Proof.
  intros Hf. destruct Hk. unfold phi_rec; simpl.
  now apply (totient_recovered (cfg_p cfg) (cfg_q cfg)).
Qed.

(** From any non-trivial factorisation of [N], line 109 computes an
    inverse of [e] modulo the true totient. *)
Lemma d_rec_valid (a b : Z) :
  nontrivial_factors (modulus cfg) a b ->
  exists d, d_rec cfg (a, b) = Ok d /\ 0 <= d < totient cfg /\
            (cfg_e cfg * d) mod totient cfg = 1.
Proof.
  intros Hf. pose proof valid_totient_ge_2 as Hphi.
  unfold d_rec. rewrite (phi_rec_valid a b Hf). destruct Hk.
  destruct (modinv_correct (cfg_e cfg) (totient cfg)) as [d [Hd [Hr Hi]]];
    try lia; try assumption.
  exists d. rewrite (Z.mod_small 1) in Hi by lia. auto.
Qed.

(** With such an exponent, decrypting the ciphertext of any message below
    [N] gives the message back. *)
Lemma decrypt_message (m d : Z) :
  0 <= m < modulus cfg -> 0 <= d -> (cfg_e cfg * d) mod totient cfg = 1 ->
  decrypt (modulus cfg) (m ^ cfg_e cfg mod modulus cfg) d = Ok m.
Proof.
  intros Hm Hd He. pose proof valid_modulus_ge_6. destruct Hk.
  unfold decrypt. rewrite py_pow_nonneg by lia. f_equal.
  unfold modulus, totient in *. rewrite rsa_roundtrip by (auto; lia).
  apply Z.mod_small; assumption.
Qed.

(** Line 110 recovers the message of line 15. *)
Lemma decrypt_valid (d : Z) :
  0 <= d -> (cfg_e cfg * d) mod totient cfg = 1 ->
  decrypt (modulus cfg) (cfg_m cfg ^ cfg_e cfg mod modulus cfg) d
  = Ok (cfg_m cfg).
Proof. intros Hd He. apply decrypt_message; auto. apply Hk. Qed.

(** The modulus of a valid key is composite: trial division factors it
    up to 2^104. *)
Lemma valid_within_reach : modulus cfg < 2 ^ 104 -> within_reach (modulus cfg).
Proof.
  intros HN. pose proof valid_primes_ge_2. split; [assumption|].
  exists (cfg_p cfg). unfold modulus.
  split; [nia | exists (cfg_q cfg); ring].
Qed.

(** Trial division factors the modulus of a valid key. *)
Lemma trivial_factor_valid :
  modulus cfg < 2 ^ 104 ->
  exists a b, trivial_factor (modulus cfg) = Ok (Some (a, b)) /\
              nontrivial_factors (modulus cfg) a b.
Proof.
  intros HN.
  destruct (trivial_factor_within_reach _ (valid_within_reach HN))
    as (a & b & Hr).
  exists a, b. split; [assumption | now apply trivial_factor_sound].
Qed.

End ValidKey.

(** ** Against the contract of the oracle *)

Section AnyOracle.

Context (O : FactorOracle).
Variable cfg : Config.
Hypothesis Hk : valid_key cfg.

(** Claim C2. Any factoring strategy that honours the contract
    [FactorOracle] breaks a valid key whose modulus it supports: it
    returns a pair, and from that pair lines 94-110 compute a private
    exponent that decrypts the ciphertext of line 18 to the message. *)
Theorem oracle_breaks_key :
  supports (modulus cfg) ->
  exists a b c d,
    factor (modulus cfg) = Ok (Some (a, b)) /\
    encrypt cfg = Ok c /\ d_rec cfg (a, b) = Ok d /\
    decrypt (modulus cfg) c d = Ok (cfg_m cfg).
Proof.
  intros Hs. destruct (factor_complete _ Hs) as (a & b & Hf).
  pose proof (factor_sound _ _ _ Hf) as Hnt.
  destruct (d_rec_valid cfg Hk a b Hnt) as [d [Hd [Hr Hi]]].
  exists a, b, (cfg_m cfg ^ cfg_e cfg mod modulus cfg), d.
  repeat split; auto using encrypt_valid.
  apply decrypt_valid; auto; lia.
Qed.

End AnyOracle.

(** ** The key pair *)

(** Claim C3. Encryption and decryption with the reconstructed key are
    inverse: for a valid key, lines 94 and 109 applied to the true factors
    give a private exponent [d] in [[0, phi)], and for every message
    [0 <= m < N], decrypting [pow(m, e, N)] with [d] returns [m]. *)
Theorem key_roundtrip (cfg : Config) :
  valid_key cfg ->
  exists d, d_rec cfg (cfg_p cfg, cfg_q cfg) = Ok d /\ 0 <= d < totient cfg /\
    forall m, 0 <= m < modulus cfg ->
      py_pow m (cfg_e cfg) (modulus cfg) = Ok (m ^ cfg_e cfg mod modulus cfg) /\
      decrypt (modulus cfg) (m ^ cfg_e cfg mod modulus cfg) d = Ok m.
Proof.
  intros Hk. pose proof (valid_primes_ge_2 cfg Hk) as [Hp Hq].
  destruct (d_rec_valid cfg Hk (cfg_p cfg) (cfg_q cfg)) as (d & Hd & Hr & Hi);
    [unfold nontrivial_factors, modulus; lia|].
  exists d. repeat split; try assumption; try lia.
  - apply py_pow_nonneg; [pose proof (valid_modulus_ge_6 cfg Hk); lia|].
    pose proof (vk_e_pos cfg Hk). lia.
  - apply (decrypt_message cfg Hk); auto; lia.
Qed.

(** ** Runs on valid keys *)

(** The factoring stage on the modulus of a valid key ends with a
    non-trivial factorisation as soon as the candidate loop does not
    raise. *)
Lemma find_factors_valid (cfg : Config) (env : QiskitEnv)
  (found : option (Z * Z)) :
  valid_key cfg -> modulus cfg < 2 ^ 104 ->
  quantum_factor env (modulus cfg) = Ok found ->
  exists out src a b,
    find_factors env (modulus cfg) = (out, Ok (src, (a, b))) /\
    nontrivial_factors (modulus cfg) a b /\
    (found = None -> src = Fallback) /\
    (found <> None -> src = Quantum /\ found = Some (a, b)).
Proof.
  intros Hk HN Hq. rewrite find_factors_cases, Hq.
  destruct found as [[a b]|].
  - exists [PrintShorSuccess a b], Quantum, a, b.
    split; [reflexivity|]. split; [now apply (quantum_factor_sound env)|].
    split; [discriminate | auto].
  - destruct (trivial_factor_valid cfg Hk HN) as [a [b [Ht Hf]]]. rewrite Ht.
    exists (fallback_lines ++ [PrintFactors a b]), Fallback, a, b.
    split; [reflexivity|]. split; [assumption|]. split; [auto | congruence].
Qed.

(** Claim C1. On a valid key (distinct primes [p], [q], [e > 0] coprime
    to [(p-1)*(q-1)], [0 <= m < N]) with a modulus below 2^104, whatever
    the library answers as long as its candidates unpack, the script ends
    normally, its last line reports success, the recovered message is [m],
    the recomputed totient is [phi] and [d_rec] is the inverse of [e]
    modulo [phi] in [[0, phi)]. *)
Theorem run_breaks_valid_key (cfg : Config) (env : QiskitEnv) (found : option (Z * Z)) :
  valid_key cfg -> modulus cfg < 2 ^ 104 ->
  quantum_factor env (modulus cfg) = Ok found ->
  exists out r,
    run cfg env = (out ++ [PrintVerification true], Ok r) /\
    rep_ok r = true /\ rep_m_rec r = cfg_m cfg /\
    rep_phi_rec r = totient cfg /\
    nontrivial_factors (modulus cfg) (fst (rep_factors r)) (snd (rep_factors r)) /\
    0 <= rep_d_rec r < totient cfg /\
    (cfg_e cfg * rep_d_rec r) mod totient cfg = 1.
Proof.
  intros Hk HN Hq.
  destruct (find_factors_valid cfg env found Hk HN Hq)
    as (out & src & a & b & Hf & Hnt & _).
  destruct (d_rec_valid cfg Hk a b Hnt) as (d & Hd & Hr & Hi).
  pose proof (decrypt_valid cfg Hk d ltac:(lia) Hi) as Hm.
  exists (key_lines cfg (cfg_m cfg ^ cfg_e cfg mod modulus cfg) ++ out
          ++ [PrintRecovered (cfg_m cfg)]).
  eexists. split.
  - rewrite (run_success cfg env _ d _ out src (a, b)
               (encrypt_valid cfg Hk) Hf Hd Hm).
    unfold final_lines. rewrite Z.eqb_refl, <- !app_assoc. reflexivity.
  - simpl. rewrite (phi_rec_valid cfg Hk a b Hnt). auto 7.
Qed.

(** Claim C30. When the candidate loop raises, the exception is the
    [ValueError] of the unpacking and the script dies with it right after
    the two lines of the key: no fallback is attempted. *)
Theorem run_malformed_candidate (cfg : Config) (env : QiskitEnv) (c : Z) (e : exn) :
  encrypt cfg = Ok c ->
  quantum_factor env (modulus cfg) = Raise e ->
  e = ValueError /\ run cfg env = (key_lines cfg c, Raise ValueError).
Proof.
  intros Hc Hq. pose proof (quantum_factor_Raise _ _ _ Hq) as ->.
  split; [reflexivity|].
  rewrite (run_factoring_raises cfg env c [] ValueError Hc).
  - now rewrite app_nil_r.
  - now rewrite find_factors_cases, Hq.
Qed.

(** Claim C29. When the library yields no pair and the modulus is 1 or a
    prime below 2^104, the script prints the key, the fallback notice, and
    dies with the [RuntimeError] of line 88. *)
Theorem run_no_factors (cfg : Config) (env : QiskitEnv) :
  0 <= cfg_e cfg -> 0 < modulus cfg < 2 ^ 104 ->
  modulus cfg = 1 \/ Z.prime (modulus cfg) ->
  quantum_factor env (modulus cfg) = Ok None ->
  exists c, encrypt cfg = Ok c /\
    run cfg env = (key_lines cfg c ++ fallback_lines, Raise RuntimeError).
Proof.
  intros He HN Hp Hq. unfold encrypt at 1. rewrite py_pow_nonneg by lia.
  eexists; split; [reflexivity|].
  apply run_factoring_raises; [apply py_pow_nonneg; lia|].
  rewrite find_factors_cases, Hq.
  replace (trivial_factor (modulus cfg)) with (@Ok (option (Z * Z)) None);
    [reflexivity|].
  symmetry. apply trivial_factor_None; [lia|].
  destruct Hp as [-> | [_ Hp]]; [intros d Hd; lia | exact Hp].
Qed.

Lemma prime_7 : Z.prime 7.
Proof. apply trial_division_prime; [lia | reflexivity]. Qed.

(** Claim C31. A valid pair from the library is used as it is: the
    script announces it, runs lines 93-113 on it and never calls
    [trivial_factor]. *)
Theorem run_prefers_library (cfg : Config) (env : QiskitEnv) (c a b : Z) :
  encrypt cfg = Ok c ->
  quantum_factor env (modulus cfg) = Ok (Some (a, b)) ->
  run cfg env =
  (let '(out, r) := finish cfg c Quantum (a, b) in
   (key_lines cfg c ++ PrintShorSuccess a b :: out, r)).
Proof.
  intros Hc Hq. rewrite run_stages, Hc, find_factors_cases, Hq.
  script_simpl. now destruct (finish cfg c Quantum (a, b)).
Qed.

(** ** The scenario of the script *)

Lemma prime_5 : Z.prime 5.
Proof. apply trial_division_prime; [lia | reflexivity]. Qed.

Lemma default_config_valid : valid_key default_config.
Proof.
  constructor.
  - exact Z.prime_3.
  - exact prime_5.
  - discriminate.
  - reflexivity.
  - reflexivity.
  - unfold modulus; simpl; lia.
Qed.

(** A key whose modulus, 9007203214164403, is above 2^52. *)
Definition large_config : Config :=
  {| cfg_p := 67108879; cfg_q := 134217757; cfg_e := 5; cfg_m := 42 |}.

Lemma large_config_valid : valid_key large_config.
Proof.
  constructor.
  - apply trial_division_prime; [simpl; lia | vm_compute; reflexivity].
  - apply trial_division_prime; [simpl; lia | vm_compute; reflexivity].
  - discriminate.
  - reflexivity.
  - reflexivity.
  - unfold modulus; simpl; lia.
Qed.

(** The library answers with two useless candidates and the pair. *)
Definition library_with_noise : QiskitEnv :=
  {| modern := missing_path;
     legacy := working_path [[1; 15]; [15; 1]; [3; 5]] |}.

(** The library answers with a candidate of three elements. *)
Definition library_malformed : QiskitEnv :=
  {| modern := working_path [[1; 15]; [15; 1; 3]; [5; 3]];
     legacy := missing_path |}.

(** A test of the model on the script as written ([p = 3], [q = 5],
    [e = 3], [m = 7]): without the library it prints the key, the ciphertext 13, the fallback
    notice, the factors 3 and 5, the recovered message 7 and success, with
    [phi_rec = 8] and [d_rec = 3]; with a library that answers
    [[1,15], [15,1], [3,5]] on its legacy path it announces the pair
    [(3, 5)] instead and ends the same way. *)
Example run_scenario :
  run default_config no_library =
  ([PrintKey 3 5 15 8 3; PrintMessage 7 13; PrintShorUnavailable;
    PrintFallbackNote; PrintFactors 3 5; PrintRecovered 7;
    PrintVerification true],
   Ok {| rep_N := 15; rep_c := 13; rep_source := Fallback;
         rep_factors := (3, 5); rep_phi_rec := 8; rep_d_rec := 3;
         rep_m_rec := 7; rep_ok := true |}) /\
  run default_config library_with_noise =
  ([PrintKey 3 5 15 8 3; PrintMessage 7 13; PrintShorSuccess 3 5;
    PrintRecovered 7; PrintVerification true],
   Ok {| rep_N := 15; rep_c := 13; rep_source := Quantum;
         rep_factors := (3, 5); rep_phi_rec := 8; rep_d_rec := 3;
         rep_m_rec := 7; rep_ok := true |}).
Proof. split; vm_compute; reflexivity. Qed.

(** The hypothesis [p <> q] matters: with [p = q = 3], [e = 3]
    and [m = 3] the script runs to its end, recovers 0 instead of 3 and
    prints failure, because [(p-1)*(q-1)] is not the totient of [p*p]. *)
Example run_square_modulus_fails :
  run {| cfg_p := 3; cfg_q := 3; cfg_e := 3; cfg_m := 3 |} no_library =
  ([PrintKey 3 3 9 4 3; PrintMessage 3 0; PrintShorUnavailable;
    PrintFallbackNote; PrintFactors 3 3; PrintRecovered 0;
    PrintVerification false],
   Ok {| rep_N := 9; rep_c := 0; rep_source := Fallback;
         rep_factors := (3, 3); rep_phi_rec := 4; rep_d_rec := 3;
         rep_m_rec := 0; rep_ok := false |}).
Proof. vm_compute. reflexivity. Qed.

(** Claim C36. For a non-zero modulus and non-negative exponents, lines 18
    and 110 compute what square-and-multiply computes, and the ciphertext
    and the recovered message lie in [[0, N)] when [N > 0]. *)
Theorem encrypt_decrypt_modexp (cfg : Config) (c d : Z) :
  modulus cfg <> 0 -> 0 <= cfg_e cfg -> 0 <= d ->
  encrypt cfg = Ok (modexp (cfg_m cfg) (cfg_e cfg) (modulus cfg)) /\
  decrypt (modulus cfg) c d = Ok (modexp c d (modulus cfg)) /\
  (0 < modulus cfg ->
   0 <= modexp (cfg_m cfg) (cfg_e cfg) (modulus cfg) < modulus cfg /\
   0 <= modexp c d (modulus cfg) < modulus cfg).
Proof.
  intros HN He Hd. unfold encrypt, decrypt.
  rewrite !py_pow_modexp by assumption. repeat split;
    rewrite modexp_spec by assumption; apply Z.mod_pos_bound; assumption.
Qed.

Lemma encrypt_decrypt_modexp_witness :
  encrypt default_config = Ok (modexp 7 3 15) /\
  decrypt 15 13 3 = Ok (modexp 13 3 15) /\
  (0 < 15 -> 0 <= modexp 7 3 15 < 15 /\ 0 <= modexp 13 3 15 < 15).
Proof.
  apply (encrypt_decrypt_modexp default_config 13 3);
    [vm_compute; discriminate | simpl; lia | lia].
Defined.

(** ** Witnesses *)

Lemma key_roundtrip_witness :
  exists d, d_rec default_config (3, 5) = Ok d /\
    0 <= d < totient default_config /\
    forall m, 0 <= m < modulus default_config ->
      py_pow m 3 (modulus default_config)
        = Ok (m ^ 3 mod modulus default_config) /\
      decrypt (modulus default_config) (m ^ 3 mod modulus default_config) d
        = Ok m.
Proof. apply (key_roundtrip default_config). exact default_config_valid. Defined.

Lemma run_breaks_valid_key_witness :
  exists out r,
    run large_config no_library = (out ++ [PrintVerification true], Ok r) /\
    rep_ok r = true /\ rep_m_rec r = cfg_m large_config /\
    rep_phi_rec r = totient large_config /\
    nontrivial_factors (modulus large_config)
      (fst (rep_factors r)) (snd (rep_factors r)) /\
    0 <= rep_d_rec r < totient large_config /\
    (cfg_e large_config * rep_d_rec r) mod totient large_config = 1.
Proof.
  apply (run_breaks_valid_key large_config no_library None).
  - exact large_config_valid.
  - reflexivity.
  - reflexivity.
Defined.

Lemma oracle_breaks_key_witness :
  exists a b c d,
    @factor (script_oracle library_with_noise) (modulus default_config)
      = Ok (Some (a, b)) /\
    encrypt default_config = Ok c /\ d_rec default_config (a, b) = Ok d /\
    decrypt (modulus default_config) c d = Ok (cfg_m default_config).
Proof.
  apply (oracle_breaks_key (script_oracle library_with_noise) default_config
           default_config_valid).
  left. exists 3, 5. reflexivity.
Defined.

Lemma run_malformed_candidate_witness :
  ValueError = ValueError /\
  run default_config library_malformed =
  (key_lines default_config 13, Raise ValueError).
Proof.
  apply (run_malformed_candidate default_config library_malformed 13 ValueError);
    reflexivity.
Defined.

Lemma run_no_factors_witness :
  exists c, encrypt {| cfg_p := 1; cfg_q := 7; cfg_e := 3; cfg_m := 3 |} = Ok c /\
    run {| cfg_p := 1; cfg_q := 7; cfg_e := 3; cfg_m := 3 |} no_library =
    (key_lines {| cfg_p := 1; cfg_q := 7; cfg_e := 3; cfg_m := 3 |} c
       ++ fallback_lines, Raise RuntimeError).
Proof.
  apply (run_no_factors {| cfg_p := 1; cfg_q := 7; cfg_e := 3; cfg_m := 3 |}
           no_library).
  - simpl; lia.
  - unfold modulus; simpl; lia.
  - right. exact prime_7.
  - reflexivity.
Defined.

Lemma run_prefers_library_witness :
  run default_config library_with_noise =
  (let '(out, r) := finish default_config 13 Quantum (3, 5) in
   (key_lines default_config 13 ++ PrintShorSuccess 3 5 :: out, r)).
Proof.
  apply (run_prefers_library default_config library_with_noise 13 3 5);
    reflexivity.
Defined.
