(* ===== verification/Machine.v ===== *)
(** * The script as the state machine of the specification

    The specification describes the script as a machine that moves through
    [Initialized], [Encrypted], [Factoring], [Reconstructed], [Decrypted]
    and ends in [Verified] or [Aborted].  Here each state carries the
    variables of [src/shor.py] that are live at that point, [step] performs
    the statements between two states with the functions of [Pipeline], and
    [transition] is the same machine as a relation, one rule per arrow of
    the specification and one per statement of the script that can raise.
    The machine is built from the stage functions of [Pipeline]: it fixes
    the order of the stages, the abort points and the lines printed
    between two states.  The theorems: the run of the machine from
    [Initialized cfg] prints what [run cfg] prints and ends in the state
    that [run cfg] ends in; on a valid key every reachable state is sound
    ([state_ok]), and the only abort is the [ValueError] of line 64 when
    the candidate loop raises on the answer of the library.  Lemmas: the
    relation is the graph of [step], it is deterministic, and every state
    reaches a terminal state in at most [rank] transitions. *)

From Stdlib Require Import ZArith Znumtheory List Bool Lia.
From S2P Require Import Prelude ModArith Factor Oracle Pipeline.
Import ListNotations.
#[local] Open Scope Z_scope.
#[local] Open Scope script_scope.

(** ** States *)

Inductive state : Type :=
| Initialized (cfg : Config)
| Encrypted (cfg : Config) (c : Z)
| Factoring (cfg : Config) (c : Z) (found : option (source * (Z * Z)))
| Reconstructed (cfg : Config) (c : Z) (src : source) (ff : Z * Z) (d : Z)
| Decrypted (cfg : Config) (c : Z) (src : source) (ff : Z * Z) (d m' : Z)
| Verified (r : Report)
| Aborted (e : exn).

Definition terminal (s : state) : bool :=
  match s with
  | Verified _ | Aborted _ => true
  | _ => false
  end.

(** The number of transitions a state is away from a terminal state, at
    most. *)
Definition rank (s : state) : nat :=
  match s with
  | Initialized _ => 5
  | Encrypted _ _ => 4
  | Factoring _ _ _ => 3
  | Reconstructed _ _ _ _ _ => 2
  | Decrypted _ _ _ _ _ _ => 1
  | Verified _ | Aborted _ => 0
  end%nat.

(** The state a finished script corresponds to. *)
Definition final_state (r : res Report) : state :=
  match r with
  | Ok rep => Verified rep
  | Raise e => Aborted e
  end.

(** What the script knows at its last line. *)
Definition report (cfg : Config) (c : Z) (src : source) (ff : Z * Z)
  (d m' : Z) : Report :=
  {| rep_N := modulus cfg; rep_c := c; rep_source := src;
     rep_factors := ff; rep_phi_rec := phi_rec ff;
     rep_d_rec := d; rep_m_rec := m'; rep_ok := (m' =? cfg_m cfg) |}.

(** ** Transitions *)

(** Lines 60-86: the chain of the two factoring strategies with what it
    prints; [None] is the case in which line 88 raises. *)
Definition search_factors (env : QiskitEnv) (N : Z)
  : script (option (source * (Z * Z))) :=
  found <- lift (quantum_factor env N) ;;
  match found with
  | Some (a, b) =>
      print (PrintShorSuccess a b) ;;
      sret (Some (Quantum, (a, b)))
  | None =>
      print PrintShorUnavailable ;;
      print PrintFallbackNote ;;
      found <- lift (trivial_factor N) ;;
      match found with
      | Some (a, b) =>
          print (PrintFactors a b) ;;
          sret (Some (Fallback, (a, b)))
      | None => sret None
      end
  end.

(** One transition: the lines printed and the next state.  Terminal states
    do not move. *)
Definition step (env : QiskitEnv) (s : state) : list line * state :=
  match s with
  | Initialized cfg =>
      match encrypt cfg with
      | Ok c => (key_lines cfg c, Encrypted cfg c)
      | Raise e => ([], Aborted e)
      end
  | Encrypted cfg c =>
      match search_factors env (modulus cfg) with
      | (out, Ok found) => (out, Factoring cfg c found)
      | (out, Raise e) => (out, Aborted e)
      end
  | Factoring cfg c None => ([], Aborted RuntimeError)
  | Factoring cfg c (Some (src, ff)) =>
      match d_rec cfg ff with
      | Ok d => ([], Reconstructed cfg c src ff d)
      | Raise e => ([], Aborted e)
      end
  | Reconstructed cfg c src ff d =>
      match decrypt (modulus cfg) c d with
      | Ok m' => ([], Decrypted cfg c src ff d m')
      | Raise e => ([], Aborted e)
      end
  | Decrypted cfg c src ff d m' =>
      (final_lines cfg m', Verified (report cfg c src ff d m'))
  | Verified r => ([], Verified r)
  | Aborted e => ([], Aborted e)
  end.

(** The machine run for at most [fuel] transitions. *)
Fixpoint steps (fuel : nat) (env : QiskitEnv) (s : state) : list line * state :=
  match fuel with
  | O => ([], s)
  | S fuel' =>
      if terminal s then ([], s)
      else
        let '(out, s1) := step env s in
        let '(out', s2) := steps fuel' env s1 in
        (out ++ out', s2)
  end.

(** The machine as a relation: one rule per arrow of the specification,
    and one per statement that can raise. *)
Inductive transition (env : QiskitEnv) : state -> list line -> state -> Prop :=
| t_encrypt cfg c :
    encrypt cfg = Ok c ->
    transition env (Initialized cfg) (key_lines cfg c) (Encrypted cfg c)
| t_encrypt_abort cfg e :
    encrypt cfg = Raise e ->
    transition env (Initialized cfg) [] (Aborted e)
| t_factor cfg c out found :
    search_factors env (modulus cfg) = (out, Ok found) ->
    transition env (Encrypted cfg c) out (Factoring cfg c found)
| t_factor_abort cfg c out e :
    search_factors env (modulus cfg) = (out, Raise e) ->
    transition env (Encrypted cfg c) out (Aborted e)
| t_unavailable cfg c :
    transition env (Factoring cfg c None) [] (Aborted RuntimeError)
| t_reconstruct cfg c src ff d :
    d_rec cfg ff = Ok d ->
    transition env (Factoring cfg c (Some (src, ff))) []
      (Reconstructed cfg c src ff d)
| t_reconstruct_abort cfg c src ff e :
    d_rec cfg ff = Raise e ->
    transition env (Factoring cfg c (Some (src, ff))) [] (Aborted e)
| t_decrypt cfg c src ff d m' :
    decrypt (modulus cfg) c d = Ok m' ->
    transition env (Reconstructed cfg c src ff d) []
      (Decrypted cfg c src ff d m')
| t_decrypt_abort cfg c src ff d e :
    decrypt (modulus cfg) c d = Raise e ->
    transition env (Reconstructed cfg c src ff d) [] (Aborted e)
| t_verify cfg c src ff d m' :
    transition env (Decrypted cfg c src ff d m') (final_lines cfg m')
      (Verified (report cfg c src ff d m')).

(** Sequences of transitions, with the lines they print in order. *)
Inductive execution (env : QiskitEnv) : state -> list line -> state -> Prop :=
| exec_done s : execution env s [] s
| exec_step s out s1 out' s2 :
    transition env s out s1 -> execution env s1 out' s2 ->
    execution env s (out ++ out') s2.

(** What holds of the states a valid key [cfg0] goes through: the
    ciphertext is the one of line 18, the factors are non-trivial, the
    exponent inverts [e], the recovered message is [m]; the only abort is
    the [ValueError] of line 64, on a candidate of the library that does
    not unpack. *)
Definition state_ok (env : QiskitEnv) (cfg0 : Config) (s : state) : Prop :=
  match s with
  | Initialized cfg => cfg = cfg0
  | Encrypted cfg c => cfg = cfg0 /\ encrypt cfg0 = Ok c
  | Factoring cfg c found =>
      cfg = cfg0 /\ encrypt cfg0 = Ok c /\
      exists src a b, found = Some (src, (a, b)) /\
                      nontrivial_factors (modulus cfg0) a b
  | Reconstructed cfg c src ff d =>
      cfg = cfg0 /\ encrypt cfg0 = Ok c /\
      nontrivial_factors (modulus cfg0) (fst ff) (snd ff) /\
      0 <= d < totient cfg0 /\ (cfg_e cfg0 * d) mod totient cfg0 = 1
  | Decrypted cfg c src ff d m' =>
      cfg = cfg0 /\ m' = cfg_m cfg0 /\
      nontrivial_factors (modulus cfg0) (fst ff) (snd ff) /\
      (cfg_e cfg0 * d) mod totient cfg0 = 1
  | Verified r =>
      rep_ok r = true /\ rep_m_rec r = cfg_m cfg0 /\
      rep_phi_rec r = totient cfg0 /\
      (cfg_e cfg0 * rep_d_rec r) mod totient cfg0 = 1
  | Aborted e =>
      e = ValueError /\
      choose_factors (modulus cfg0)
        (try_qiskit_shor_factor env (modulus cfg0)) = Raise ValueError
  end.

#[export] Hint Constructors transition execution : shor.

(** ** The relation and the function *)

Section Machine.

Variable env : QiskitEnv.

(** A transition is a step of a state that is not terminal. *)
Lemma transition_step (s s' : state) (out : list line) :
  transition env s out s' <-> terminal s = false /\ step env s = (out, s').
Proof.
  split.
  - intros H; destruct H; simpl; rewrite ?H; auto.
  - intros [Ht Hs]. destruct s as [cfg|cfg c|cfg c [[src ff]|]| | | |];
      simpl in Ht, Hs; try discriminate.
    + destruct (encrypt cfg) eqn:E; inversion Hs; subst; auto with shor.
    + destruct (search_factors env (modulus cfg)) as [o [f|e]] eqn:E;
        inversion Hs; subst; auto with shor.
    + destruct (d_rec cfg ff) eqn:E; inversion Hs; subst; auto with shor.
    + inversion Hs; subst; auto with shor.
    + destruct (decrypt (modulus cfg) c d) eqn:E; inversion Hs; subst;
        auto with shor.
    + inversion Hs; subst; auto with shor.
Qed.

(** Every transition brings the machine closer to its end. *)
Lemma transition_rank (s s' : state) (out : list line) :
  transition env s out s' -> (rank s' < rank s)%nat.
Proof. intros H; destruct H; simpl; try lia; destruct found; simpl; lia. Qed.

Lemma terminal_rank (s : state) : terminal s = true <-> rank s = 0%nat.
Proof. destruct s; simpl; split; congruence. Qed.

Lemma steps_terminal (n : nat) (s : state) :
  terminal s = true -> steps n env s = ([], s).
Proof. intros Ht. destruct n; simpl; [|rewrite Ht]; reflexivity. Qed.

Lemma steps_S (n : nat) (s : state) :
  terminal s = false ->
  steps (S n) env s =
  (fst (step env s) ++ fst (steps n env (snd (step env s))),
   snd (steps n env (snd (step env s)))).
Proof.
  intros Ht. simpl. rewrite Ht. destruct (step env s) as [o s1]; simpl.
  now destruct (steps n env s1).
Qed.

(** What [steps] computes is an execution of the machine. *)
Lemma steps_execution (n : nat) (s : state) :
  execution env s (fst (steps n env s)) (snd (steps n env s)).
Proof.
  revert s. induction n as [|n IH]; intros s; [constructor|].
  destruct (terminal s) eqn:Ht.
  - rewrite steps_terminal by assumption. constructor.
  - rewrite steps_S by assumption. simpl.
    apply exec_step with (s1 := snd (step env s)); [|apply IH].
    apply transition_step. split; [assumption|].
    now destruct (step env s).
Qed.

(** With [rank s] transitions of fuel, [steps] ends in a terminal state. *)
Lemma steps_reach_terminal (n : nat) (s : state) :
  (rank s <= n)%nat -> terminal (snd (steps n env s)) = true.
Proof.
  revert s. induction n as [|n IH]; intros s Hr.
  - apply terminal_rank. simpl. lia.
  - destruct (terminal s) eqn:Ht.
    + now rewrite steps_terminal.
    + rewrite steps_S by assumption. simpl. apply IH.
      assert (H : transition env s (fst (step env s)) (snd (step env s))).
      { apply transition_step. split; [assumption | now destruct (step env s)]. }
      apply transition_rank in H. lia.
Qed.

(** An execution that ends in a terminal state is the one [steps]
    computes. *)
Lemma execution_steps (s s' : state) (out : list line) (n : nat) :
  execution env s out s' -> terminal s' = true -> (rank s <= n)%nat ->
  steps n env s = (out, s').
Proof.
  intros H. revert n. induction H as [s|s out s1 out' s2 Ht _ IH]; intros n Hf Hr.
  - now apply steps_terminal.
  - pose proof (transition_rank _ _ _ Ht) as Hlt.
    apply transition_step in Ht. destruct Ht as [Hn Hs].
    destruct n as [|n]; [lia|]. rewrite steps_S, Hs by assumption. simpl.
    rewrite IH by (auto; lia). reflexivity.
Qed.

End Machine.

(** ** The script and the machine *)

(** Line 88 is what separates [find_factors] from the chain. *)
Lemma find_factors_search (env : QiskitEnv) (N : Z) :
  find_factors env N =
  (found <- search_factors env N ;;
   match found with
   | Some x => sret x
   | None => lift (Raise RuntimeError)
   end).
Proof.
  unfold find_factors, search_factors.
  destruct (quantum_factor env N) as [[[a b]|]|e]; try reflexivity.
  destruct (trivial_factor N) as [[[a b]|]|e]; reflexivity.
Qed.

(** The chain, case by case. *)
Lemma search_factors_cases (env : QiskitEnv) (N : Z) :
  search_factors env N =
  match quantum_factor env N with
  | Raise e => ([], Raise e)
  | Ok (Some (a, b)) => ([PrintShorSuccess a b], Ok (Some (Quantum, (a, b))))
  | Ok None =>
      match trivial_factor N with
      | Raise e => (fallback_lines, Raise e)
      | Ok (Some (a, b)) =>
          (fallback_lines ++ [PrintFactors a b], Ok (Some (Fallback, (a, b))))
      | Ok None => (fallback_lines, Ok None)
      end
  end.
Proof.
  unfold search_factors.
  destruct (quantum_factor env N) as [[[a b]|]|e]; try reflexivity.
  destruct (trivial_factor N) as [[[a b]|]|e]; reflexivity.
Qed.

(** ** Valid keys *)

Section ValidKey.

Variable env : QiskitEnv.
Variable cfg : Config.
Hypothesis Hk : valid_key cfg.
Hypothesis HN : modulus cfg < 2 ^ 104.

(** On the modulus of a valid key the chain ends with a non-trivial pair,
    or with the [ValueError] of a candidate that does not unpack. *)
Lemma search_factors_valid (out : list line)
  (r : res (option (source * (Z * Z)))) :
  search_factors env (modulus cfg) = (out, r) ->
  match r with
  | Ok (Some (_, (a, b))) => nontrivial_factors (modulus cfg) a b
  | Ok None => False
  | Raise e => e = ValueError /\ quantum_factor env (modulus cfg) = Raise e
  end.
Proof.
  rewrite search_factors_cases.
  destruct (quantum_factor env (modulus cfg)) as [[[a b]|]|e] eqn:Hq.
  - intros [= <- <-]. now apply (quantum_factor_sound env).
  - destruct (trivial_factor_valid cfg Hk HN) as (a & b & -> & Hf).
    now intros [= <- <-].
  - intros [= <- <-].
    split; [now apply (quantum_factor_Raise env (modulus cfg)) | reflexivity].
Qed.

(** Transitions preserve [state_ok]. *)
Lemma state_ok_transition (s s' : state) (out : list line) :
  state_ok env cfg s -> transition env s out s' -> state_ok env cfg s'.
Proof.
  intros Hs Ht. destruct Ht; simpl in Hs |- *.
  - subst. auto.
  - subst. rewrite (encrypt_valid cfg Hk) in H. discriminate.
  - destruct Hs as [-> Hc]. apply search_factors_valid in H.
    destruct found as [[src [a b]]|]; [|contradiction]. eauto 7.
  - destruct Hs as [-> Hc]. apply search_factors_valid in H.
    destruct H as [-> H]. auto.
  - destruct Hs as (_ & _ & src & a & b & [=] & _).
  - destruct Hs as (-> & Hc & src' & a & b & [= -> ->] & Hf).
    destruct (d_rec_valid cfg Hk a b Hf) as (d' & Hd & Hr & Hi).
    rewrite Hd in H. injection H as <-. auto.
  - destruct Hs as (-> & Hc & src' & a & b & [= -> ->] & Hf).
    destruct (d_rec_valid cfg Hk a b Hf) as (d' & Hd & _).
    rewrite Hd in H. discriminate.
  - destruct Hs as (-> & Hc & Hf & Hr & Hi).
    rewrite (encrypt_valid cfg Hk) in Hc. injection Hc as <-.
    rewrite (decrypt_valid cfg Hk d) in H by (auto; lia).
    injection H as <-. auto.
  - destruct Hs as (-> & Hc & Hf & Hr & Hi).
    rewrite (encrypt_valid cfg Hk) in Hc. injection Hc as <-.
    rewrite (decrypt_valid cfg Hk d) in H by (auto; lia). discriminate.
  - destruct Hs as (-> & -> & Hf & Hi). rewrite Z.eqb_refl.
    destruct ff as [a b]; simpl in Hf.
    rewrite (phi_rec_valid cfg Hk a b Hf). auto.
Qed.

End ValidKey.

(** ** Properties *)

(** Claim C13. The script refines the machine: run for five transitions
    from [Initialized cfg], the machine prints exactly the lines [run cfg]
    prints and stops in [Verified] with the report of the script, or in
    [Aborted] with the exception that ends the script; and that run is an
    execution of the transition relation. *)
Theorem run_refines_machine (cfg : Config) (env : QiskitEnv) :
  steps 5 env (Initialized cfg) =
    (output (run cfg env), final_state (outcome_of (run cfg env))) /\
  execution env (Initialized cfg) (output (run cfg env))
    (final_state (outcome_of (run cfg env))).
Proof.
  assert (H : steps 5 env (Initialized cfg) =
              (output (run cfg env), final_state (outcome_of (run cfg env)))).
  { rewrite run_stages, find_factors_search.
    unfold finish, output, outcome_of. cbn [steps terminal step].
    destruct (encrypt cfg) as [c|e]; [|reflexivity].
    cbn [steps terminal step sbind lift print sret app fst snd].
    destruct (search_factors env (modulus cfg)) as [out [[[src ff]|]|e]];
      cbn [steps terminal step sbind lift print sret app fst snd final_state];
      rewrite ?app_nil_r; try reflexivity.
    destruct (d_rec cfg ff) as [d|e];
      cbn [steps terminal step sbind lift print sret app fst snd final_state];
      rewrite ?app_nil_r; try reflexivity.
    destruct (decrypt (modulus cfg) c d) as [m'|e];
      cbn [steps terminal step sbind lift print sret app fst snd final_state];
      rewrite ?app_nil_r; reflexivity. }
  split; [exact H|].
  pose proof (steps_execution env 5 (Initialized cfg)) as He.
  now rewrite H in He.
Qed.

(** The machine ends and its complete run is unique: from every state
    there is an execution to a terminal state, of at most [rank]
    transitions (the one [steps] computes), and every execution from that
    state to a terminal state prints the same lines and ends in the same
    state. *)
Lemma machine_terminates (env : QiskitEnv) (s : state) :
  exists out s',
    steps (rank s) env s = (out, s') /\
    execution env s out s' /\ terminal s' = true /\
    forall out2 s2, execution env s out2 s2 -> terminal s2 = true ->
                    out2 = out /\ s2 = s'.
Proof.
  exists (fst (steps (rank s) env s)), (snd (steps (rank s) env s)).
  split; [now destruct (steps (rank s) env s)|].
  split; [apply steps_execution|].
  split; [now apply steps_reach_terminal|].
  intros out2 s2 He Ht.
  rewrite (execution_steps env s s2 out2 (rank s) He Ht (le_n _)). auto.
Qed.

(** A state has at most one successor, and the transition prints the
    same lines: the order of lines 18-113 leaves no choice. *)
Lemma transition_deterministic (env : QiskitEnv) (s s1 s2 : state)
  (out1 out2 : list line) :
  transition env s out1 s1 -> transition env s out2 s2 ->
  out1 = out2 /\ s1 = s2.
Proof.
  intros H1 H2. apply transition_step in H1, H2.
  destruct H1 as [_ H1], H2 as [_ H2]. rewrite H1 in H2. now inversion H2.
Qed.

(** Claim C12. On a valid key with a modulus below 2^104, [state_ok] is an
    invariant of the machine: every state an execution reaches from a
    sound state is sound.  From [Initialized cfg] an [Aborted] state is
    therefore reached only with the [ValueError] of line 64, and only
    when the candidate loop raises it on the answer of the library: not by
    line 18, not by the [RuntimeError] of line 88, not by [modinv] nor by
    line 110; every pair the machine holds factors the modulus, the
    exponent it holds inverts [e] modulo the totient, and a [Verified]
    state reports success and the original message. *)
Theorem valid_key_invariant (env : QiskitEnv) (cfg : Config) (s s' : state)
  (out : list line) :
  valid_key cfg -> modulus cfg < 2 ^ 104 ->
  state_ok env cfg s -> execution env s out s' -> state_ok env cfg s'.
Proof.
  intros Hk HN Hs He. induction He as [s|s out s1 out' s2 Ht _ IH];
    [assumption|].
  apply IH. exact (state_ok_transition env cfg Hk HN s s1 out Hs Ht).
Qed.

(** ** Witnesses *)

Lemma valid_key_invariant_witness :
  state_ok library_with_noise default_config
    (snd (steps 5 library_with_noise (Initialized default_config))).
Proof.
  apply (valid_key_invariant library_with_noise default_config
           (Initialized default_config) _
           (fst (steps 5 library_with_noise (Initialized default_config)))
           default_config_valid).
  - reflexivity.
  - reflexivity.
  - apply steps_execution.
Defined.
