(* ===== verification/Outcomes.v ===== *)
(** * Every way the script can end

    [src/shor.py] has no [try] outside [try_qiskit_shor_factor]: an
    exception raised anywhere else ends the script.  [failure] lists the
    statements that can raise, with the condition under which each does;
    the theorems show that the list is exact for every configuration and
    every answer of the library (a list of lists of integers, or none),
    that lines 60-88 implement the chain of oracles of [Oracle], that
    [ZeroDivisionError] never escapes
    although [modinv] can raise it, and that nothing after line 109 can
    raise.  When the script ends normally, for any constants, the values
    it reports are consistent with each other and determine what was
    printed ([run_report_consistent]). *)

From Stdlib Require Import ZArith Znumtheory List Bool Lia.
From S2P Require Import Prelude Float FloatBounds ModArith Factor Oracle Pipeline.
Import ListNotations.
#[local] Open Scope Z_scope.

(** ** The raising statements *)

Inductive failure (cfg : Config) (env : QiskitEnv) : exn -> Prop :=
| fail_zero_modulus :
    (* line 18: pow() 3rd argument cannot be 0 *)
    modulus cfg = 0 ->
    failure cfg env ValueError
| fail_not_invertible :
    (* line 18: base is not invertible for the given modulus *)
    cfg_e cfg < 0 -> Z.gcd (cfg_m cfg) (modulus cfg) <> 1 ->
    failure cfg env ValueError
| fail_malformed c :
    (* line 64: a candidate that is not a pair *)
    encrypt cfg = Ok c ->
    quantum_factor env (modulus cfg) = Raise ValueError ->
    failure cfg env ValueError
| fail_sqrt c e :
    (* line 79: math domain error, or int too large to convert to float *)
    encrypt cfg = Ok c ->
    quantum_factor env (modulus cfg) = Ok None ->
    trivial_factor (modulus cfg) = Raise e ->
    failure cfg env e
| fail_no_factors c :
    (* line 88 *)
    encrypt cfg = Ok c ->
    quantum_factor env (modulus cfg) = Ok None ->
    trivial_factor (modulus cfg) = Ok None ->
    failure cfg env RuntimeError
| fail_no_inverse c out src ff :
    (* line 106 *)
    encrypt cfg = Ok c ->
    find_factors env (modulus cfg) = (out, Ok (src, ff)) ->
    Z.gcd (cfg_e cfg) (phi_rec ff) <> 1 ->
    failure cfg env ValueError.

#[export] Hint Constructors failure : shor.

(** The lines of the factoring stage, from the branch taken and the pair
    found (lines 70, 72-73 and 86). *)
Definition factoring_lines (src : source) (ff : Z * Z) : list line :=
  match src with
  | Quantum => [PrintShorSuccess (fst ff) (snd ff)]
  | Fallback => fallback_lines ++ [PrintFactors (fst ff) (snd ff)]
  end.

(** ** Stage by stage *)

Lemma encrypt_Raise (cfg : Config) (e : exn) :
  encrypt cfg = Raise e <->
  e = ValueError /\
  (modulus cfg = 0 \/ (cfg_e cfg < 0 /\ Z.gcd (cfg_m cfg) (modulus cfg) <> 1)).
Proof. apply py_pow_Raise. Qed.

(** The factoring stage raises with the candidate loop, with
    [math.sqrt], or on line 88. *)
Lemma find_factors_Raise (env : QiskitEnv) (N : Z) (out : list line) (e : exn) :
  find_factors env N = (out, Raise e) <->
  (quantum_factor env N = Raise e /\ out = []) \/
  (quantum_factor env N = Ok None /\ out = fallback_lines /\
   (trivial_factor N = Raise e \/
    (trivial_factor N = Ok None /\ e = RuntimeError))).
Proof.
  rewrite find_factors_cases.
  destruct (quantum_factor env N) as [[[a b]|]|e1];
    [| destruct (trivial_factor N) as [[[a b]|]|e2] |];
    (split;
     [ intros [= <- <-]; auto 6
     | intros [[H1 H2] | [H1 [H2 [H3 | [H3 H4]]]]];
       try discriminate; congruence ]).
Qed.

(** Whatever branch produced it, the pair held after line 88 is a
    non-trivial factorisation. *)
Lemma find_factors_sound (env : QiskitEnv) (N : Z) (out : list line)
  (src : source) (ff : Z * Z) :
  find_factors env N = (out, Ok (src, ff)) ->
  nontrivial_factors N (fst ff) (snd ff).
Proof.
  rewrite find_factors_cases.
  destruct (quantum_factor env N) as [[[a b]|]|e1] eqn:Hq;
    [| destruct (trivial_factor N) as [[[a b]|]|e2] eqn:Ht |];
    intros [= <- <- <-]; simpl.
  - now apply (quantum_factor_sound env).
  - now apply trivial_factor_sound.
Qed.

(** What the factoring stage printed when it found a pair. *)
Lemma find_factors_lines (env : QiskitEnv) (N : Z) (out : list line)
  (src : source) (ff : Z * Z) :
  find_factors env N = (out, Ok (src, ff)) -> out = factoring_lines src ff.
Proof.
  rewrite find_factors_cases.
  destruct (quantum_factor env N) as [[[a b]|]|e1];
    [| destruct (trivial_factor N) as [[[a b]|]|e2] |];
    intros [= <- <- <-]; reflexivity.
Qed.

(** The recomputed totient is positive, so line 107 cannot divide by
    zero. *)
Lemma phi_rec_pos (N : Z) (ff : Z * Z) :
  nontrivial_factors N (fst ff) (snd ff) -> 0 < phi_rec ff.
Proof. intros (Ha & Hb & _). unfold phi_rec. nia. Qed.

Lemma d_rec_Raise (cfg : Config) (N : Z) (ff : Z * Z) (e : exn) :
  nontrivial_factors N (fst ff) (snd ff) ->
  (d_rec cfg ff = Raise e <->
   e = ValueError /\ Z.gcd (cfg_e cfg) (phi_rec ff) <> 1).
Proof. intros Hf. apply modinv_Raise, (phi_rec_pos N), Hf. Qed.

Lemma d_rec_nonneg (cfg : Config) (N : Z) (ff : Z * Z) (d : Z) :
  nontrivial_factors N (fst ff) (snd ff) -> d_rec cfg ff = Ok d ->
  0 <= d < phi_rec ff.
Proof.
  intros Hf H. apply modinv_sound in H; [tauto|]. apply (phi_rec_pos N), Hf.
Qed.

(** Line 110 cannot raise once line 18 did not. *)
Lemma decrypt_total (cfg : Config) (c c' d : Z) :
  encrypt cfg = Ok c -> 0 <= d ->
  decrypt (modulus cfg) c' d = Ok (c' ^ d mod modulus cfg).
Proof.
  intros Hc Hd. apply py_pow_nonneg; [|assumption].
  intros HN. unfold encrypt in Hc. rewrite HN in Hc. discriminate.
Qed.

(** ** The whole script *)

(** A run that passes line 109 reaches the end, with
    [m_rec = c^d_rec mod N]. *)
Lemma run_after_modinv (cfg : Config) (env : QiskitEnv) (c d : Z)
  (out : list line) (src : source) (ff : Z * Z) :
  encrypt cfg = Ok c ->
  find_factors env (modulus cfg) = (out, Ok (src, ff)) ->
  d_rec cfg ff = Ok d ->
  run cfg env =
    (key_lines cfg c ++ out ++ final_lines cfg (c ^ d mod modulus cfg),
     Ok {| rep_N := modulus cfg; rep_c := c; rep_source := src;
           rep_factors := ff; rep_phi_rec := phi_rec ff; rep_d_rec := d;
           rep_m_rec := c ^ d mod modulus cfg;
           rep_ok := (c ^ d mod modulus cfg =? cfg_m cfg) |}).
Proof.
  intros Hc Hf Hd.
  pose proof (find_factors_sound env _ out src ff Hf) as Hnt.
  destruct (d_rec_nonneg cfg _ ff d Hnt Hd) as [Hd0 _].
  apply (run_success cfg env c d _ out src ff Hc Hf Hd).
  exact (decrypt_total cfg c c d Hc Hd0).
Qed.

(** Every exception that ends the script is one of [failure]. *)
Lemma run_Raise_failure (cfg : Config) (env : QiskitEnv) (e : exn) :
  outcome_of (run cfg env) = Raise e -> failure cfg env e.
Proof.
  destruct (encrypt cfg) as [c|e1] eqn:Hc.
  - destruct (find_factors env (modulus cfg)) as [out [[src ff]|e2]] eqn:Hf.
    + pose proof (find_factors_sound env _ out src ff Hf) as Hnt.
      destruct (d_rec cfg ff) as [d|e3] eqn:Hd.
      * rewrite (run_after_modinv cfg env c d out src ff Hc Hf Hd).
        discriminate.
      * rewrite (run_modinv_raises cfg env c out src ff e3 Hc Hf Hd).
        intros [= <-]. apply (d_rec_Raise cfg _ ff e3 Hnt) in Hd.
        destruct Hd as [-> Hg]. eauto with shor.
    + rewrite (run_factoring_raises cfg env c out e2 Hc Hf). intros [= <-].
      apply find_factors_Raise in Hf.
      destruct Hf as [[Hq _] | (Hq & _ & [Ht | [Ht ->]])]; eauto with shor.
      pose proof (quantum_factor_Raise _ _ _ Hq) as ->. eauto with shor.
  - rewrite (run_encrypt_raises cfg env e1 Hc). intros [= <-].
    apply encrypt_Raise in Hc. destruct Hc as [-> [HN | [He Hg]]];
      auto with shor.
Qed.

(** Each of them does end the script. *)
Lemma failure_run_Raise (cfg : Config) (env : QiskitEnv) (e : exn) :
  failure cfg env e -> outcome_of (run cfg env) = Raise e.
Proof.
  intros H. destruct H as [HN | He Hg | c Hc Hq | c e Hc Hq Ht | c Hc Hq Ht
                           | c out src ff Hc Hf Hg].
  - rewrite (run_encrypt_raises cfg env ValueError); [reflexivity|].
    apply encrypt_Raise. auto.
  - rewrite (run_encrypt_raises cfg env ValueError); [reflexivity|].
    apply encrypt_Raise. auto.
  - rewrite (run_factoring_raises cfg env c [] ValueError Hc); [reflexivity|].
    apply find_factors_Raise. auto.
  - rewrite (run_factoring_raises cfg env c fallback_lines e Hc);
      [reflexivity|]. apply find_factors_Raise. auto.
  - rewrite (run_factoring_raises cfg env c fallback_lines RuntimeError Hc);
      [reflexivity|]. apply find_factors_Raise. auto 6.
  - rewrite (run_modinv_raises cfg env c out src ff ValueError Hc Hf);
      [reflexivity|].
    apply (d_rec_Raise cfg (modulus cfg));
      [exact (find_factors_sound env _ out src ff Hf) | auto].
Qed.

(** The exceptions of [math.sqrt] are the two of its model. *)
Lemma trivial_factor_exn (N : Z) (e : exn) :
  trivial_factor N = Raise e -> e = ValueError \/ e = OverflowError.
Proof.
  unfold trivial_factor. rewrite math_sqrt_int_cases.
  destruct (2 ^ 1024 - 2 ^ 970 <=? Z.abs N); [intros [= <-]; auto|].
  destruct (N <? 0); [intros [= <-]; auto|]. cbn [bind].
  destruct (find _ _); discriminate.
Qed.

(** ** Properties *)

(** Claim C11. Lines 60-88 implement the chain of the two oracles.  The
    value of [find_factors] is the answer of [script_oracle]: a pair is
    passed on, a missing answer becomes the [RuntimeError] of line 88, an
    exception passes through.  The source recorded is [Quantum] exactly
    when the library gave the pair, and the lines printed are those of the
    branch taken. *)
Theorem find_factors_refines_chain (env : QiskitEnv) (N : Z) :
  match @factor (script_oracle env) N with
  | Ok (Some ff) =>
      exists src,
        find_factors env N = (factoring_lines src ff, Ok (src, ff)) /\
        (src = Quantum <-> quantum_factor env N = Ok (Some ff))
  | Ok None => find_factors env N = (fallback_lines, Raise RuntimeError)
  | Raise e =>
      find_factors env N =
      (match quantum_factor env N with
       | Ok None => fallback_lines
       | _ => []
       end, Raise e)
  end.
Proof.
  rewrite find_factors_cases.
  cbn [factor script_oracle chain_oracle quantum_oracle trial_division_oracle].
  unfold or_else.
  destruct (quantum_factor env N) as [[[a b]|]|e]; cbn [bind];
    [exists Quantum; split; [reflexivity | tauto] | | reflexivity].
  destruct (trivial_factor N) as [[[a b]|]|e]; try reflexivity.
  exists Fallback. split; [reflexivity|]. split; discriminate.
Qed.

(** Claim C9. The script dies with the exception [e] exactly in the six
    situations of [failure]: a zero modulus or a non-invertible message
    under a negative exponent on line 18, a candidate of the library that
    is not a pair on line 64, an argument [math.sqrt] rejects on line 79,
    no factors on line 88, an exponent [e] that shares a factor with the
    recomputed totient on line 106. *)
Theorem run_raises_iff (cfg : Config) (env : QiskitEnv) (e : exn) :
  outcome_of (run cfg env) = Raise e <-> failure cfg env e.
Proof. split; [apply run_Raise_failure | apply failure_run_Raise]. Qed.

(** Claim C26. For a non-negative exponent and a modulus in [[1, 2^104)],
    the script ends with the [RuntimeError] of line 88 exactly when the
    candidate loop finds no valid pair in the answer of the library and
    the modulus is 1 or a prime: on a composite modulus of that size the
    script never gives up. *)
Theorem run_gives_up_iff_prime (cfg : Config) (env : QiskitEnv) :
  0 <= cfg_e cfg -> 0 < modulus cfg < 2 ^ 104 ->
  (outcome_of (run cfg env) = Raise RuntimeError <->
   quantum_factor env (modulus cfg) = Ok None /\
   (modulus cfg = 1 \/ Z.prime (modulus cfg))).
Proof.
  intros He HN.
  assert (Hp : trivial_factor (modulus cfg) = Ok None <->
               modulus cfg = 1 \/ Z.prime (modulus cfg)).
  { rewrite trivial_factor_None by lia. split.
    - intros H. destruct (Z.eq_dec (modulus cfg) 1); [now left | right].
      split; [lia | exact H].
    - intros [H | [_ H]]; [intros d Hd; lia | exact H]. }
  rewrite <- Hp. split.
  - intros H. apply run_Raise_failure in H.
    inversion H as [| | | c e Hc Hq Ht | c Hc Hq Ht |]; subst; auto.
    apply trivial_factor_exn in Ht. destruct Ht; discriminate.
  - intros [Hq Ht]. apply failure_run_Raise.
    apply fail_no_factors with (c := cfg_m cfg ^ cfg_e cfg mod modulus cfg);
      auto. apply py_pow_nonneg; lia.
Qed.

(** Claim C24. [ZeroDivisionError] never escapes the script, for any
    constants and any answer of the library (none, or a list of lists of
    integers), although [modinv(1, 0)] raises it: the factors the script
    holds are above 1, so the modulus [phi_rec] it passes to [modinv] is
    positive; and the exceptions that do escape are [ValueError],
    [OverflowError] and [RuntimeError]. *)
Theorem run_never_zero_division (cfg : Config) (env : QiskitEnv) :
  outcome_of (run cfg env) <> Raise ZeroDivisionError /\
  modinv 1 0 = Raise ZeroDivisionError.
Proof.
  split; [|reflexivity]. intros H. apply run_Raise_failure in H.
  inversion H as [| | | c e Hc Hq Ht He | |]; subst.
  destruct (trivial_factor_exn _ _ Ht); discriminate.
Qed.

(** Claim C25. Nothing after line 109 can raise: once the ciphertext, the
    factors and the private exponent exist, the script prints its two last
    lines and ends, with [m_rec = c^d_rec mod N] and [0 <= d_rec < phi_rec]. *)
Theorem run_reaches_end (cfg : Config) (env : QiskitEnv) (c d : Z)
  (out : list line) (src : source) (ff : Z * Z) :
  encrypt cfg = Ok c ->
  find_factors env (modulus cfg) = (out, Ok (src, ff)) ->
  d_rec cfg ff = Ok d ->
  0 <= d < phi_rec ff /\
  run cfg env =
    (key_lines cfg c ++ out ++ final_lines cfg (c ^ d mod modulus cfg),
     Ok {| rep_N := modulus cfg; rep_c := c; rep_source := src;
           rep_factors := ff; rep_phi_rec := phi_rec ff; rep_d_rec := d;
           rep_m_rec := c ^ d mod modulus cfg;
           rep_ok := (c ^ d mod modulus cfg =? cfg_m cfg) |}).
Proof.
  intros Hc Hf Hd. split; [|now apply run_after_modinv].
  exact (d_rec_nonneg cfg _ ff d (find_factors_sound env _ out src ff Hf) Hd).
Qed.

(** Claim C10. Whenever the script ends normally, for any constants and
    any answer of the library (none, or a list of lists of integers),
    what it reports is consistent: the ciphertext is that of line 18, the factors are above 1 and multiply to
    [N], [phi_rec] is computed from them, [d_rec] lies in [[0, phi_rec)]
    and inverts [e] modulo [phi_rec], [m_rec = c^d_rec mod N], the flag
    compares [m_rec] with [m]; and the lines printed are determined by the
    report. *)
Theorem run_report_consistent (cfg : Config) (env : QiskitEnv) (r : Report) :
  outcome_of (run cfg env) = Ok r ->
  rep_N r = modulus cfg /\ encrypt cfg = Ok (rep_c r) /\
  nontrivial_factors (modulus cfg) (fst (rep_factors r)) (snd (rep_factors r)) /\
  rep_phi_rec r = phi_rec (rep_factors r) /\
  0 <= rep_d_rec r < rep_phi_rec r /\
  (cfg_e cfg * rep_d_rec r) mod rep_phi_rec r = 1 mod rep_phi_rec r /\
  rep_m_rec r = rep_c r ^ rep_d_rec r mod modulus cfg /\
  rep_ok r = (rep_m_rec r =? cfg_m cfg) /\
  output (run cfg env) =
    key_lines cfg (rep_c r) ++ factoring_lines (rep_source r) (rep_factors r)
      ++ final_lines cfg (rep_m_rec r).
Proof.
  destruct (encrypt cfg) as [c|e1] eqn:Hc;
    [|rewrite (run_encrypt_raises cfg env e1 Hc); discriminate].
  destruct (find_factors env (modulus cfg)) as [out [[src ff]|e2]] eqn:Hf;
    [|rewrite (run_factoring_raises cfg env c out e2 Hc Hf); discriminate].
  destruct (d_rec cfg ff) as [d|e3] eqn:Hd;
    [|rewrite (run_modinv_raises cfg env c out src ff e3 Hc Hf Hd);
      discriminate].
  rewrite (run_after_modinv cfg env c d out src ff Hc Hf Hd).
  intros [= <-]; cbn [rep_N rep_c rep_factors rep_phi_rec rep_d_rec rep_m_rec
                       rep_ok rep_source output fst].
  pose proof (find_factors_sound env _ out src ff Hf) as Hnt.
  pose proof (phi_rec_pos _ ff Hnt) as Hphi.
  apply modinv_sound in Hd; [|assumption].
  rewrite (find_factors_lines env _ out src ff Hf). tauto.
Qed.

(** The report of the script as written, without the library. *)
Definition scenario_report : Report :=
  {| rep_N := 15; rep_c := 13; rep_source := Fallback; rep_factors := (3, 5);
     rep_phi_rec := 8; rep_d_rec := 3; rep_m_rec := 7; rep_ok := true |}.

Lemma run_report_consistent_witness :
  rep_N scenario_report = modulus default_config /\
  encrypt default_config = Ok (rep_c scenario_report) /\
  nontrivial_factors (modulus default_config)
    (fst (rep_factors scenario_report)) (snd (rep_factors scenario_report)) /\
  rep_phi_rec scenario_report = phi_rec (rep_factors scenario_report) /\
  0 <= rep_d_rec scenario_report < rep_phi_rec scenario_report /\
  (cfg_e default_config * rep_d_rec scenario_report)
    mod rep_phi_rec scenario_report = 1 mod rep_phi_rec scenario_report /\
  rep_m_rec scenario_report =
    rep_c scenario_report ^ rep_d_rec scenario_report
      mod modulus default_config /\
  rep_ok scenario_report =
    (rep_m_rec scenario_report =? cfg_m default_config) /\
  output (run default_config no_library) =
    key_lines default_config (rep_c scenario_report)
      ++ factoring_lines (rep_source scenario_report)
           (rep_factors scenario_report)
      ++ final_lines default_config (rep_m_rec scenario_report).
Proof.
  apply (run_report_consistent default_config no_library scenario_report).
  reflexivity.
Defined.

Lemma run_reaches_end_witness :
  0 <= 3 < phi_rec (3, 5) /\
  run default_config no_library =
    (key_lines default_config 13 ++
     (fallback_lines ++ [PrintFactors 3 5]) ++
     final_lines default_config (13 ^ 3 mod modulus default_config),
     Ok {| rep_N := modulus default_config; rep_c := 13;
           rep_source := Fallback; rep_factors := (3, 5);
           rep_phi_rec := phi_rec (3, 5); rep_d_rec := 3;
           rep_m_rec := 13 ^ 3 mod modulus default_config;
           rep_ok := (13 ^ 3 mod modulus default_config
                      =? cfg_m default_config) |}).
Proof.
  apply (run_reaches_end default_config no_library 13 3
           (fallback_lines ++ [PrintFactors 3 5]) Fallback (3, 5));
    reflexivity.
Defined.

Lemma run_gives_up_iff_prime_witness :
  outcome_of (run {| cfg_p := 1; cfg_q := 7; cfg_e := 3; cfg_m := 3 |}
                no_library) = Raise RuntimeError <->
  quantum_factor no_library 7 = Ok None /\ (7 = 1 \/ Z.prime 7).
Proof.
  apply (run_gives_up_iff_prime
           {| cfg_p := 1; cfg_q := 7; cfg_e := 3; cfg_m := 3 |} no_library);
    [simpl; lia | unfold modulus; simpl; lia].
Defined.
