(* ===== verification/Render.v ===== *)
(** * What the script writes on the console

    The [print] statements of [src/shor.py] (lines 20, 21, 70, 72, 73, 86,
    112 and 113) as text: [render] gives the bytes one statement writes on
    standard output, the f-string with its integers in decimal, the
    arguments of line 113 joined by a space, and the newline [print] adds;
    [stdout] is the output of a whole run.  Strings are sequences of bytes
    and the accented letters of the source are their UTF-8 encodings.

    Theorems: [str_int] is the decimal notation (it reads back to the
    integer), [render] is injective, so a line of the console determines
    the statement that wrote it and the values it shows; no line is the
    beginning of another, so [stdout] is injective too and the whole
    console determines the sequence of statements executed.  The console
    of the script as written is checked as an example. *)

From Stdlib Require Import ZArith List String Ascii Bool Lia.
From Stdlib Require Import Decimal DecimalString DecimalPos DecimalZ.
From S2P Require Import Prelude Oracle Pipeline.
Import ListNotations.
#[local] Open Scope string_scope.

(** ** Definitions *)

(** The newline [print] ends a line with. *)
Definition nl : string := String "010"%char EmptyString.

(** [str(n)]: decimal digits, with a minus sign for negative integers. *)
Definition str_int (z : Z) : string := NilZero.string_of_int (Z.to_int z).

(** The text of one [print] statement. *)
Definition render (l : line) : string :=
  match l with
  | PrintKey p q N phi e =>
      "[RSA didático] p=" ++ str_int p ++ ", q=" ++ str_int q ++
      ", N=" ++ str_int N ++ ", phi(N)=" ++ str_int phi ++
      ", e=" ++ str_int e ++ nl
  | PrintMessage m c =>
      "Mensagem: " ++ str_int m ++ " Cifrada: " ++ str_int c ++ nl ++ nl
  | PrintShorSuccess a b =>
      "[Shor/Qiskit] Sucesso! Fatores obtidos: p=" ++ str_int a ++
      ", q=" ++ str_int b ++ nl
  | PrintShorUnavailable =>
      "[Shor/Qiskit] Não foi possível rodar Shor (ambiente sem Qiskit/algoritmos ou falhou em N pequeno)."
      ++ nl
  | PrintFallbackNote =>
      "-> Seguindo com fallback didático (não quântico) apenas para concluir o exemplo."
      ++ nl ++ nl
  | PrintFactors a b =>
      "Fatores: p=" ++ str_int a ++ ", q=" ++ str_int b ++ nl
  | PrintRecovered m_rec =>
      "Mensagem recuperada: " ++ str_int m_rec ++ nl
  | PrintVerification ok =>
      nl ++ "Verificação: " ++ (if ok then "SUCESSO" else "FALHOU") ++ nl
  end.

(** Standard output after a sequence of [print] statements. *)
Definition stdout (out : list line) : string :=
  fold_right (fun l s => render l ++ s) EmptyString out.

(** The characters of a rendered integer. *)
Definition is_num_char (c : ascii) : bool :=
  existsb (Ascii.eqb c) (list_ascii_of_string "-0123456789").

Fixpoint all_chars (P : ascii -> bool) (s : string) : bool :=
  match s with
  | EmptyString => true
  | String c t => P c && all_chars P t
  end.

(** A text that does not continue a number. *)
Definition starts_non_num (t : string) : bool :=
  match t with
  | EmptyString => true
  | String c _ => negb (is_num_char c)
  end.

(** ** Strings *)

Lemma append_cancel_l (s t1 t2 : string) : s ++ t1 = s ++ t2 -> t1 = t2.
Proof. induction s as [|c s IH]; simpl; [auto | intros [= H]; auto]. Qed.

Lemma append_assoc (s t u : string) : (s ++ t) ++ u = s ++ t ++ u.
Proof. induction s as [|c s IH]; simpl; [reflexivity | now rewrite IH]. Qed.

(** A run of number characters followed by something else splits in one
    way only. *)
Lemma num_prefix_unique (x x' t t' : string) :
  all_chars is_num_char x = true -> all_chars is_num_char x' = true ->
  starts_non_num t = true -> starts_non_num t' = true ->
  x ++ t = x' ++ t' -> x = x' /\ t = t'.
Proof.
  revert x'. induction x as [|c x IH]; intros [|c' x'] Hx Hx' Ht Ht' H;
    simpl in *.
  - auto.
  - subst t. simpl in Ht. apply andb_prop in Hx'. destruct Hx' as [Hc _].
    rewrite Hc in Ht. discriminate.
  - subst t'. simpl in Ht'. apply andb_prop in Hx. destruct Hx as [Hc _].
    rewrite Hc in Ht'. discriminate.
  - injection H as -> H. apply andb_prop in Hx, Hx'.
    destruct (IH x') as [-> ->]; tauto.
Qed.

(** ** Decimal notation *)

Lemma uint_chars (d : uint) :
  all_chars is_num_char (NilEmpty.string_of_uint d) = true.
Proof. induction d; simpl; auto. Qed.

Lemma str_int_chars (z : Z) : all_chars is_num_char (str_int z) = true.
Proof.
  unfold str_int. destruct (Z.to_int z) as [d|d]; simpl;
    destruct d; simpl; rewrite ?uint_chars; reflexivity.
Qed.

(** The decimal representation of an integer has at least one digit. *)
Lemma to_int_nonnil (z : Z) : Z.to_int z <> Pos Nil /\ Z.to_int z <> Neg Nil.
Proof.
  destruct z as [|p|p]; simpl; split; try discriminate;
    intros [= H]; exact (Unsigned.to_uint_nonnil p H).
Qed.

(** Reading the notation back gives the integer. *)
Lemma str_int_read (z : Z) :
  option_map Z.of_int (NilZero.int_of_string (str_int z)) = Some z.
Proof.
  unfold str_int. destruct (to_int_nonnil z) as [H1 H2].
  rewrite NilZero.isi by assumption. simpl. now rewrite DecimalZ.of_to.
Qed.

Lemma str_int_inj (a b : Z) : str_int a = str_int b -> a = b.
Proof.
  intros H. pose proof (str_int_read a) as Ha. rewrite H, str_int_read in Ha.
  now injection Ha.
Qed.

(** ** Lines *)

(** Removes what two equal texts share: a literal prefix, or a number
    followed by the rest of the template. *)
Ltac peel H :=
  repeat first
    [ apply append_cancel_l in H
    | let E := fresh "E" in
      apply num_prefix_unique in H;
      [ destruct H as [E H]; apply str_int_inj in E; subst
      | apply str_int_chars | apply str_int_chars
      | reflexivity | reflexivity ] ].

Lemma flag_text_inj (b1 b2 : bool) :
  (if b1 then "SUCESSO" else "FALHOU") ++ nl =
  (if b2 then "SUCESSO" else "FALHOU") ++ nl -> b1 = b2.
Proof. destruct b1, b2; simpl; intros H; try reflexivity; discriminate. Qed.

(** No line is the beginning of another: followed by any text, a line
    is read back in one way only. *)
Lemma render_prefix_free (l1 l2 : line) (s1 s2 : string) :
  render l1 ++ s1 = render l2 ++ s2 -> l1 = l2 /\ s1 = s2.
Proof.
  destruct l1, l2; unfold render; rewrite ?append_assoc; intros H;
    try discriminate H; peel H; auto.
  destruct ok, ok0; try discriminate H; peel H; auto.
Qed.

(** ** Properties *)

(** Claim C27. A line of the console determines the statement that
    printed it and the values it shows: [render] is injective. *)
Theorem render_injective (l1 l2 : line) : render l1 = render l2 -> l1 = l2.
Proof.
  destruct l1, l2; intros H; try discriminate H;
    unfold render in H; peel H; try reflexivity.
  f_equal. now apply flag_text_inj.
Qed.

Lemma render_injective_witness : PrintFactors 3 5 = PrintFactors 3 5.
Proof. apply (render_injective (PrintFactors 3 5) (PrintFactors 3 5)). reflexivity. Defined.

(** Claim C28. The console determines the sequence of [print] statements
    that were executed and the values they showed: two sequences of lines
    with the same text on standard output are the same sequence, although
    some lines end with an empty line and the last one begins with one. *)
Theorem stdout_injective (l1 l2 : list line) :
  stdout l1 = stdout l2 -> l1 = l2.
Proof.
  revert l2. induction l1 as [|x l1 IH]; intros [|y l2] H;
    cbn [stdout fold_right] in H.
  - reflexivity.
  - destruct y; discriminate H.
  - destruct x; discriminate H.
  - apply render_prefix_free in H. destruct H as [-> H]. f_equal. now apply IH.
Qed.

Lemma stdout_injective_witness :
  output (run default_config no_library) =
  [PrintKey 3 5 15 8 3; PrintMessage 7 13; PrintShorUnavailable;
   PrintFallbackNote; PrintFactors 3 5; PrintRecovered 7;
   PrintVerification true].
Proof. apply (stdout_injective _ _). vm_compute. reflexivity. Defined.

(** A test of the model: the console of the script as written, without
    the library: the key, the message and its ciphertext, the notice of the fallback,
    the factors, the recovered message and the verdict. *)
Example stdout_scenario :
  stdout (output (run default_config no_library)) =
  "[RSA didático] p=3, q=5, N=15, phi(N)=8, e=3" ++ nl ++
  "Mensagem: 7 Cifrada: 13" ++ nl ++ nl ++
  "[Shor/Qiskit] Não foi possível rodar Shor (ambiente sem Qiskit/algoritmos ou falhou em N pequeno)." ++ nl ++
  "-> Seguindo com fallback didático (não quântico) apenas para concluir o exemplo." ++ nl ++ nl ++
  "Fatores: p=3, q=5" ++ nl ++
  "Mensagem recuperada: 7" ++ nl ++ nl ++
  "Verificação: SUCESSO" ++ nl.
Proof. vm_compute. reflexivity. Qed.
